(** * A free-list memory allocator over [sbrk]: model and verification

    The development embeds [src/main.c] (first-fit allocator with block
    splitting and coalescing) in Rocq.  Memory is a byte-addressed store,
    block headers are read and written through little-endian loads and
    stores at the LP64 field offsets of [block_t], [size_t] arithmetic wraps
    modulo [2^64], and loops over the block chain run on fuel.

    The embedding follows the complete program, the one [main] exercises.
    The repository also keeps an unfinished earlier draft of the helper
    functions (it calls an undefined [srbk] and does not compile); that
    draft is not modelled. *)

From Stdlib Require Import ZArith List Lia Bool.
Import ListNotations.
Local Open Scope Z_scope.

(* ================================================================== *)
(** ** Machine words *)

(** Number of values of a 64-bit word ([2^64]) and of a signed word. *)
Definition WORD : Z := 18446744073709551616.
Definition HALF : Z := 9223372036854775808.
Definition SIZE_MAX : Z := WORD - 1.

(** Reduction of an integer to a [size_t] / pointer value. *)
Definition wrap (x : Z) : Z := x mod WORD.

(** Reading of a 64-bit value as [intptr_t]. *)
Definition signed (x : Z) : Z := if x <? HALF then x else x - WORD.

Definition NULL : Z := 0.

(** [#define ALIGNMENT 8] and
    [#define ALIGN(size) (((size) + (ALIGNMENT-1)) & ~(ALIGNMENT-1))],
    with the addition and the mask taken in [size_t]. *)
Definition ALIGNMENT : Z := 8.
Definition ALIGN (size : Z) : Z :=
  Z.land (wrap (size + (ALIGNMENT - 1))) (wrap (Z.lnot (ALIGNMENT - 1))).

(** [sizeof(block_t)] on LP64: [size_t size] at offset 0, [int free] at
    offset 8 (followed by 4 bytes of padding), [struct block *next] at
    offset 16. *)
Definition BLOCK_SIZE : Z := 24.
Definition OFF_SIZE : Z := 0.
Definition OFF_FREE : Z := 8.
Definition OFF_NEXT : Z := 16.

(* ================================================================== *)
(** ** Byte-addressed memory *)

(** A memory maps every address to the content of one byte cell; a cell is
    read modulo 256. *)
Definition mem := Z -> Z.

Definition upd (m : mem) (a b : Z) : mem :=
  fun x => if x =? a then b else m x.

(** Little-endian load and store of [n] bytes. *)
Fixpoint load (n : nat) (m : mem) (a : Z) : Z :=
  match n with
  | O => 0
  | S k => (m a) mod 256 + 256 * load k m (a + 1)
  end.

Fixpoint store (n : nat) (m : mem) (a v : Z) : mem :=
  match n with
  | O => m
  | S k => store k (upd m a (v mod 256)) (a + 1) (v / 256)
  end.

(** [memcpy(dst, src, n)]: the [n] source bytes are read from the memory
    as it is at the call. *)
Definition memcpy (m : mem) (dst src n : Z) : mem :=
  fun x => if (dst <=? x) && (x <? dst + n) then m (src + (x - dst)) else m x.

(** Field accessors of a [block_t] stored at address [b]. *)
Definition get_size (m : mem) (b : Z) : Z := load 8 m (b + OFF_SIZE).
Definition get_free (m : mem) (b : Z) : Z := load 4 m (b + OFF_FREE).
Definition get_next (m : mem) (b : Z) : Z := load 8 m (b + OFF_NEXT).
Definition set_size (m : mem) (b v : Z) : mem := store 8 m (b + OFF_SIZE) v.
Definition set_free (m : mem) (b v : Z) : mem := store 4 m (b + OFF_FREE) v.
Definition set_next (m : mem) (b v : Z) : mem := store 8 m (b + OFF_NEXT) v.

(* ================================================================== *)
(** ** Program state *)

(** The global [head], the program break with the interval the operating
    system lets it move in, and the memory. *)
Record state : Type := mkstate {
  head : Z;
  brk : Z;
  brk_lo : Z;
  brk_hi : Z;
  mem_of : mem
}.

Definition with_head (s : state) (h : Z) : state :=
  mkstate h (brk s) (brk_lo s) (brk_hi s) (mem_of s).
Definition with_brk (s : state) (b : Z) : state :=
  mkstate (head s) b (brk_lo s) (brk_hi s) (mem_of s).
Definition with_mem (s : state) (m : mem) : state :=
  mkstate (head s) (brk s) (brk_lo s) (brk_hi s) m.
Definition with_limit (s : state) (hi : Z) : state :=
  mkstate (head s) (brk s) (brk_lo s) hi (mem_of s).

(** [(void* ) -1], the failure value of [sbrk]. *)
Definition SBRK_FAILED : Z := wrap (-1).

(** [sbrk(increment)], as the C library provides it on Linux: the increment
    is an [intptr_t] and [sbrk(0)] reports the break.  Otherwise the break
    moves by [increment] and the old break is returned when the new break
    stays inside the interval the kernel permits.  When it does not, a
    positive increment is refused with [(void* ) -1]; for a negative
    increment the kernel leaves the break where it is and the library
    still returns the old break, unless the subtraction passes below
    address 0, which the library refuses itself.  Nothing but the break
    ever changes. *)
Definition sbrk (increment : Z) (s : state) : Z * state :=
  if increment =? 0 then (brk s, s)
  else
    let new_brk := brk s + signed increment in
    if (brk_lo s <=? new_brk) && (new_brk <=? brk_hi s)
    then (brk s, with_brk s new_brk)
    else if (signed increment <? 0) && (0 <=? new_brk)
    then (brk s, s)
    else (SBRK_FAILED, s).

(** The state before any allocation. *)
Definition empty_heap (b0 hi : Z) : state :=
  mkstate NULL b0 b0 hi (fun _ => 0).

(* ================================================================== *)
(** ** The allocator, function by function *)

Definition get_block_ptr (ptr : Z) : Z := wrap (ptr - BLOCK_SIZE).

Definition request_space (last size : Z) (s : state) : Z * state :=
  let (block, s0) := sbrk 0 s in
  let (request, s1) := sbrk (wrap (BLOCK_SIZE + size)) s0 in
  if request =? SBRK_FAILED then (NULL, s1)
  else
    let m1 := if last =? NULL then mem_of s1
              else set_next (mem_of s1) last block in
    let m2 := set_size m1 block size in
    let m3 := set_free m2 block 0 in
    let m4 := set_next m3 block NULL in
    (block, with_mem s1 m4).

(** The loop of [find_free_block_first_fit]; the result is the final
    [current] together with the final content of [*last]. *)
Fixpoint first_fit_loop (fuel : nat) (m : mem) (size current last : Z)
  : option (Z * Z) :=
  match fuel with
  | O => None
  | S fuel' =>
      if negb (current =? NULL)
         && negb (negb (get_free m current =? 0)
                  && (size <=? get_size m current))
      then first_fit_loop fuel' m size (get_next m current) current
      else Some (current, last)
  end.

Definition find_free_block_first_fit (fuel : nat) (s : state)
    (last size : Z) : option (Z * Z) :=
  first_fit_loop fuel (mem_of s) size (head s) last.

(** The loop of [find_free_block_best_fit], on the loop variables
    [current], [best], [best_size] and [*last]. *)
Fixpoint best_fit_loop (fuel : nat) (m : mem) (size current best best_size last : Z)
  : option (Z * Z) :=
  match fuel with
  | O => None
  | S fuel' =>
      if current =? NULL then Some (best, last)
      else
        let fits := negb (get_free m current =? 0)
                    && (size <=? get_size m current) in
        let better := fits && (get_size m current <? best_size) in
        let best' := if better then current else best in
        let best_size' := if better then get_size m current else best_size in
        let last' := if (best' =? NULL) || (current =? best')
                     then current else last in
        best_fit_loop fuel' m size (get_next m current) best' best_size' last'
  end.

Definition find_free_block_best_fit (fuel : nat) (s : state) (size : Z)
  : option (Z * Z) :=
  best_fit_loop fuel (mem_of s) size (head s) NULL SIZE_MAX NULL.

Definition split_block (m : mem) (block size : Z) : mem :=
  if wrap (wrap (size + BLOCK_SIZE) + ALIGNMENT) <=? get_size m block then
    let new_block := wrap (wrap (block + BLOCK_SIZE) + size) in
    let m1 := set_size m new_block
                (wrap (wrap (get_size m block - size) - BLOCK_SIZE)) in
    let m2 := set_free m1 new_block 1 in
    let m3 := set_next m2 new_block (get_next m2 block) in
    let m4 := set_size m3 block size in
    set_next m4 block new_block
  else m.

(** The loop of [coalesce]. *)
Fixpoint coalesce_loop (fuel : nat) (m : mem) (current : Z) : option mem :=
  match fuel with
  | O => None
  | S fuel' =>
      if negb (current =? NULL) && negb (get_next m current =? NULL) then
        if negb (get_free m current =? 0)
           && negb (get_free m (get_next m current) =? 0)
        then
          let m1 := set_size m current
                      (wrap (get_size m current
                             + wrap (BLOCK_SIZE + get_size m (get_next m current)))) in
          let m2 := set_next m1 current (get_next m1 (get_next m1 current)) in
          coalesce_loop fuel' m2 current
        else coalesce_loop fuel' m (get_next m current)
      else Some m
  end.

Definition coalesce (fuel : nat) (s : state) : option state :=
  match coalesce_loop fuel (mem_of s) (head s) with
  | Some m => Some (with_mem s m)
  | None => None
  end.

Definition my_malloc (fuel : nat) (size : Z) (s : state) : option (Z * state) :=
  if size <=? 0 then Some (NULL, s)
  else
    let size := ALIGN size in
    if head s =? NULL then
      let (block, s1) := request_space NULL size s in
      if block =? NULL then Some (NULL, s1)
      else Some (wrap (block + BLOCK_SIZE), with_head s1 block)
    else
      match find_free_block_first_fit fuel s (head s) size with
      | None => None
      | Some (block, last) =>
          if block =? NULL then
            let (block, s1) := request_space last size s in
            if block =? NULL then Some (NULL, s1)
            else Some (wrap (block + BLOCK_SIZE), s1)
          else
            let m1 := split_block (mem_of s) block size in
            let m2 := set_free m1 block 0 in
            Some (wrap (block + BLOCK_SIZE), with_mem s m2)
      end.

Definition my_free (fuel : nat) (ptr : Z) (s : state) : option state :=
  if ptr =? NULL then Some s
  else
    let block := get_block_ptr ptr in
    coalesce fuel (with_mem s (set_free (mem_of s) block 1)).

Definition my_realloc (fuel : nat) (ptr size : Z) (s : state)
  : option (Z * state) :=
  if ptr =? NULL then my_malloc fuel size s
  else if size =? 0 then
    match my_free fuel ptr s with
    | Some s1 => Some (NULL, s1)
    | None => None
    end
  else
    let block := get_block_ptr ptr in
    if size <=? get_size (mem_of s) block then
      Some (ptr, with_mem s (split_block (mem_of s) block size))
    else
      match my_malloc fuel size s with
      | None => None
      | Some (new_ptr, s1) =>
          if new_ptr =? NULL then Some (NULL, s1)
          else
            let m2 := memcpy (mem_of s1) new_ptr ptr (get_size (mem_of s1) block) in
            match my_free fuel ptr (with_mem s1 m2) with
            | Some s3 => Some (new_ptr, s3)
            | None => None
            end
      end.


(** [print_memory_map], as the list of its lines: for each block of the
    chain, in order, whether it is free, its size and its [next] link. *)
Fixpoint memory_map_loop (fuel : nat) (m : mem) (current : Z)
  : option (list (bool * Z * Z)) :=
  match fuel with
  | O => None
  | S fuel' =>
      if current =? NULL then Some []
      else
        match memory_map_loop fuel' m (get_next m current) with
        | Some lines =>
            Some ((negb (get_free m current =? 0), get_size m current,
                   get_next m current) :: lines)
        | None => None
        end
  end.

Definition print_memory_map (fuel : nat) (s : state)
  : option (list (bool * Z * Z)) :=
  memory_map_loop fuel (mem_of s) (head s).

(** The three operations of the public API as one call type. *)
Inductive call : Type :=
| Malloc (size : Z)
| Free (ptr : Z)
| Realloc (ptr size : Z).

Definition run (fuel : nat) (c : call) (s : state) : option (Z * state) :=
  match c with
  | Malloc size => my_malloc fuel size s
  | Free ptr =>
      match my_free fuel ptr s with
      | Some s' => Some (NULL, s')
      | None => None
      end
  | Realloc ptr size => my_realloc fuel ptr size s
  end.

(* ================================================================== *)
(** ** The block chain as the memory holds it *)

(** [chain m h l]: following [next] from [h] visits exactly the addresses
    [l] and then reaches [NULL]. *)
Inductive chain (m : mem) : Z -> list Z -> Prop :=
| chain_end : chain m NULL []
| chain_step a l :
    a <> NULL -> chain m (get_next m a) l -> chain m a (a :: l).

(** A relation holding between every two list-adjacent elements. *)
Fixpoint adjacent (P : Z -> Z -> Prop) (l : list Z) : Prop :=
  match l with
  | a :: tl => match tl with
               | a' :: _ => P a a' /\ adjacent P tl
               | [] => True
               end
  | [] => True
  end.

(** The ledger invariant: list order is address order and list neighbours
    are memory neighbours. *)
Definition ledger_inv (s : state) : Prop :=
  exists l, chain (mem_of s) (head s) l /\
    adjacent (fun a a' =>
                a < a' /\ a' = a + BLOCK_SIZE + get_size (mem_of s) a) l.

(** No two list-adjacent blocks are both free. *)
Definition no_adjacent_free (s : state) : Prop :=
  exists l, chain (mem_of s) (head s) l /\
    adjacent (fun a a' =>
                ~ (get_free (mem_of s) a <> 0 /\ get_free (mem_of s) a' <> 0)) l.

(** Every block's size field is a multiple of the alignment. *)
Definition sizes_aligned (s : state) : Prop :=
  exists l, chain (mem_of s) (head s) l /\
    Forall (fun a => get_size (mem_of s) a mod ALIGNMENT = 0) l.

(** [ptr] is the payload address of a used block of the chain: a pointer
    returned by an allocation call and not released since. *)
Definition live (s : state) (ptr : Z) : Prop :=
  exists l, chain (mem_of s) (head s) l /\
    In (ptr - BLOCK_SIZE) l /\ get_free (mem_of s) (ptr - BLOCK_SIZE) = 0.

(** Largest request for which neither [ALIGN] nor [BLOCK_SIZE + size]
    leaves the range of a positive [intptr_t] increment. *)
Definition MAX_REQUEST : Z := HALF - 32.

(** The caller's obligations: pointers are [NULL] or live, sizes are at
    most [MAX_REQUEST]. *)
Definition valid_call (s : state) (c : call) : Prop :=
  match c with
  | Malloc size => 0 <= size <= MAX_REQUEST
  | Free ptr => ptr = NULL \/ live s ptr
  | Realloc ptr size => (ptr = NULL \/ live s ptr) /\ 0 <= size <= MAX_REQUEST
  end.

(* ================================================================== *)
(** ** The block chain as a list of blocks *)

Record blk : Type := mkblk { baddr : Z; bsize : Z; bfree : bool }.

Definition first_addr (l : list blk) (t : Z) : Z :=
  match l with
  | [] => t
  | b :: _ => baddr b
  end.

(** The header stored at [baddr b] holds [b]'s fields and the link [nxt]. *)
Definition hdr_is (m : mem) (b : blk) (nxt : Z) : Prop :=
  get_size m (baddr b) = bsize b /\
  get_free m (baddr b) = Z.b2z (bfree b) /\
  get_next m (baddr b) = nxt.

(** The memory holds the blocks of [l], linked in order, the last one
    linked to [t]. *)
Fixpoint repr (m : mem) (l : list blk) (t : Z) : Prop :=
  match l with
  | [] => True
  | b :: l' => hdr_is m b (first_addr l' t) /\ repr m l' t
  end.

(** The blocks of [l] tile the address range from [a] to [e]. *)
Fixpoint layout (a : Z) (l : list blk) (e : Z) : Prop :=
  match l with
  | [] => a = e
  | b :: l' =>
      baddr b = a /\ 0 <= bsize b /\ layout (a + BLOCK_SIZE + bsize b) l' e
  end.

(** Well-formed heap: the chain from [head] is a list of blocks tiling the
    arena up to the break, and the break is a user-space address. *)
Definition wf_with (l : list blk) (s : state) : Prop :=
  0 < brk_lo s /\ brk s <= brk_hi s /\ brk_hi s < HALF /\
  head s = first_addr l NULL /\
  brk_lo s <= first_addr l (brk s) /\
  layout (first_addr l (brk s)) l (brk s) /\
  repr (mem_of s) l NULL.

Definition wf (s : state) : Prop := exists l, wf_with l s.

(** The list-level effect of one merge and of the whole coalescing pass
    started at block [cur] followed by [l]. *)
Definition merge (b c : blk) : blk :=
  mkblk (baddr b) (bsize b + BLOCK_SIZE + bsize c) (bfree b).

Fixpoint coal (cur : blk) (l : list blk) : list blk :=
  match l with
  | [] => [cur]
  | c :: l' =>
      if bfree cur && bfree c then coal (merge cur c) l'
      else cur :: coal c l'
  end.

Definition coal_list (l : list blk) : list blk :=
  match l with
  | [] => []
  | b :: l' => coal b l'
  end.

(** A block satisfies a request. *)
Definition fits (size : Z) (b : blk) : bool :=
  bfree b && (size <=? bsize b).

(** [m'] and [m] hold the same bytes outside [lo, hi). *)
Definition same_out (lo hi : Z) (m m' : mem) : Prop :=
  forall x, x < lo \/ hi <= x -> m' x = m x.

(** No two neighbours of a list of blocks are both free. *)
Fixpoint no_adj_free (l : list blk) : Prop :=
  match l with
  | b :: tl => match tl with
               | c :: _ => bfree b && bfree c = false /\ no_adj_free tl
               | [] => True
               end
  | [] => True
  end.


(** Address of the last block of [l], [d] when there is none. *)
Definition last_addr (l : list blk) (d : Z) : Z := last (map baddr l) d.

(** What a successful [my_malloc] establishes. *)
Definition malloc_post (l : list blk) (s : state) (size r : Z) (s' : state)
  : Prop :=
  exists l' nb,
    wf_with l' s' /\ In nb l' /\ r = baddr nb + BLOCK_SIZE /\
    bfree nb = false /\ ALIGN size <= bsize nb /\
    (length l' <= length l + 1)%nat /\
    (forall b, In b l -> bfree b = false -> In b l' /\ baddr b <> baddr nb) /\
    (forall b x, In b l -> bfree b = false ->
       baddr b + BLOCK_SIZE <= x < baddr b + BLOCK_SIZE + bsize b ->
       mem_of s' x = mem_of s x).

(* ================================================================== *)
(** ** Executable checks on concrete heaps *)

(** The chain from [h], computed with fuel. *)
Fixpoint walk (fuel : nat) (m : mem) (h : Z) : option (list Z) :=
  match fuel with
  | O => None
  | S fuel' =>
      if h =? NULL then Some []
      else match walk fuel' m (get_next m h) with
           | Some l => Some (h :: l)
           | None => None
           end
  end.

Fixpoint adjacentb (P : Z -> Z -> bool) (l : list Z) : bool :=
  match l with
  | a :: tl => match tl with
               | a' :: _ => P a a' && adjacentb P tl
               | [] => true
               end
  | [] => true
  end.

(** The blocks read from memory at the addresses [la]. *)
Definition blocks_of (m : mem) (la : list Z) : list blk :=
  map (fun a => mkblk a (get_size m a) (negb (get_free m a =? 0))) la.

Fixpoint layoutb (a : Z) (l : list blk) (e : Z) : bool :=
  match l with
  | [] => a =? e
  | b :: l' =>
      (baddr b =? a) && (0 <=? bsize b)
      && layoutb (a + BLOCK_SIZE + bsize b) l' e
  end.

Definition wf_check (fuel : nat) (s : state) : bool :=
  match walk fuel (mem_of s) (head s) with
  | None => false
  | Some la =>
      let l := blocks_of (mem_of s) la in
      (0 <? brk_lo s) && (brk s <=? brk_hi s) && (brk_hi s <? HALF)
      && (brk_lo s <=? first_addr l (brk s))
      && layoutb (first_addr l (brk s)) l (brk s)
      && forallb (fun a => get_free (mem_of s) a <? 2) la
  end.

Definition ledger_check (fuel : nat) (s : state) : bool :=
  match walk fuel (mem_of s) (head s) with
  | None => false
  | Some la =>
      adjacentb (fun a a' =>
                   (a <? a') && (a' =? a + BLOCK_SIZE + get_size (mem_of s) a)) la
  end.

Definition live_check (fuel : nat) (s : state) (ptr : Z) : bool :=
  match walk fuel (mem_of s) (head s) with
  | None => false
  | Some la =>
      existsb (Z.eqb (ptr - BLOCK_SIZE)) la
      && (get_free (mem_of s) (ptr - BLOCK_SIZE) =? 0)
  end.

(** The state of a result of the API, [d] when the call ran out of fuel. *)
Definition state_after (r : option (Z * state)) (d : state) : state :=
  match r with
  | Some (_, s) => s
  | None => d
  end.

Definition ptr_of (r : option (Z * state)) : Z :=
  match r with
  | Some (p, _) => p
  | None => NULL
  end.

(* ================================================================== *)
(** ** Vocabulary of the error-handling properties *)

(** The operating system refuses to move the break by [n]. *)
Definition sbrk_refuses (n : Z) (s : state) : Prop :=
  sbrk n s = (SBRK_FAILED, s).

(** [my_malloc(size)] gets as far as asking for more memory: the request is
    not rejected, and the heap is empty or the search finds no block. *)
Definition malloc_extends (fuel : nat) (size : Z) (s : state) : Prop :=
  0 < size /\
  (head s = NULL \/
   exists last,
     find_free_block_first_fit fuel s (head s) (ALIGN size) = Some (NULL, last)).

(* ================================================================== *)
(** ** Vocabulary of the search properties *)

(** The block at [a] is free and large enough for [size]. *)
Definition fits_at (m : mem) (size a : Z) : bool :=
  negb (get_free m a =? 0) && (size <=? get_size m a).

(** [b] is the best fit of the chain [la]: a block that satisfies the
    request, strictly smaller than every satisfying block before it and at
    most as large as every satisfying block after it. *)
Definition is_best_fit (m : mem) (size : Z) (la : list Z) (b : Z) : Prop :=
  exists l1 l2, la = l1 ++ b :: l2 /\ fits_at m size b = true /\
    (forall a, In a l1 -> fits_at m size a = true ->
               get_size m b < get_size m a) /\
    (forall a, In a l2 -> fits_at m size a = true ->
               get_size m b <= get_size m a).

(** What [find_free_block_best_fit] has established after the blocks [l]:
    nothing fits and [last] is the final node of [l], or [best] is the best
    fit of [l] and [last] is [best] itself. *)
Definition best_fit_result (m : mem) (size : Z) (l : list Z) (best last : Z)
  : Prop :=
  (best = NULL /\ (forall a, In a l -> fits_at m size a = false) /\
   last = List.last l NULL) \/
  (best <> NULL /\ is_best_fit m size l best /\ last = best).

(* ================================================================== *)
(** ** Concrete heaps *)

(** An empty heap whose break starts at 4096 and may grow to 1 MiB, and
    the heap of the demonstration program after its three allocations of
    40, 80 and 20 bytes (payloads at 4120, 4184 and 4288). *)
Definition heap0 : state := empty_heap 4096 1048576.
Definition heap1 : state := state_after (run 8 (Malloc 40) heap0) heap0.
Definition heap2 : state := state_after (run 8 (Malloc 80) heap1) heap1.
Definition heap3 : state := state_after (run 8 (Malloc 20) heap2) heap2.

(** The demonstration program continued: release of the second block,
    allocation of 60 bytes, release of the first and third block. *)
Definition heap4 : state := state_after (run 8 (Free 4184) heap3) heap3.
Definition heap5 : state := state_after (run 8 (Malloc 60) heap4) heap4.
Definition heap6 : state := state_after (run 8 (Free 4120) heap5) heap5.
Definition heap7 : state := state_after (run 8 (Free 4288) heap6) heap6.

(** A heap with one used block of 40 bytes whose break cannot move. *)
Definition tight0 : state := empty_heap 4096 4160.
Definition tight1 : state := state_after (run 8 (Malloc 40) tight0) tight0.

(** A free block of 16 bytes followed by a used block of 8 bytes. *)
Definition pair1 : state := state_after (run 8 (Malloc 16) heap0) heap0.
Definition pair2 : state := state_after (run 8 (Malloc 8) pair1) pair1.
Definition pair3 : state := state_after (run 8 (Free 4120) pair2) pair2.

(** A free block of 8 bytes at 4096, a used block of 24 bytes at 4128 and a
    used block of 80 bytes at 4176 (payload 4200). *)
Definition trio1 : state := state_after (run 8 (Malloc 8) heap0) heap0.
Definition trio2 : state := state_after (run 8 (Malloc 24) trio1) trio1.
Definition trio3 : state := state_after (run 8 (Malloc 80) trio2) trio2.
Definition trio4 : state := state_after (run 8 (Free 4120) trio3) trio3.

(** One used block of 80 bytes, then shrunk in place to 5 bytes. *)
Definition shrink1 : state := state_after (run 8 (Malloc 80) heap0) heap0.
Definition shrink2 : state := state_after (run 8 (Realloc 4120 5) shrink1) shrink1.
Definition shrink3 : state := state_after (run 8 (Malloc 8) shrink2) shrink2.

(** One block requested with a size that wraps, then a second block. *)
Definition huge1 : state := state_after (run 8 (Malloc (WORD - 8)) heap0) heap0.
Definition huge2 : state := state_after (run 8 (Malloc 8) huge1) huge1.



(* ================================================================== *)
(** ** Reachable heaps *)

(** The heaps reached from an empty heap, whose break is a user-space
    address, by calls of the API within the caller's obligations; between
    calls the operating system may change how far the break can move. *)
Inductive reachable : state -> Prop :=
| reach_empty b0 hi :
    0 < b0 <= hi -> hi < HALF -> reachable (empty_heap b0 hi)
| reach_call s c fuel r s' :
    reachable s -> valid_call s c -> run fuel c s = Some (r, s') ->
    reachable s'
| reach_limit s hi :
    reachable s -> brk s <= hi -> hi < HALF -> reachable (with_limit s hi).





(* ================================================================== *)
(** ** Vocabulary of the further properties *)

(** The sizes of a call are within [MAX_REQUEST]. *)
Definition sized (c : call) : Prop :=
  match c with
  | Malloc size => 0 <= size <= MAX_REQUEST
  | Free _ => True
  | Realloc _ size => 0 <= size <= MAX_REQUEST
  end.

(** What [find_free_block_first_fit] has established on the chain [la]
    when [*last] started as [init]: no block fits and [last] is the final
    node, or [best] is the first block that fits and [last] is the node
    before it ([init] when there is none). *)
Definition first_fit_result (m : mem) (size : Z) (la : list Z)
    (init best last : Z) : Prop :=
  (best = NULL /\ (forall a, In a la -> fits_at m size a = false) /\
   last = List.last la init) \/
  (exists l1 l2, la = l1 ++ best :: l2 /\
     (forall a, In a l1 -> fits_at m size a = false) /\
     fits_at m size best = true /\ last = List.last l1 init).

(** The lines of the memory map of the block list [l] whose last block is
    linked to [t]. *)
Fixpoint lines_of (l : list blk) (t : Z) : list (bool * Z * Z) :=
  match l with
  | [] => []
  | b :: l' => (bfree b, bsize b, first_addr l' t) :: lines_of l' t
  end.

(** Bytes accounted for by the lines of a memory map: one header and the
    payload for each block. *)
Definition map_bytes (lines : list (bool * Z * Z)) : Z :=
  fold_right (fun ln acc => BLOCK_SIZE + snd (fst ln) + acc) 0 lines.

(** [ptr] is the payload address of a free block of the chain: a pointer
    that has been released already. *)
Definition released (s : state) (ptr : Z) : Prop :=
  exists l, chain (mem_of s) (head s) l /\
    In (ptr - BLOCK_SIZE) l /\ get_free (mem_of s) (ptr - BLOCK_SIZE) <> 0.

(** Every block of the list has a size that is a multiple of the
    alignment. *)
Definition sizes_multiple (l : list blk) : Prop :=
  Forall (fun b => bsize b mod ALIGNMENT = 0) l.

(** The break and every size field are multiples of the alignment. *)
Definition aligned_heap (s : state) : Prop :=
  brk s mod ALIGNMENT = 0 /\ sizes_aligned s.

(** A call whose size reaches [split_block] as it is, without [ALIGN],
    passes a multiple of the alignment. *)
Definition aligned_call (c : call) : Prop :=
  match c with
  | Malloc _ => True
  | Free _ => True
  | Realloc _ size => size mod ALIGNMENT = 0
  end.
(* ================================================================== *)
(** ** Word arithmetic *)

Lemma wrap_small x : 0 <= x < WORD -> wrap x = x.
Proof. intros H. unfold wrap. apply Z.mod_small. exact H. Qed.

Lemma wrap_range x : 0 <= wrap x < WORD.
Proof. unfold wrap. apply Z.mod_pos_bound. unfold WORD. lia. Qed.

Lemma signed_small x : 0 <= x < HALF -> signed x = x.
Proof.
  intros H. unfold signed. destruct (x <? HALF) eqn:E; [reflexivity|].
  apply Z.ltb_ge in E. lia.
Qed.

(** Masking with [~7] clears the three low bits. *)
Lemma land_mask x : 0 <= x < WORD ->
  Z.land x (wrap (Z.lnot (ALIGNMENT - 1))) = 8 * (x / 8).
Proof.
  intros Hx.
  assert (Hm : wrap (Z.lnot (ALIGNMENT - 1)) = Z.land (Z.lnot (Z.ones 3)) (Z.ones 64)).
  { rewrite Z.land_ones by lia. reflexivity. }
  rewrite Hm, Z.land_assoc, <- Z.ldiff_land, Z.ldiff_ones_r by lia.
  rewrite Z.land_ones by lia.
  rewrite Z.shiftl_mul_pow2, Z.shiftr_div_pow2 by lia.
  change (2 ^ 3) with 8. change (2 ^ 64) with WORD.
  rewrite Z.mod_small; [lia|].
  assert (0 <= x / 8 * 8 <= x); [|lia].
  pose proof (Z.mul_div_le x 8). pose proof (Z.div_pos x 8). lia.
Qed.

Lemma ALIGN_eq size : 0 <= size <= WORD - 8 ->
  ALIGN size = 8 * ((size + 7) / 8).
Proof.
  intros H. unfold ALIGN.
  rewrite (wrap_small (size + (ALIGNMENT - 1))) by (unfold ALIGNMENT, WORD in *; lia).
  rewrite land_mask by (unfold ALIGNMENT, WORD in *; lia).
  reflexivity.
Qed.

Lemma ALIGN_bounds size : 0 <= size <= WORD - 8 ->
  size <= ALIGN size < size + 8 /\ ALIGN size mod 8 = 0.
Proof.
  intros H. rewrite ALIGN_eq by exact H.
  pose proof (Z.div_mod (size + 7) 8).
  pose proof (Z.mod_pos_bound (size + 7) 8).
  split; [lia|].
  rewrite Z.mul_comm. apply Z.mod_mul. lia.
Qed.

(** The result of [ALIGN] is a multiple of 8 for every [size_t] input, also
    when the addition wraps. *)
Lemma ALIGN_multiple size : ALIGN size mod 8 = 0.
Proof.
  unfold ALIGN. rewrite land_mask by apply wrap_range.
  rewrite Z.mul_comm. apply Z.mod_mul. lia.
Qed.

(* ================================================================== *)
(** ** Loads and stores *)

Lemma upd_same m a b : upd m a b a = b.
Proof. unfold upd. rewrite Z.eqb_refl. reflexivity. Qed.

Lemma upd_other m a b x : x <> a -> upd m a b x = m x.
Proof. intros H. unfold upd. apply Z.eqb_neq in H. rewrite H. reflexivity. Qed.

Lemma store_outside n : forall m a v x,
  x < a \/ a + Z.of_nat n <= x -> store n m a v x = m x.
Proof.
  induction n as [|n IH]; intros m a v x H; [reflexivity|].
  cbn [store]. rewrite IH by lia. apply upd_other. lia.
Qed.

Lemma load_ext n : forall m m' a,
  (forall x, a <= x < a + Z.of_nat n -> m' x = m x) ->
  load n m' a = load n m a.
Proof.
  induction n as [|n IH]; intros m m' a H; [reflexivity|].
  cbn [load]. rewrite H by lia. rewrite (IH m m' (a + 1)); [reflexivity|].
  intros x Hx. apply H. lia.
Qed.

Lemma load_range n : forall m a, 0 <= load n m a < 256 ^ Z.of_nat n.
Proof.
  induction n as [|n IH]; intros m a.
  - cbn. lia.
  - cbn [load]. rewrite Nat2Z.inj_succ, Z.pow_succ_r by lia.
    specialize (IH m (a + 1)). pose proof (Z.mod_pos_bound (m a) 256). nia.
Qed.

Lemma load_store_same n : forall m a v,
  load n (store n m a v) a = v mod 256 ^ Z.of_nat n.
Proof.
  induction n as [|n IH]; intros m a v.
  - cbn. symmetry. apply Z.mod_1_r.
  - cbn [load store]. rewrite IH.
    rewrite store_outside by lia. rewrite upd_same.
    rewrite Nat2Z.inj_succ, Z.pow_succ_r by lia.
    rewrite (Z.rem_mul_r v 256) by (try apply Z.pow_pos_nonneg; lia).
    rewrite Z.mod_mod by lia. reflexivity.
Qed.

Lemma load_store_other k n m a v b :
  b + Z.of_nat k <= a \/ a + Z.of_nat n <= b ->
  load k (store n m a v) b = load k m b.
Proof.
  intros H. apply load_ext. intros x Hx. apply store_outside. lia.
Qed.

Lemma load8_store8 m a v : 0 <= v < WORD -> load 8 (store 8 m a v) a = v.
Proof.
  intros H. rewrite load_store_same. apply Z.mod_small.
  change (256 ^ Z.of_nat 8) with WORD. exact H.
Qed.

Lemma load4_store4 m a v : 0 <= v < 2 -> load 4 (store 4 m a v) a = v.
Proof.
  intros H. rewrite load_store_same. apply Z.mod_small.
  change (256 ^ Z.of_nat 4) with 4294967296. lia.
Qed.

Lemma load8_range m a : 0 <= load 8 m a < WORD.
Proof. apply (load_range 8). Qed.

Lemma get_size_range m b : 0 <= get_size m b < WORD.
Proof. unfold get_size. apply (load_range 8). Qed.

Lemma get_next_range m b : 0 <= get_next m b < WORD.
Proof. unfold get_next. apply (load_range 8). Qed.

(** Unfolds the field accessors and rewrites loads over stores; the side
    conditions are linear facts about addresses. *)
Ltac fields :=
  unfold get_size, get_free, get_next, set_size, set_free, set_next,
         OFF_SIZE, OFF_FREE, OFF_NEXT in *.

Ltac consts :=
  unfold MAX_REQUEST, SIZE_MAX, BLOCK_SIZE, ALIGNMENT, NULL, HALF, WORD in *.

Ltac memsimpl :=
  repeat first
    [ rewrite load8_store8 by first [apply load8_range | consts; lia]
    | rewrite load4_store4 by lia
    | rewrite load_store_other by (consts; lia) ].

(* ================================================================== *)
(** ** Frames: what a write leaves alone *)


Lemma same_out_refl lo hi m : same_out lo hi m m.
Proof. intros x _. reflexivity. Qed.

Lemma same_out_trans lo hi m1 m2 m3 :
  same_out lo hi m1 m2 -> same_out lo hi m2 m3 -> same_out lo hi m1 m3.
Proof. intros H1 H2 x Hx. rewrite H2, H1 by exact Hx. reflexivity. Qed.

Lemma same_out_weaken lo hi lo' hi' m m' :
  lo' <= lo -> hi <= hi' -> same_out lo hi m m' -> same_out lo' hi' m m'.
Proof. intros H1 H2 H x Hx. apply H. lia. Qed.

Lemma same_out_store n m a v lo hi :
  lo <= a -> a + Z.of_nat n <= hi -> same_out lo hi m (store n m a v).
Proof. intros H1 H2 x Hx. apply store_outside. lia. Qed.

Lemma same_out_set_size m b v : same_out b (b + 8) m (set_size m b v).
Proof. fields. apply same_out_store; lia. Qed.

Lemma same_out_set_free m b v : same_out (b + 8) (b + 12) m (set_free m b v).
Proof. fields. apply same_out_store; lia. Qed.

Lemma same_out_set_next m b v : same_out (b + 16) (b + 24) m (set_next m b v).
Proof. fields. apply same_out_store; lia. Qed.

Lemma same_out_memcpy m dst src n :
  same_out dst (dst + n) m (memcpy m dst src n).
Proof.
  intros x Hx. unfold memcpy.
  destruct ((dst <=? x) && (x <? dst + n)) eqn:E; [|reflexivity].
  apply andb_true_iff in E. destruct E as [E1 E2].
  apply Z.leb_le in E1. apply Z.ltb_lt in E2. lia.
Qed.

Lemma hdr_is_frame m m' b nxt :
  (forall x, baddr b <= x < baddr b + BLOCK_SIZE -> m' x = m x) ->
  hdr_is m b nxt -> hdr_is m' b nxt.
Proof.
  intros H (Hs & Hf & Hn). unfold hdr_is, BLOCK_SIZE in *. fields.
  rewrite <- Hs, <- Hf, <- Hn.
  repeat split; apply load_ext; intros x Hx; apply H; lia.
Qed.

(* ================================================================== *)
(** ** Lists of blocks *)

Lemma first_addr_app l1 l2 t :
  first_addr (l1 ++ l2) t = first_addr l1 (first_addr l2 t).
Proof. destruct l1; reflexivity. Qed.

Lemma repr_app m l1 : forall l2 t,
  repr m (l1 ++ l2) t <-> repr m l1 (first_addr l2 t) /\ repr m l2 t.
Proof.
  induction l1 as [|b l1 IH]; intros l2 t; cbn [app repr].
  - tauto.
  - rewrite IH, first_addr_app. tauto.
Qed.

Lemma layout_app l1 : forall a l2 e,
  layout a (l1 ++ l2) e <-> exists c, layout a l1 c /\ layout c l2 e.
Proof.
  induction l1 as [|b l1 IH]; intros a l2 e; cbn [app layout].
  - split.
    + intros H. exists a. split; [reflexivity|exact H].
    + intros (c & -> & H). exact H.
  - rewrite IH. split.
    + intros (H1 & H2 & c & H3 & H4). exists c. tauto.
    + intros (c & (H1 & H2 & H3) & H4). repeat split; try assumption.
      exists c. tauto.
Qed.

Lemma layout_le l : forall a e, layout a l e -> a <= e.
Proof.
  induction l as [|b l IH]; intros a e H; cbn [layout] in H.
  - lia.
  - destruct H as (_ & Hs & H). apply IH in H. unfold BLOCK_SIZE in *. lia.
Qed.

Lemma layout_In l : forall a e b,
  layout a l e -> In b l ->
  a <= baddr b /\ 0 <= bsize b /\ baddr b + BLOCK_SIZE + bsize b <= e.
Proof.
  induction l as [|c l IH]; intros a e b H Hin; [contradiction|].
  cbn [layout] in H. destruct H as (Ha & Hs & H).
  destruct Hin as [->|Hin].
  - apply layout_le in H. lia.
  - destruct (IH _ _ _ H Hin) as (H1 & H2 & H3). unfold BLOCK_SIZE in *. lia.
Qed.

Lemma layout_first l a e t : layout a l e -> l <> [] -> first_addr l t = a.
Proof. destruct l; [congruence|]. cbn. tauto. Qed.

Lemma layout_fun l : forall a e e', layout a l e -> layout a l e' -> e = e'.
Proof.
  induction l as [|b l IH]; intros a e e' H H'; cbn [layout] in *.
  - congruence.
  - eapply IH; [apply H|apply H'].
Qed.

(** Bytes inside the tiled range are all that [repr] reads. *)
Lemma repr_frame l : forall m m' a e t,
  layout a l e -> (forall x, a <= x < e -> m' x = m x) ->
  repr m l t -> repr m' l t.
Proof.
  induction l as [|b l IH]; intros m m' a e t Hl Hsame Hr; [exact I|].
  cbn [repr layout] in *. destruct Hl as (Ha & Hs & Hl). destruct Hr as (Hh & Hr).
  pose proof (layout_le _ _ _ Hl) as Hle. unfold BLOCK_SIZE in *.
  split.
  - eapply hdr_is_frame; [|exact Hh]. unfold BLOCK_SIZE.
    intros x Hx. apply Hsame. lia.
  - eapply IH; [exact Hl| |exact Hr]. intros x Hx. apply Hsame. lia.
Qed.

Lemma repr_same_out l m m' a e lo hi t :
  layout a l e -> same_out lo hi m m' -> (e <= lo \/ hi <= a) ->
  repr m l t -> repr m' l t.
Proof.
  intros Hl Hs Hd. eapply repr_frame; [exact Hl|].
  intros x Hx. apply Hs. lia.
Qed.

(** Replacing a segment of the chain: the memory changed only inside the
    segment's address range and holds the new segment there. *)
Lemma seg_replace m m' a e t l1 mid mid' l2 A B :
  layout a l1 A -> layout A mid B -> layout B l2 e ->
  layout A mid' B -> mid <> [] -> mid' <> [] ->
  same_out A B m m' ->
  repr m (l1 ++ mid ++ l2) t ->
  repr m' mid' (first_addr l2 t) ->
  repr m' (l1 ++ mid' ++ l2) t /\ layout a (l1 ++ mid' ++ l2) e.
Proof.
  intros H1 Hm H2 Hm' Hne Hne' Hs Hr Hr'.
  apply repr_app in Hr. destruct Hr as (Hr1 & Hr).
  apply repr_app in Hr. destruct Hr as (_ & Hr2).
  rewrite first_addr_app in Hr1.
  rewrite (layout_first mid A B _ Hm Hne) in Hr1.
  split.
  - apply repr_app. split.
    + rewrite first_addr_app, (layout_first mid' A B _ Hm' Hne').
      eapply repr_same_out; [exact H1|exact Hs|lia|exact Hr1].
    + apply repr_app. split; [exact Hr'|].
      eapply repr_same_out; [exact H2|exact Hs|lia|exact Hr2].
  - apply layout_app. exists A. split; [exact H1|].
    apply layout_app. exists B. split; assumption.
Qed.

(* ================================================================== *)
(** ** From the list of blocks to the chain in memory *)

Lemma chain_fun m : forall h l1 l2, chain m h l1 -> chain m h l2 -> l1 = l2.
Proof.
  intros h l1 l2 H1. revert l2.
  induction H1 as [|a l Ha H IH]; intros l2 H2; inversion H2; subst;
    try congruence.
  f_equal. apply IH. assumption.
Qed.

Lemma repr_chain m l : forall a e,
  0 < a -> layout a l e -> repr m l NULL ->
  chain m (first_addr l NULL) (map baddr l).
Proof.
  induction l as [|b l IH]; intros a e Ha Hl Hr; cbn [map first_addr].
  - constructor.
  - cbn [layout repr] in *. destruct Hl as (Hb & Hs & Hl).
    destruct Hr as ((_ & _ & Hn) & Hr).
    constructor; [unfold NULL; lia|].
    rewrite Hn. eapply IH; [|exact Hl|exact Hr]. unfold BLOCK_SIZE. lia.
Qed.

Lemma wf_chain l s : wf_with l s -> chain (mem_of s) (head s) (map baddr l).
Proof.
  intros (H1 & H2 & H3 & H4 & H5 & H6 & H7). rewrite H4.
  eapply repr_chain; [|exact H6|exact H7]. lia.
Qed.

Lemma repr_In m l : forall t b, repr m l t -> In b l ->
  get_size m (baddr b) = bsize b /\ get_free m (baddr b) = Z.b2z (bfree b).
Proof.
  induction l as [|c l IH]; intros t b Hr Hin; [contradiction|].
  cbn [repr] in Hr. destruct Hr as ((Hs & Hf & _) & Hr).
  destruct Hin as [->|Hin]; [tauto|]. eapply IH; eassumption.
Qed.

(** Blocks of a tiling at the same address are the same list position:
    addresses strictly increase along the list. *)
Lemma layout_addr_inj l : forall a e b c,
  layout a l e -> In b l -> In c l -> baddr b = baddr c -> b = c.
Proof.
  induction l as [|d l IH]; intros a e b c Hl Hb Hc Heq; [contradiction|].
  cbn [layout] in *. destruct Hl as (Hd & Hs & Hl).
  destruct Hb as [->|Hb]; destruct Hc as [->|Hc].
  - reflexivity.
  - pose proof (layout_In _ _ _ _ Hl Hc). unfold BLOCK_SIZE in *. lia.
  - pose proof (layout_In _ _ _ _ Hl Hb). unfold BLOCK_SIZE in *. lia.
  - eapply IH; eassumption.
Qed.

Lemma layout_disjoint l : forall a e b c,
  layout a l e -> In b l -> In c l -> baddr b <> baddr c ->
  baddr b + BLOCK_SIZE + bsize b <= baddr c \/
  baddr c + BLOCK_SIZE + bsize c <= baddr b.
Proof.
  induction l as [|d l IH]; intros a e b c Hl Hb Hc Hne; [contradiction|].
  cbn [layout] in Hl. destruct Hl as (Hd & Hs & Hl).
  destruct Hb as [->|Hb]; destruct Hc as [->|Hc].
  - congruence.
  - pose proof (layout_In _ _ _ _ Hl Hc). lia.
  - pose proof (layout_In _ _ _ _ Hl Hb). lia.
  - eapply IH; eassumption.
Qed.

(* ================================================================== *)
(** ** The invariants read back from memory *)

Lemma layout_adjacent m l : forall a e t,
  layout a l e -> repr m l t ->
  adjacent (fun x x' => x < x' /\ x' = x + BLOCK_SIZE + get_size m x)
           (map baddr l).
Proof.
  induction l as [|b l IH]; intros a e t Hl Hr; [exact I|].
  cbn [layout repr] in *. destruct Hl as (Hb & Hs & Hl). destruct Hr as (Hh & Hr).
  destruct l as [|c l]; [exact I|].
  cbn [map adjacent]. split.
  - destruct Hh as (Hsz & _). rewrite Hsz.
    cbn [layout] in Hl. unfold BLOCK_SIZE in *. lia.
  - exact (IH _ _ _ Hl Hr).
Qed.

Lemma wf_ledger l s : wf_with l s -> ledger_inv s.
Proof.
  intros H. exists (map baddr l). split; [apply (wf_chain _ _ H)|].
  destruct H as (_ & _ & _ & _ & _ & Hl & Hr).
  eapply layout_adjacent; eassumption.
Qed.

Lemma b2z_nonzero f : negb (Z.b2z f =? 0) = f.
Proof. destruct f; reflexivity. Qed.

Lemma repr_no_adj_free m l : forall t,
  repr m l t -> no_adj_free l ->
  adjacent (fun x x' => ~ (get_free m x <> 0 /\ get_free m x' <> 0))
           (map baddr l).
Proof.
  induction l as [|b l IH]; intros t Hr Hn; [exact I|].
  destruct l as [|c l]; [exact I|].
  cbn [repr] in Hr. destruct Hr as ((_ & Hfb & _) & Hr).
  cbn [no_adj_free] in Hn. destruct Hn as (Hbc & Hn).
  cbn [map adjacent]. split.
  - pose proof Hr as ((_ & Hfc & _) & _).
    rewrite Hfb, Hfc. destruct (bfree b), (bfree c); cbn in *; try discriminate; lia.
  - exact (IH _ Hr Hn).
Qed.

(* ================================================================== *)
(** ** First fit on a well-formed chain *)

Lemma guard_fits m b nxt size :
  hdr_is m b nxt ->
  negb (get_free m (baddr b) =? 0) && (size <=? get_size m (baddr b))
  = fits size b.
Proof.
  intros (Hs & Hf & _). rewrite Hs, Hf, b2z_nonzero. reflexivity.
Qed.

Lemma last_addr_cons b l d : last_addr (b :: l) d = last_addr l (baddr b).
Proof.
  unfold last_addr. cbn [map]. revert b d.
  induction l as [|c l IH]; intros b d; [reflexivity|].
  cbn [map]. change (last (baddr b :: baddr c :: map baddr l) d)
    with (last (baddr c :: map baddr l) d).
  rewrite IH. symmetry. apply IH.
Qed.

Lemma last_addr_app l b d : last_addr (l ++ [b]) d = baddr b.
Proof.
  revert d. induction l as [|c l IH]; intros d; [reflexivity|].
  cbn [app]. rewrite last_addr_cons. apply IH.
Qed.

Lemma first_fit_miss m size l : forall fuel a e last,
  0 < a -> layout a l e -> repr m l NULL ->
  (forall b, In b l -> fits size b = false) ->
  (length l < fuel)%nat ->
  first_fit_loop fuel m size (first_addr l NULL) last
  = Some (NULL, last_addr l last).
Proof.
  induction l as [|b l IH]; intros fuel a e last Ha Hl Hr Hmiss Hfuel.
  - destruct fuel; [cbn in Hfuel; lia|]. reflexivity.
  - destruct fuel; [cbn in Hfuel; lia|].
    cbn [layout repr first_addr] in *.
    destruct Hl as (Hb & Hs & Hl). destruct Hr as (Hh & Hr).
    cbn [first_fit_loop]. rewrite (guard_fits _ _ _ _ Hh).
    rewrite (Hmiss b (or_introl eq_refl)).
    replace (baddr b =? NULL) with false
      by (symmetry; apply Z.eqb_neq; unfold NULL; lia).
    cbn [negb andb]. destruct Hh as (_ & _ & ->).
    rewrite last_addr_cons.
    eapply IH; [|exact Hl|exact Hr| |].
    + unfold BLOCK_SIZE. lia.
    + intros c Hc. apply Hmiss. right. exact Hc.
    + cbn in Hfuel. lia.
Qed.

Lemma first_fit_hit m size l1 : forall b l2 fuel a e t last,
  0 < a -> layout a (l1 ++ b :: l2) e -> repr m (l1 ++ b :: l2) t ->
  (forall c, In c l1 -> fits size c = false) -> fits size b = true ->
  (length l1 < fuel)%nat ->
  first_fit_loop fuel m size a last = Some (baddr b, last_addr l1 last).
Proof.
  induction l1 as [|c l1 IH]; intros b l2 fuel a e t last Ha Hl Hr Hmiss Hfit Hfuel.
  - destruct fuel; [cbn in Hfuel; lia|].
    cbn [app layout repr] in *.
    destruct Hl as (Hb & Hs & Hl). destruct Hr as (Hh & Hr).
    cbn [first_fit_loop]. subst a. rewrite (guard_fits _ _ _ _ Hh), Hfit.
    rewrite andb_false_r. reflexivity.
  - destruct fuel; [cbn in Hfuel; lia|].
    cbn [app layout repr] in *.
    destruct Hl as (Hb & Hs & Hl). destruct Hr as (Hh & Hr).
    cbn [first_fit_loop]. subst a. rewrite (guard_fits _ _ _ _ Hh).
    rewrite (Hmiss c (or_introl eq_refl)).
    replace (baddr c =? NULL) with false
      by (symmetry; apply Z.eqb_neq; unfold NULL; lia).
    cbn [negb andb]. destruct Hh as (_ & _ & ->).
    rewrite first_addr_app. cbn [first_addr].
    rewrite last_addr_cons.
    assert (Hfa : first_addr l1 (baddr b) = baddr c + BLOCK_SIZE + bsize c).
    { destruct l1; cbn [app layout first_addr] in *; tauto. }
    rewrite Hfa.
    eapply IH; [|exact Hl|exact Hr| |exact Hfit|].
    + unfold BLOCK_SIZE. lia.
    + intros d Hd. apply Hmiss. right. exact Hd.
    + cbn in Hfuel. lia.
Qed.

(** Either no block fits, or the list splits at the first block that does. *)
Lemma first_fit_split size l :
  (forall b, In b l -> fits size b = false) \/
  exists l1 b l2, l = l1 ++ b :: l2 /\
    (forall c, In c l1 -> fits size c = false) /\ fits size b = true.
Proof.
  induction l as [|b l IH].
  - left. intros b [].
  - destruct (fits size b) eqn:E.
    + right. exists [], b, l. repeat split; [intros c []|exact E].
    + destruct IH as [IH|(l1 & c & l2 & -> & H1 & H2)].
      * left. intros c [->|Hc]; [exact E|apply IH; exact Hc].
      * right. exists (b :: l1), c, l2. repeat split; [|exact H2].
        intros d [->|Hd]; [exact E|apply H1; exact Hd].
Qed.

(* ================================================================== *)
(** ** Splitting a block *)

Lemma split_block_splits m b nxt size :
  hdr_is m b nxt -> 0 <= baddr b -> 0 <= size ->
  size + BLOCK_SIZE + ALIGNMENT <= bsize b ->
  baddr b + BLOCK_SIZE + bsize b < WORD ->
  let nb := mkblk (baddr b + BLOCK_SIZE + size)
                  (bsize b - size - BLOCK_SIZE) true in
  let m' := split_block m (baddr b) size in
  hdr_is m' (mkblk (baddr b) size (bfree b)) (baddr nb) /\
  hdr_is m' nb nxt /\
  same_out (baddr b) (baddr b + BLOCK_SIZE + bsize b) m m'.
Proof.
  intros (Hs & Hf & Hn) Ha Hsz Hbig Hfit nb m'. subst nb m'.
  unfold split_block, hdr_is. cbn [baddr bsize bfree].
  unfold BLOCK_SIZE, ALIGNMENT, WORD in *.
  rewrite Hs.
  rewrite (wrap_small (size + 24)) by (unfold WORD; lia).
  rewrite (wrap_small (size + 24 + 8)) by (unfold WORD; lia).
  rewrite (wrap_small (baddr b + 24)) by (unfold WORD; lia).
  rewrite (wrap_small (baddr b + 24 + size)) by (unfold WORD; lia).
  rewrite (wrap_small (bsize b - size)) by (unfold WORD; lia).
  rewrite (wrap_small (bsize b - size - 24)) by (unfold WORD; lia).
  replace (size + 24 + 8 <=? bsize b) with true
    by (symmetry; apply Z.leb_le; lia).
  split; [|split].
  - fields. unfold WORD. memsimpl. repeat split. rewrite <- Hf.
    memsimpl. reflexivity.
  - fields. unfold WORD. memsimpl. repeat split. exact Hn.
  - fields.
    repeat (eapply same_out_trans;
            [|apply same_out_store; cbn; lia]).
    apply same_out_refl.
Qed.

Lemma split_block_whole m block size :
  0 <= size -> size + BLOCK_SIZE + ALIGNMENT < WORD ->
  get_size m block < size + BLOCK_SIZE + ALIGNMENT ->
  split_block m block size = m.
Proof.
  intros Hs Hw Hlt. unfold split_block.
  unfold BLOCK_SIZE, ALIGNMENT, WORD in *.
  rewrite (wrap_small (size + 24)) by (unfold WORD; lia).
  rewrite (wrap_small (size + 24 + 8)) by (unfold WORD; lia).
  replace (size + 24 + 8 <=? get_size m block) with false
    by (symmetry; apply Z.leb_gt; lia).
  reflexivity.
Qed.

(* ================================================================== *)
(** ** Replacing a segment of a well-formed heap *)

Lemma wf_segments l1 mid l2 s :
  wf_with (l1 ++ mid ++ l2) s -> mid <> [] ->
  exists a B,
    layout a l1 (first_addr mid NULL) /\
    layout (first_addr mid NULL) mid B /\ layout B l2 (brk s) /\
    0 < a /\ a = first_addr (l1 ++ mid ++ l2) (brk s).
Proof.
  intros (H1 & H2 & H3 & H4 & H5 & H6 & H7) Hne.
  apply layout_app in H6. destruct H6 as (A & Hl1 & H6).
  apply layout_app in H6. destruct H6 as (B & Hm & Hl2).
  pose proof (layout_first mid A B NULL Hm Hne) as HA. subst A.
  eexists. exists B. repeat split; try eassumption. lia.
Qed.

Lemma wf_seg_replace s m' l1 mid mid' l2 B :
  wf_with (l1 ++ mid ++ l2) s ->
  mid <> [] -> mid' <> [] ->
  layout (first_addr mid NULL) mid B ->
  layout (first_addr mid NULL) mid' B ->
  same_out (first_addr mid NULL) B (mem_of s) m' ->
  repr m' mid' (first_addr l2 NULL) ->
  wf_with (l1 ++ mid' ++ l2) (with_mem s m').
Proof.
  intros Hwf Hne Hne' Hm Hm' Hs Hr'.
  destruct (wf_segments _ _ _ _ Hwf Hne) as (a & B' & Hl1 & Hmm & Hl2 & Ha & Hfa).
  assert (B' = B) by (eapply layout_fun; eassumption). subst B'.
  destruct Hwf as (H1 & H2 & H3 & H4 & H5 & H6 & H7).
  destruct (seg_replace _ _ _ _ _ _ _ _ _ _ _ Hl1 Hm Hl2 Hm' Hne Hne' Hs H7 Hr')
    as (Hr & Hl).
  assert (Hf : forall t, first_addr (l1 ++ mid' ++ l2) t
                         = first_addr (l1 ++ mid ++ l2) t).
  { intros t. rewrite !first_addr_app.
    rewrite (layout_first _ _ _ (first_addr l2 t) Hm Hne).
    rewrite (layout_first _ _ _ (first_addr l2 t) Hm' Hne'). reflexivity. }
  unfold wf_with. cbn [with_mem head brk brk_lo brk_hi mem_of].
  rewrite !Hf. rewrite <- Hfa. repeat split; try assumption; try lia.
Qed.

(** Setting the [free] flag of a block of the chain. *)
Lemma set_free_in_chain l1 b l2 s (f : bool) :
  wf_with (l1 ++ b :: l2) s ->
  wf_with (l1 ++ mkblk (baddr b) (bsize b) f :: l2)
          (with_mem s (set_free (mem_of s) (baddr b) (Z.b2z f))).
Proof.
  intros Hwf.
  change (l1 ++ b :: l2) with (l1 ++ [b] ++ l2) in Hwf.
  change (l1 ++ mkblk (baddr b) (bsize b) f :: l2)
    with (l1 ++ [mkblk (baddr b) (bsize b) f] ++ l2).
  destruct (wf_segments _ _ _ _ Hwf ltac:(discriminate))
    as (a & B & Hl1 & Hm & Hl2 & Ha & Hfa).
  pose proof Hwf as (_ & _ & _ & _ & _ & _ & Hr).
  apply repr_app in Hr. destruct Hr as (_ & (Hh & Hs & Hn) & _).
  cbn [first_addr app] in *.
  apply (wf_seg_replace s _ l1 [b] [mkblk (baddr b) (bsize b) f] l2 B);
    try assumption; try discriminate.
  - cbn [first_addr]. cbn [layout] in Hm. destruct Hm as (_ & Hsz & <-).
    eapply same_out_weaken; [| |apply same_out_set_free]; unfold BLOCK_SIZE; lia.
  - cbn [repr]. unfold hdr_is. cbn [baddr bsize bfree]. split; [|exact I].
    fields. repeat split.
    + rewrite <- Hh. memsimpl. reflexivity.
    + rewrite load4_store4 by (destruct f; cbn; lia). reflexivity.
    + rewrite <- Hn. memsimpl. reflexivity.
Qed.

(** Splitting a block of the chain: the block keeps its flag and either
    shrinks to [size], followed by a new free block, or stays whole. *)
Lemma split_in_chain l1 b l2 s size :
  wf_with (l1 ++ b :: l2) s -> 0 <= size <= bsize b ->
  exists mid',
    wf_with (l1 ++ mid' ++ l2)
            (with_mem s (split_block (mem_of s) (baddr b) size)) /\
    same_out (baddr b) (baddr b + BLOCK_SIZE + bsize b)
             (mem_of s) (split_block (mem_of s) (baddr b) size) /\
    ((size + BLOCK_SIZE + ALIGNMENT <= bsize b /\
      mid' = [mkblk (baddr b) size (bfree b);
              mkblk (baddr b + BLOCK_SIZE + size)
                    (bsize b - size - BLOCK_SIZE) true]) \/
     (bsize b < size + BLOCK_SIZE + ALIGNMENT /\ mid' = [b] /\
      split_block (mem_of s) (baddr b) size = mem_of s)).
Proof.
  intros Hwf Hsz.
  change (l1 ++ b :: l2) with (l1 ++ [b] ++ l2) in Hwf.
  destruct (wf_segments _ _ _ _ Hwf ltac:(discriminate))
    as (a & B & Hl1 & Hm & Hl2 & Ha & Hfa).
  pose proof Hwf as (Hlo & Hbrk & Hhi & _ & _ & _ & Hr).
  apply repr_app in Hr. destruct Hr as (_ & Hh & _).
  cbn [first_addr layout] in Hm. destruct Hm as (_ & Hs0 & HB).
  pose proof (layout_le _ _ _ Hl1) as Hle1. pose proof (layout_le _ _ _ Hl2) as Hle2.
  cbn [first_addr] in Hle1.
  destruct (Z_le_gt_dec (size + BLOCK_SIZE + ALIGNMENT) (bsize b)) as [Hbig|Hsmall].
  - destruct (split_block_splits (mem_of s) b _ size Hh) as (Hb' & Hnb & Hsame);
      try (unfold BLOCK_SIZE, ALIGNMENT, WORD, HALF in *; lia).
    eexists. split; [|split; [exact Hsame|left; split; [exact Hbig|reflexivity]]].
    apply (wf_seg_replace s _ l1 [b] _ l2 B); try assumption; try discriminate.
    + cbn [first_addr layout]. repeat split; [lia|exact HB].
    + cbn [first_addr layout baddr bsize].
      unfold BLOCK_SIZE, ALIGNMENT in *. repeat split; lia.
    + cbn [first_addr]. rewrite <- HB. exact Hsame.
    + cbn [repr first_addr]. split; [exact Hb'|split; [exact Hnb|exact I]].
  - exists [b]. assert (Hw : split_block (mem_of s) (baddr b) size = mem_of s).
    { apply split_block_whole; [lia| |].
      - unfold BLOCK_SIZE, ALIGNMENT, WORD, HALF in *. lia.
      - destruct Hh as (-> & _). lia. }
    rewrite Hw. split; [|split].
    + destruct s; exact Hwf.
    + apply same_out_refl.
    + right. repeat split. lia.
Qed.

(* ================================================================== *)
(** ** Extending the arena *)

Lemma sbrk_zero s : sbrk 0 s = (brk s, s).
Proof. reflexivity. Qed.

Lemma sbrk_grow n s :
  0 < n < HALF ->
  sbrk n s = if (brk_lo s <=? brk s + n) && (brk s + n <=? brk_hi s)
             then (brk s, with_brk s (brk s + n))
             else (SBRK_FAILED, s).
Proof.
  intros Hn. unfold sbrk.
  replace (n =? 0) with false by (symmetry; apply Z.eqb_neq; lia).
  rewrite signed_small by lia.
  replace (n <? 0) with false by (symmetry; apply Z.ltb_ge; lia).
  reflexivity.
Qed.

Lemma sbrk_mem n s : mem_of (snd (sbrk n s)) = mem_of s.
Proof.
  unfold sbrk. destruct (n =? 0); [reflexivity|].
  destruct ((brk_lo s <=? brk s + signed n) && (brk s + signed n <=? brk_hi s));
    [reflexivity|].
  destruct ((signed n <? 0) && (0 <=? brk s + signed n)); reflexivity.
Qed.

Lemma last_addr_nonempty l d d' : l <> [] -> last_addr l d = last_addr l d'.
Proof.
  intros Hne. destruct (exists_last Hne) as (l' & b & ->).
  rewrite !last_addr_app. reflexivity.
Qed.

(** [request_space] on a well-formed heap: refused, with nothing changed, or
    granted, with a used block of the requested size appended at the old
    break. *)
Lemma request_space_ok l s size :
  wf_with l s -> 0 <= size -> BLOCK_SIZE + size < HALF ->
  let last := last_addr l NULL in
  let nb := mkblk (brk s) size false in
  (brk_hi s < brk s + BLOCK_SIZE + size /\
   request_space last size s = (NULL, s)) \/
  (brk s + BLOCK_SIZE + size <= brk_hi s /\
   exists m',
     request_space last size s
     = (brk s, with_mem (with_brk s (brk s + BLOCK_SIZE + size)) m') /\
     repr m' (l ++ [nb]) NULL /\
     (forall x, x < brk s -> x < last + 16 \/ last + 24 <= x ->
                m' x = mem_of s x)).
Proof.
  intros Hwf Hsz Hmax last nb.
  pose proof Hwf as (Hlo & Hbrk & Hhi & Hhead & Hfirst & Hlay & Hrepr).
  pose proof (layout_le _ _ _ Hlay) as Hle.
  unfold request_space. rewrite sbrk_zero.
  rewrite wrap_small by (unfold BLOCK_SIZE, HALF, WORD in *; lia).
  rewrite sbrk_grow by (unfold BLOCK_SIZE in *; lia).
  replace (brk_lo s <=? brk s + (BLOCK_SIZE + size)) with true
    by (symmetry; apply Z.leb_le; unfold BLOCK_SIZE; lia).
  cbn [andb].
  destruct (brk s + (BLOCK_SIZE + size) <=? brk_hi s) eqn:E.
  - apply Z.leb_le in E. right. split; [lia|].
    replace (brk s =? SBRK_FAILED) with false
      by (symmetry; apply Z.eqb_neq; unfold SBRK_FAILED, wrap, WORD, HALF in *;
          cbn; lia).
    eexists. split.
    { cbn [mem_of with_brk]. rewrite Z.add_assoc. reflexivity. }
    destruct l as [|b0 l0].
    + (* empty heap *)
      subst last. cbn [last_addr map List.last].
      cbn [app repr first_addr]. unfold hdr_is, nb. cbn [baddr bsize bfree Z.b2z].
      unfold NULL. cbn [Z.eqb].
      split; [split; [|exact I]|].
      * fields. memsimpl. repeat split; reflexivity.
      * intros x Hx _. fields. rewrite !store_outside by lia. reflexivity.
    + assert (Hne : b0 :: l0 <> []) by discriminate.
      destruct (exists_last Hne) as (l' & lb & Heq).
      subst last. rewrite Heq in *. clear Heq Hne b0 l0.
      rewrite last_addr_app.
      apply layout_app in Hlay. destruct Hlay as (A & Hl' & Hlb).
      cbn [layout] in Hlb. destruct Hlb as (HA & Hlbs & Hend).
      apply repr_app in Hrepr. destruct Hrepr as (Hr' & (Hs & Hf & Hn) & _).
      cbn [first_addr] in Hr'.
      pose proof (layout_le _ _ _ Hl') as Hle'.
      assert (Hpos : 0 < baddr lb) by lia.
      replace (baddr lb =? NULL) with false
        by (symmetry; apply Z.eqb_neq; unfold NULL; lia).
      split; [|intros x Hx1 Hx2; fields; rewrite !store_outside by lia; reflexivity].
      apply repr_app. split; [apply repr_app; split|].
      * cbn [first_addr]. eapply repr_frame; [exact Hl'| |exact Hr'].
        intros x Hx. fields. unfold BLOCK_SIZE in *.
        rewrite !store_outside by lia. reflexivity.
      * cbn [repr first_addr]. split; [|exact I]. unfold hdr_is, nb.
        cbn [baddr]. fields. unfold BLOCK_SIZE in *. repeat split.
        -- rewrite <- Hs. memsimpl. reflexivity.
        -- rewrite <- Hf. memsimpl. reflexivity.
        -- memsimpl. reflexivity.
      * cbn [repr first_addr]. split; [|exact I]. unfold hdr_is, nb.
        cbn [baddr bsize bfree Z.b2z]. fields. unfold NULL.
        memsimpl. repeat split; reflexivity.
  - apply Z.leb_gt in E. left. split; [lia|].
    rewrite Z.eqb_refl. reflexivity.
Qed.

Lemma request_space_wf l s size m' :
  wf_with l s -> 0 <= size ->
  brk s + BLOCK_SIZE + size <= brk_hi s ->
  repr m' (l ++ [mkblk (brk s) size false]) NULL ->
  wf_with (l ++ [mkblk (brk s) size false])
          (with_head (with_mem (with_brk s (brk s + BLOCK_SIZE + size)) m')
                     (first_addr (l ++ [mkblk (brk s) size false]) NULL)).
Proof.
  intros (Hlo & Hbrk & Hhi & Hhead & Hfirst & Hlay & Hrepr) Hsz Hroom Hr.
  unfold wf_with. cbn [with_head with_mem with_brk head brk brk_lo brk_hi mem_of].
  rewrite !first_addr_app. cbn [first_addr]. repeat split; try assumption; try lia.
  apply layout_app. exists (brk s). split; [exact Hlay|].
  cbn [layout baddr bsize]. repeat split; lia.
Qed.

(* ================================================================== *)
(** ** [my_malloc] on a well-formed heap *)

Lemma wf_addr_bounds l s b :
  wf_with l s -> In b l ->
  0 < baddr b /\ 0 <= bsize b /\ baddr b + BLOCK_SIZE + bsize b <= brk s /\
  brk s < HALF.
Proof.
  intros (Hlo & Hbrk & Hhi & Hhead & Hfirst & Hlay & Hrepr) Hin.
  destruct (layout_In _ _ _ _ Hlay Hin) as (H1 & H2 & H3). lia.
Qed.

Lemma wf_head_null l s : wf_with l s -> head s = NULL -> l = [].
Proof.
  intros Hwf Hh. destruct l as [|b l]; [reflexivity|].
  destruct (wf_addr_bounds _ _ b Hwf (or_introl eq_refl)) as (Hpos & _).
  destruct Hwf as (_ & _ & _ & Hhead & _). cbn in Hhead. unfold NULL in *. lia.
Qed.

Lemma wf_head_nonnull l s : wf_with l s -> head s <> NULL -> l <> [].
Proof.
  intros (_ & _ & _ & Hhead & _) Hh ->. cbn in Hhead. congruence.
Qed.

Lemma my_malloc_ok l s size fuel :
  wf_with l s -> 0 <= size <= MAX_REQUEST -> (length l < fuel)%nat ->
  exists r s', my_malloc fuel size s = Some (r, s') /\
    ((r = NULL /\ s' = s) \/ (r <> NULL /\ malloc_post l s size r s')).
Proof.
  intros Hwf Hsz Hfuel. unfold my_malloc.
  destruct (size <=? 0) eqn:E0.
  { exists NULL, s. split; [reflexivity|left; tauto]. }
  apply Z.leb_gt in E0.
  destruct (ALIGN_bounds size) as (Hal & _); [consts; lia|].
  set (asize := ALIGN size) in *.
  pose proof Hwf as (Hlo & Hbrk & Hhi & Hhead & Hfirst & Hlay & Hrepr).
  pose proof (layout_le _ _ _ Hlay) as Hle.
  assert (Hpos : 0 < first_addr l (brk s)) by lia.
  destruct (head s =? NULL) eqn:Eh.
  - (* first allocation *)
    apply Z.eqb_eq in Eh. pose proof (wf_head_null _ _ Hwf Eh). subst l.
    destruct (request_space_ok [] s asize Hwf) as [(Hfull & Hrq)|(Hroom & m' & Hrq & Hr & Hfr)];
      try (consts; lia); change (last_addr [] NULL) with NULL in Hrq; rewrite Hrq.
    + exists NULL, s. split; [reflexivity|left; tauto].
    + replace (brk s =? NULL) with false
        by (symmetry; apply Z.eqb_neq; cbn in Hfirst; unfold NULL; lia).
      cbn in Hfirst.
      rewrite wrap_small by (consts; lia).
      eexists _, _. split; [reflexivity|right]. split; [consts; lia|].
      exists [mkblk (brk s) asize false], (mkblk (brk s) asize false).
      split; [exact (request_space_wf [] s asize m' Hwf ltac:(lia) Hroom Hr)|].
      cbn [baddr bsize bfree In length].
      repeat split; try tauto; try lia; contradiction.
  - apply Z.eqb_neq in Eh. pose proof (wf_head_nonnull _ _ Hwf Eh) as Hne.
    unfold find_free_block_first_fit.
    destruct (first_fit_split asize l) as [Hmiss|(l1 & b & l2 & Heq & Hmiss & Hfit)].
    + (* no block fits: extend the arena *)
      rewrite Hhead.
      rewrite (first_fit_miss _ _ _ fuel _ _ (first_addr l NULL)
                 Hpos Hlay Hrepr Hmiss Hfuel).
      cbn [Z.eqb NULL]. change (0 =? 0) with true. cbv iota.
      rewrite (last_addr_nonempty l _ NULL Hne).
      destruct (request_space_ok l s asize Hwf) as [(Hfull & ->)|(Hroom & m' & -> & Hr & Hfr)];
        try (consts; lia).
      * exists NULL, s. split; [reflexivity|left; tauto].
      * replace (brk s =? NULL) with false
          by (symmetry; apply Z.eqb_neq; unfold NULL; lia).
        rewrite wrap_small by (consts; lia).
        eexists _, _. split; [reflexivity|right]. split; [consts; lia|].
        exists (l ++ [mkblk (brk s) asize false]), (mkblk (brk s) asize false).
        pose proof (request_space_wf l s asize m' Hwf ltac:(lia) Hroom Hr) as Hwf'.
        rewrite first_addr_app in Hwf'.
        replace (first_addr l (first_addr [mkblk (brk s) asize false] NULL))
          with (head s) in Hwf'
          by (rewrite Hhead; destruct l; [congruence|reflexivity]).
        split; [exact Hwf'|].
        cbn [baddr bsize bfree mem_of with_mem].
        rewrite length_app. cbn [length].
        split; [apply in_or_app; right; left; reflexivity|].
        repeat split; try lia.
        -- apply in_or_app. left. assumption.
        -- pose proof (layout_In _ _ _ _ Hlay H). unfold BLOCK_SIZE in *. lia.
        -- intros c x Hc Hcf Hx.
           pose proof (layout_In _ _ _ _ Hlay Hc) as Hcb.
           apply Hfr; [lia|].
           destruct (exists_last Hne) as (l' & lb & Hl). rewrite Hl in *.
           rewrite last_addr_app.
           destruct (Z.eq_dec (baddr c) (baddr lb)) as [Hsame|Hdiff].
           ++ unfold BLOCK_SIZE in *. lia.
           ++ assert (Hlb : In lb (l' ++ [lb]))
                by (apply in_or_app; right; left; reflexivity).
              pose proof (layout_disjoint _ _ _ _ _ Hlay Hc Hlb Hdiff).
              pose proof (layout_In _ _ _ _ Hlay Hlb).
              unfold BLOCK_SIZE in *. lia.
    + (* a free block fits *)
      subst l.
      assert (Hb : In b (l1 ++ b :: l2)) by (apply in_or_app; right; left; reflexivity).
      destruct (wf_addr_bounds _ _ _ Hwf Hb) as (Hbpos & Hbs & Hbend & Hbrk').
      rewrite (layout_first _ _ _ NULL Hlay Hne) in Hhead.
      rewrite Hhead.
      rewrite (first_fit_hit _ _ _ _ _ fuel _ _ _ (first_addr (l1 ++ b :: l2) (brk s))
                 Hpos Hlay Hrepr Hmiss Hfit);
        [|rewrite length_app in Hfuel; cbn in Hfuel; lia].
      replace (baddr b =? NULL) with false
        by (symmetry; apply Z.eqb_neq; unfold NULL; lia).
      rewrite wrap_small by (consts; lia).
      unfold fits in Hfit. apply andb_true_iff in Hfit. destruct Hfit as (Hbf & Hbsz).
      apply Z.leb_le in Hbsz.
      eexists _, _. split; [reflexivity|right]. split; [consts; lia|].
      destruct (split_in_chain l1 b l2 s asize Hwf ltac:(lia))
        as (mid' & Hwf1 & Hsame1 & Hcase).
      set (m1 := split_block (mem_of s) (baddr b) asize) in *.
      assert (Hmid : exists sz rest, mid' = mkblk (baddr b) sz (bfree b) :: rest /\
                                     asize <= sz /\ (length rest <= 1)%nat).
      { destruct Hcase as [(_ & ->)|(_ & -> & _)].
        - eexists _, _. split; [reflexivity|]. cbn. lia.
        - exists (bsize b), []. destruct b. cbn in *. split; [reflexivity|lia]. }
      destruct Hmid as (sz & rest & -> & Hsz' & Hrest).
      change (l1 ++ (mkblk (baddr b) sz (bfree b) :: rest) ++ l2)
        with (l1 ++ mkblk (baddr b) sz (bfree b) :: (rest ++ l2)) in Hwf1.
      pose proof (set_free_in_chain _ _ _ _ false Hwf1) as Hwf2.
      cbn [baddr bsize mem_of with_mem Z.b2z] in Hwf2.
      exists (l1 ++ mkblk (baddr b) sz false :: rest ++ l2), (mkblk (baddr b) sz false).
      split; [exact Hwf2|].
      cbn [baddr bsize bfree mem_of with_mem].
      split; [apply in_or_app; right; left; reflexivity|].
      split; [reflexivity|]. split; [reflexivity|]. split; [lia|].
      split; [rewrite !length_app; cbn [length]; rewrite length_app; lia|].
      assert (Hother : forall c, In c (l1 ++ b :: l2) -> bfree c = false ->
                (In c l1 \/ In c l2) /\ baddr c <> baddr b).
      { intros c Hc Hcf. split.
        - apply in_app_or in Hc. destruct Hc as [Hc|[->|Hc]]; [tauto|congruence|tauto].
        - intros Heq. pose proof (layout_addr_inj _ _ _ _ _ Hlay Hc Hb Heq).
          congruence. }
      split.
      * intros c Hc Hcf. destruct (Hother c Hc Hcf) as (Hin & Hd). split; [|exact Hd].
        apply in_or_app. destruct Hin as [Hin|Hin]; [left; exact Hin|].
        right. right. apply in_or_app. right. exact Hin.
      * intros c x Hc Hcf Hx. destruct (Hother c Hc Hcf) as (_ & Hd).
        pose proof (layout_disjoint _ _ _ _ _ Hlay Hc Hb Hd) as Hdis.
        pose proof (layout_In _ _ _ _ Hlay Hc) as Hcb.
        assert (Hout : x < baddr b \/ baddr b + BLOCK_SIZE + bsize b <= x)
          by (unfold BLOCK_SIZE in *; lia).
        rewrite (same_out_set_free m1 (baddr b) 0 x) by (unfold BLOCK_SIZE in *; lia).
        apply Hsame1. exact Hout.
Qed.

(* ================================================================== *)
(** ** Coalescing *)

Lemma coal_first cur l :
  exists sz rest, coal cur l = mkblk (baddr cur) sz (bfree cur) :: rest.
Proof.
  revert cur. induction l as [|c l IH]; intros cur; cbn [coal].
  - exists (bsize cur), []. destruct cur; reflexivity.
  - destruct (bfree cur && bfree c).
    + destruct (IH (merge cur c)) as (sz & rest & ->). cbn [merge baddr bfree].
      eexists _, _. reflexivity.
    + exists (bsize cur), (coal c l). destruct cur; reflexivity.
Qed.

Lemma coal_no_adj_free l : forall cur, no_adj_free (coal cur l).
Proof.
  induction l as [|c l IH]; intros cur; cbn [coal].
  - exact I.
  - destruct (bfree cur && bfree c) eqn:E; [apply IH|].
    specialize (IH c). destruct (coal_first c l) as (sz & rest & Hc).
    rewrite Hc in *. cbn [no_adj_free bfree]. split; assumption.
Qed.

Lemma coal_keeps_used l : forall cur c,
  In c (cur :: l) -> bfree c = false -> In c (coal cur l).
Proof.
  induction l as [|d l IH]; intros cur c Hin Hc; cbn [coal].
  - exact Hin.
  - destruct (bfree cur && bfree d) eqn:E.
    + apply andb_true_iff in E. destruct E as (E1 & E2).
      apply IH; [|exact Hc].
      destruct Hin as [->|[->|Hin]]; [congruence|congruence|right; exact Hin].
    + destruct Hin as [->|Hin]; [left; reflexivity|].
      right. apply IH; assumption.
Qed.

Lemma coal_length l : forall cur, (length (coal cur l) <= S (length l))%nat.
Proof.
  induction l as [|d l IH]; intros cur; cbn [coal length]; [lia|].
  destruct (bfree cur && bfree d).
  - specialize (IH (merge cur d)). lia.
  - cbn [length]. specialize (IH d). lia.
Qed.

(** Blocks of the chain that are used before the pass and stay in place. *)
Lemma coal_used_from l : forall cur c,
  In c (coal cur l) -> bfree c = false -> In c (cur :: l).
Proof.
  induction l as [|d l IH]; intros cur c Hin Hc; cbn [coal] in Hin.
  - exact Hin.
  - destruct (bfree cur && bfree d) eqn:E.
    + apply andb_true_iff in E. destruct E as (E1 & E2).
      apply IH in Hin; [|exact Hc].
      destruct Hin as [<-|Hin]; [cbn in Hc; congruence|right; right; exact Hin].
    + destruct Hin as [->|Hin]; [left; reflexivity|].
      right. apply IH; assumption.
Qed.

(** The loop of [coalesce], started at block [cur] of a well-formed chain
    [l0 ++ cur :: l], terminates and leaves the chain [l0 ++ coal cur l];
    it writes only into headers of free blocks. *)
Lemma coalesce_loop_ok l : forall cur l0 m fuel a e,
  0 < a -> layout a (l0 ++ cur :: l) e -> e < HALF ->
  repr m (l0 ++ cur :: l) NULL ->
  (length l < fuel)%nat ->
  exists m', coalesce_loop fuel m (baddr cur) = Some m' /\
    repr m' (l0 ++ coal cur l) NULL /\
    layout a (l0 ++ coal cur l) e /\
    (forall x,
       (forall c, In c (cur :: l) -> bfree c = true ->
                  x < baddr c \/ baddr c + BLOCK_SIZE <= x) ->
       m' x = m x).
Proof.
  induction l as [|c l IH]; intros cur l0 m fuel a e Ha Hlay He Hrepr Hfuel;
    (destruct fuel as [|fuel]; [cbn in Hfuel; lia|]).
  - (* [cur] is the last block *)
    pose proof Hrepr as Hr. apply repr_app in Hr.
    destruct Hr as (_ & (_ & _ & Hn) & _). cbn [first_addr] in Hn.
    pose proof Hlay as Hl. apply layout_app in Hl. destruct Hl as (A & Hl0 & HA & _).
    pose proof (layout_le _ _ _ Hl0).
    cbn [coalesce_loop]. rewrite Hn.
    replace (baddr cur =? NULL) with false
      by (symmetry; apply Z.eqb_neq; unfold NULL; lia).
    cbn [NULL Z.eqb negb andb coal].
    exists m. repeat split; assumption.
  - pose proof Hrepr as Hr. apply repr_app in Hr.
    destruct Hr as (_ & Hcur & Hc & _). cbn [first_addr] in Hcur.
    pose proof Hcur as (Hcs & Hcf & Hcn). pose proof Hc as (Hds & Hdf & Hdn).
    pose proof Hlay as Hl. apply layout_app in Hl.
    destruct Hl as (A & Hl0 & HA & Hs0 & Hbc & Hs1 & Hl').
    pose proof (layout_le _ _ _ Hl0). pose proof (layout_le _ _ _ Hl').
    cbn [coalesce_loop]. rewrite Hcn.
    replace (baddr cur =? NULL) with false
      by (symmetry; apply Z.eqb_neq; unfold NULL; lia).
    replace (baddr c =? NULL) with false
      by (symmetry; apply Z.eqb_neq; unfold NULL, BLOCK_SIZE in *; lia).
    cbn [negb andb]. rewrite Hcf, Hdf, !b2z_nonzero. cbn [coal].
    destruct (bfree cur && bfree c) eqn:E.
    + (* merge [c] into [cur] and look at [cur] again *)
      rewrite Hcs, Hds.
      rewrite (wrap_small (BLOCK_SIZE + bsize c)) by (consts; lia).
      rewrite (wrap_small (bsize cur + _)) by (consts; lia).
      set (m1 := set_size m (baddr cur) (bsize cur + (BLOCK_SIZE + bsize c))).
      assert (Hn1 : get_next m1 (baddr cur) = baddr c).
      { subst m1. rewrite <- Hcn. fields. memsimpl. reflexivity. }
      assert (Hn2 : get_next m1 (baddr c) = first_addr l NULL).
      { subst m1. rewrite <- Hdn. fields. memsimpl. reflexivity. }
      rewrite Hn1, Hn2.
      set (m2 := set_next m1 (baddr cur) (first_addr l NULL)).
      assert (Hsame : same_out (baddr cur) (baddr cur + BLOCK_SIZE) m m2).
      { apply (same_out_trans _ _ m m1 m2); subst m2 m1.
        - eapply same_out_weaken; [| |apply same_out_set_size]; unfold BLOCK_SIZE; lia.
        - eapply same_out_weaken; [| |apply same_out_set_next]; unfold BLOCK_SIZE; lia. }
      assert (Hnr : 0 <= first_addr l NULL < WORD).
      { rewrite <- Hdn. apply get_next_range. }
      assert (Hh2 : hdr_is m2 (merge cur c) (first_addr l NULL)).
      { unfold hdr_is, merge. cbn [baddr bsize bfree]. subst m2 m1.
        fields. repeat split.
        - memsimpl. lia.
        - rewrite <- Hcf. memsimpl. reflexivity.
        - memsimpl. reflexivity. }
      change (l0 ++ cur :: c :: l) with (l0 ++ [cur; c] ++ l) in Hrepr.
      destruct (seg_replace m m2 a e NULL l0 [cur; c] [merge cur c] l
                  A (A + BLOCK_SIZE + bsize cur + BLOCK_SIZE + bsize c))
        as (Hrepr2 & Hlay2);
        try assumption; try discriminate.
      { cbn [layout]. subst A. unfold BLOCK_SIZE in *. repeat split; lia. }
      { cbn [layout merge baddr bsize]. subst A. unfold BLOCK_SIZE in *.
        repeat split; lia. }
      { subst A. eapply same_out_weaken; [| |exact Hsame]; unfold BLOCK_SIZE in *; lia. }
      { cbn [repr]. split; [exact Hh2|exact I]. }
      cbn [app] in Hrepr2, Hlay2.
      destruct (IH (merge cur c) l0 m2 fuel a e Ha Hlay2 He Hrepr2)
        as (m' & Hrun & Hr' & Hl2 & Hfr); [cbn in Hfuel; lia|].
      cbn [merge baddr] in Hrun.
      exists m'. repeat split; try assumption.
      intros x Hx. rewrite Hfr.
      * apply Hsame.
        apply andb_true_iff in E. destruct E as (E1 & _).
        specialize (Hx cur (or_introl eq_refl) E1). lia.
      * intros d [<-|Hd] Hdfree.
        -- cbn [merge baddr bfree] in *. apply (Hx cur); [left; reflexivity|exact Hdfree].
        -- apply (Hx d); [right; right; exact Hd|exact Hdfree].
    + (* move on to [c] *)
      replace (l0 ++ cur :: c :: l) with ((l0 ++ [cur]) ++ c :: l) in Hlay, Hrepr
        by (rewrite <- app_assoc; reflexivity).
      destruct (IH c (l0 ++ [cur]) m fuel a e Ha Hlay He Hrepr)
        as (m' & Hrun & Hr' & Hl2 & Hfr); [cbn in Hfuel; lia|].
      rewrite <- app_assoc in Hr', Hl2. cbn [app] in Hr', Hl2.
      exists m'. repeat split; try assumption.
      intros x Hx. apply Hfr. intros d Hd Hdfree. apply (Hx d); [right; exact Hd|exact Hdfree].
Qed.

(* ================================================================== *)
(** ** Live pointers and [my_free] on a well-formed heap *)

Lemma live_block l s p :
  wf_with l s -> live s p ->
  exists l1 b l2, l = l1 ++ b :: l2 /\ baddr b = p - BLOCK_SIZE /\ bfree b = false.
Proof.
  intros Hwf (la & Hch & Hin & Hfree).
  pose proof (chain_fun _ _ _ _ Hch (wf_chain _ _ Hwf)). subst la.
  apply in_map_iff in Hin. destruct Hin as (b & Hb & Hin).
  destruct (in_split _ _ Hin) as (l1 & l2 & ->).
  exists l1, b, l2. repeat split; [exact Hb|].
  destruct Hwf as (_ & _ & _ & _ & _ & _ & Hr).
  destruct (repr_In _ _ _ _ Hr Hin) as (_ & Hf).
  rewrite Hb, Hfree in Hf. destruct (bfree b); [discriminate|reflexivity].
Qed.

Lemma block_live l s b :
  wf_with l s -> In b l -> bfree b = false -> live s (baddr b + BLOCK_SIZE).
Proof.
  intros Hwf Hin Hf. exists (map baddr l).
  replace (baddr b + BLOCK_SIZE - BLOCK_SIZE) with (baddr b) by lia.
  split; [apply (wf_chain _ _ Hwf)|]. split; [apply in_map; exact Hin|].
  destruct Hwf as (_ & _ & _ & _ & _ & _ & Hr).
  destruct (repr_In _ _ _ _ Hr Hin) as (_ & ->). rewrite Hf. reflexivity.
Qed.

Lemma wf_no_adj_free l s : wf_with l s -> no_adj_free l -> no_adjacent_free s.
Proof.
  intros Hwf Hn. exists (map baddr l). split; [apply (wf_chain _ _ Hwf)|].
  destruct Hwf as (_ & _ & _ & _ & _ & _ & Hr).
  eapply repr_no_adj_free; eassumption.
Qed.

Lemma coal_list_no_adj_free l : no_adj_free (coal_list l).
Proof. destruct l; [exact I|apply coal_no_adj_free]. Qed.

(** [my_free] of the payload pointer of a block of a well-formed chain:
    the block is marked free and the chain is coalesced. *)
Lemma my_free_ok l1 b l2 s fuel :
  wf_with (l1 ++ b :: l2) s ->
  (length (l1 ++ b :: l2) <= fuel)%nat ->
  let L := l1 ++ mkblk (baddr b) (bsize b) true :: l2 in
  exists m',
    my_free fuel (baddr b + BLOCK_SIZE) s = Some (with_mem s m') /\
    wf_with (coal_list L) (with_mem s m') /\
    (forall x,
       (forall c, In c L -> bfree c = true ->
                  x < baddr c \/ baddr c + BLOCK_SIZE <= x) ->
       m' x = mem_of s x).
Proof.
  intros Hwf Hfuel L.
  assert (Hb : In b (l1 ++ b :: l2)) by (apply in_or_app; right; left; reflexivity).
  destruct (wf_addr_bounds _ _ _ Hwf Hb) as (Hbpos & Hbs & Hbend & Hbrk').
  unfold my_free, get_block_ptr.
  replace (baddr b + BLOCK_SIZE =? NULL) with false
    by (symmetry; apply Z.eqb_neq; consts; lia).
  replace (baddr b + BLOCK_SIZE - BLOCK_SIZE) with (baddr b) by lia.
  rewrite wrap_small by (consts; lia).
  pose proof (set_free_in_chain _ _ _ _ true Hwf) as Hwf1.
  cbn [Z.b2z] in Hwf1. fold L in Hwf1.
  set (m1 := set_free (mem_of s) (baddr b) 1) in *.
  assert (Hlen : length L = length (l1 ++ b :: l2))
    by (unfold L; rewrite !length_app; reflexivity).
  assert (HbL : In (mkblk (baddr b) (bsize b) true) L)
    by (apply in_or_app; right; left; reflexivity).
  destruct L as [|hd tl] eqn:HL; [contradiction|].
  pose proof Hwf1 as (Hlo & Hbrk & Hhi & Hhead & Hfirst & Hlay & Hrepr).
  cbn [with_mem head brk brk_lo brk_hi mem_of first_addr] in *.
  destruct (coalesce_loop_ok tl hd [] m1 fuel (baddr hd) (brk s))
    as (m' & Hrun & Hr' & Hl' & Hfr); try assumption; try lia.
  { cbn [length] in Hlen. lia. }
  unfold coalesce. cbn [with_mem head brk brk_lo brk_hi mem_of].
  rewrite Hhead, Hrun. exists m'. split; [reflexivity|].
  cbn [app coal_list] in *.
  destruct (coal_first hd tl) as (sz & rest & Hc).
  split.
  - unfold wf_with. cbn [with_mem head brk brk_lo brk_hi mem_of].
    rewrite Hc in *. cbn [first_addr baddr] in *.
    repeat (split; [assumption|]). assumption.
  - intros x Hx. rewrite Hfr by exact Hx.
    subst m1. apply same_out_set_free.
    specialize (Hx _ HbL eq_refl). cbn [baddr] in Hx. unfold BLOCK_SIZE in Hx. lia.
Qed.

(* ================================================================== *)
(** ** Soundness of the executable checks *)

Lemma walk_chain fuel : forall m h l, walk fuel m h = Some l -> chain m h l.
Proof.
  induction fuel as [|fuel IH]; intros m h l H; [discriminate|].
  cbn [walk] in H. destruct (h =? NULL) eqn:E.
  - apply Z.eqb_eq in E. injection H as <-. subst h. constructor.
  - apply Z.eqb_neq in E.
    destruct (walk fuel m (get_next m h)) as [l'|] eqn:W; [|discriminate].
    injection H as <-. constructor; [exact E|]. apply IH. exact W.
Qed.

Lemma adjacentb_spec (P : Z -> Z -> bool) (Q : Z -> Z -> Prop) l :
  (forall a a', P a a' = true <-> Q a a') ->
  adjacentb P l = true <-> adjacent Q l.
Proof.
  intros HPQ. induction l as [|a l IH]; [cbn; tauto|].
  destruct l as [|a' l]; [cbn; tauto|].
  change (adjacentb P (a :: a' :: l)) with (P a a' && adjacentb P (a' :: l)).
  change (adjacent Q (a :: a' :: l)) with (Q a a' /\ adjacent Q (a' :: l)).
  rewrite andb_true_iff, HPQ, IH. tauto.
Qed.

Lemma ledger_check_spec fuel s la :
  walk fuel (mem_of s) (head s) = Some la ->
  ledger_check fuel s = true <-> ledger_inv s.
Proof.
  intros W. unfold ledger_check, ledger_inv. rewrite W.
  pose proof (walk_chain _ _ _ _ W) as Hch.
  assert (HPQ : forall a a',
    (a <? a') && (a' =? a + BLOCK_SIZE + get_size (mem_of s) a) = true <->
    a < a' /\ a' = a + BLOCK_SIZE + get_size (mem_of s) a).
  { intros a a'. rewrite andb_true_iff, Z.ltb_lt, Z.eqb_eq. tauto. }
  rewrite (adjacentb_spec _ _ la HPQ). split.
  - intros H. exists la. tauto.
  - intros (l & Hl & H). rewrite (chain_fun _ _ _ _ Hch Hl). exact H.
Qed.

Lemma live_check_sound fuel s p : live_check fuel s p = true -> live s p.
Proof.
  unfold live_check.
  destruct (walk fuel (mem_of s) (head s)) as [la|] eqn:W; [|discriminate].
  rewrite andb_true_iff, existsb_exists, Z.eqb_eq.
  intros ((x & Hin & Hx) & Hf). apply Z.eqb_eq in Hx. subst x.
  exists la. split; [exact (walk_chain _ _ _ _ W)|tauto].
Qed.

Lemma layoutb_sound l : forall a e, layoutb a l e = true -> layout a l e.
Proof.
  induction l as [|b l IH]; intros a e H; cbn [layoutb layout] in *.
  - apply Z.eqb_eq. exact H.
  - rewrite !andb_true_iff, Z.eqb_eq, Z.leb_le in H.
    destruct H as ((H1 & H2) & H3). repeat split; try assumption.
    apply IH. exact H3.
Qed.

Lemma chain_first m h la :
  chain m h la -> h = first_addr (blocks_of m la) NULL.
Proof. intros H. destruct H; reflexivity. Qed.

Lemma chain_repr m : forall h la,
  chain m h la ->
  forallb (fun a => get_free m a <? 2) la = true ->
  repr m (blocks_of m la) NULL.
Proof.
  intros h la H. induction H as [|a l Ha H IH]; intros Hf; [exact I|].
  cbn [forallb] in Hf. apply andb_true_iff in Hf. destruct Hf as (Hf1 & Hf2).
  apply Z.ltb_lt in Hf1.
  change (blocks_of m (a :: l))
    with (mkblk a (get_size m a) (negb (get_free m a =? 0)) :: blocks_of m l).
  cbn [repr]. split; [|apply IH; exact Hf2].
  unfold hdr_is. cbn [baddr bsize bfree]. repeat split.
  - assert (0 <= get_free m a) by (unfold get_free; apply (load_range 4)).
    assert (Hc : get_free m a = 0 \/ get_free m a = 1) by lia.
    destruct Hc as [-> | ->]; reflexivity.
  - apply chain_first. exact H.
Qed.

Lemma wf_check_sound fuel s : wf_check fuel s = true -> wf s.
Proof.
  unfold wf_check.
  destruct (walk fuel (mem_of s) (head s)) as [la|] eqn:W; [|discriminate].
  pose proof (walk_chain _ _ _ _ W) as Hch.
  rewrite !andb_true_iff, !Z.ltb_lt, !Z.leb_le.
  intros (((((H1 & H2) & H3) & H4) & H5) & H6).
  exists (blocks_of (mem_of s) la). unfold wf_with.
  repeat (split; [assumption|]).
  split; [apply chain_first; exact Hch|].
  split; [assumption|].
  split; [apply layoutb_sound; exact H5|].
  eapply chain_repr; eassumption.
Qed.


(* ================================================================== *)
(** ** What [my_free] leaves alone *)

Lemma coal_list_keeps_used L c :
  In c L -> bfree c = false -> In c (coal_list L).
Proof. destruct L; [contradiction|]. apply coal_keeps_used. Qed.

Lemma coal_list_used_from L c :
  In c (coal_list L) -> bfree c = false -> In c L.
Proof. destruct L; [contradiction|]. apply coal_used_from. Qed.

Lemma coal_list_length L : (length (coal_list L) <= length L)%nat.
Proof. destruct L; [cbn; lia|]. apply coal_length. Qed.

(** A used block other than the released one stays in the chain, and no
    byte of its header or payload changes. *)
Lemma my_free_keeps_used l1 b l2 s m' c :
  wf_with (l1 ++ b :: l2) s ->
  let L := l1 ++ mkblk (baddr b) (bsize b) true :: l2 in
  (forall x,
     (forall d, In d L -> bfree d = true ->
                x < baddr d \/ baddr d + BLOCK_SIZE <= x) ->
     m' x = mem_of s x) ->
  In c (l1 ++ b :: l2) -> bfree c = false -> baddr c <> baddr b ->
  In c (coal_list L) /\
  forall x, baddr c <= x < baddr c + BLOCK_SIZE + bsize c -> m' x = mem_of s x.
Proof.
  intros Hwf L Hfr Hc Hcf Hne.
  pose proof (set_free_in_chain _ _ _ _ true Hwf) as (_ & _ & _ & _ & _ & Hlay & _).
  fold L in Hlay. cbn [with_mem brk] in Hlay.
  assert (HcL : In c L).
  { apply in_app_or in Hc. apply in_or_app.
    destruct Hc as [Hc|[->|Hc]]; [left; exact Hc|congruence|right; right; exact Hc]. }
  split; [apply coal_list_keeps_used; assumption|].
  intros x Hx. apply Hfr. intros d Hd Hdf.
  assert (Hdc : baddr c <> baddr d).
  { intros Heq. pose proof (layout_addr_inj _ _ _ _ _ Hlay HcL Hd Heq). congruence. }
  pose proof (layout_disjoint _ _ _ _ _ Hlay HcL Hd Hdc).
  pose proof (layout_In _ _ _ _ Hlay Hd). unfold BLOCK_SIZE in *. lia.
Qed.

(** The released block is no longer a used block of the chain. *)
Lemma my_free_releases l1 b l2 s m' :
  wf_with (l1 ++ b :: l2) s ->
  let L := l1 ++ mkblk (baddr b) (bsize b) true :: l2 in
  wf_with (coal_list L) (with_mem s m') ->
  ~ live (with_mem s m') (baddr b + BLOCK_SIZE).
Proof.
  intros Hwf L Hwf' Hlive.
  pose proof (set_free_in_chain _ _ _ _ true Hwf) as (_ & _ & _ & _ & _ & Hlay & _).
  fold L in Hlay. cbn [with_mem brk] in Hlay.
  destruct (live_block _ _ _ Hwf' Hlive) as (k1 & c & k2 & Hk & Hca & Hcf).
  assert (Hc : In c (coal_list L)) by (rewrite Hk; apply in_or_app; right; left; reflexivity).
  apply coal_list_used_from in Hc; [|exact Hcf].
  assert (HbL : In (mkblk (baddr b) (bsize b) true) L)
    by (apply in_or_app; right; left; reflexivity).
  assert (Heq : baddr c = baddr (mkblk (baddr b) (bsize b) true)) by (cbn; lia).
  pose proof (layout_addr_inj _ _ _ _ _ Hlay Hc HbL Heq). subst c.
  cbn in Hcf. discriminate.
Qed.

(* ================================================================== *)
(** ** Copying into a payload *)

Lemma memcpy_payload_wf l s nb src n :
  wf_with l s -> In nb l -> 0 <= n <= bsize nb ->
  wf_with l (with_mem s (memcpy (mem_of s) (baddr nb + BLOCK_SIZE) src n)).
Proof.
  intros Hwf Hin Hn.
  destruct (in_split _ _ Hin) as (k1 & k2 & ->).
  change (k1 ++ nb :: k2) with (k1 ++ [nb] ++ k2) in *.
  destruct (wf_segments _ _ _ _ Hwf ltac:(discriminate))
    as (a & B & Hl1 & Hm & Hl2 & Ha & Hfa).
  pose proof Hwf as (_ & _ & _ & _ & _ & _ & Hr).
  apply repr_app in Hr. destruct Hr as (_ & Hh & _).
  cbn [first_addr layout] in *. pose proof Hm as (_ & Hs & HB).
  apply (wf_seg_replace s _ k1 [nb] [nb] k2 B); try assumption; try discriminate.
  - cbn [first_addr]. eapply same_out_weaken; [| |apply same_out_memcpy];
      unfold BLOCK_SIZE in *; lia.
  - cbn [repr]. split; [|exact I].
    eapply hdr_is_frame; [|exact Hh].
    intros x Hx. apply same_out_memcpy. lia.
Qed.

Lemma memcpy_copies m dst src n i :
  0 <= i < n -> memcpy m dst src n (dst + i) = m (src + i).
Proof.
  intros Hi. unfold memcpy.
  replace ((dst <=? dst + i) && (dst + i <? dst + n)) with true
    by (symmetry; apply andb_true_iff; rewrite Z.leb_le, Z.ltb_lt; lia).
  f_equal. lia.
Qed.

(* ================================================================== *)
(** ** [my_realloc] on a well-formed heap *)

(** The growing path: nothing happens when the allocation fails; otherwise
    the content moves to a new used block, the old block is released and
    the chain is coalesced. *)
Lemma my_realloc_grow_ok l1 b l2 s size fuel :
  wf_with (l1 ++ b :: l2) s -> bfree b = false ->
  bsize b < size <= MAX_REQUEST ->
  (length (l1 ++ b :: l2) + 2 <= fuel)%nat ->
  exists r s', my_realloc fuel (baddr b + BLOCK_SIZE) size s = Some (r, s') /\
    ((r = NULL /\ s' = s) \/
     (r <> NULL /\ exists l',
        wf_with l' s' /\ no_adj_free l' /\
        (length l' <= length (l1 ++ b :: l2) + 1)%nat /\
        live s' r /\ ~ live s' (baddr b + BLOCK_SIZE) /\
        forall i, 0 <= i < bsize b ->
          mem_of s' (r + i) = mem_of s (baddr b + BLOCK_SIZE + i))).
Proof.
  intros Hwf Hbf Hsz Hfuel.
  assert (Hb : In b (l1 ++ b :: l2)) by (apply in_or_app; right; left; reflexivity).
  destruct (wf_addr_bounds _ _ _ Hwf Hb) as (Hbpos & Hbs & Hbend & Hbrk').
  pose proof Hwf as (_ & _ & _ & _ & _ & _ & Hrepr).
  destruct (repr_In _ _ _ _ Hrepr Hb) as (Hgs & _).
  unfold my_realloc, get_block_ptr.
  replace (baddr b + BLOCK_SIZE =? NULL) with false
    by (symmetry; apply Z.eqb_neq; consts; lia).
  replace (size =? 0) with false by (symmetry; apply Z.eqb_neq; lia).
  replace (baddr b + BLOCK_SIZE - BLOCK_SIZE) with (baddr b) by lia.
  rewrite wrap_small by (consts; lia).
  rewrite Hgs.
  replace (size <=? bsize b) with false by (symmetry; apply Z.leb_gt; lia).
  destruct (my_malloc_ok _ s size fuel Hwf ltac:(lia) ltac:(lia))
    as (r & s1 & -> & [(-> & ->)|(Hr & Hpost)]).
  { exists NULL, s. split; [reflexivity|left; tauto]. }
  replace (r =? NULL) with false by (symmetry; apply Z.eqb_neq; exact Hr).
  destruct Hpost as (l' & nb & Hwf1 & Hnb & Hrnb & Hnbf & Hnbs & Hlen & Hused & Hpay).
  destruct (Hused b Hb Hbf) as (Hb' & Hbnb).
  pose proof Hwf1 as (_ & _ & _ & _ & _ & _ & Hrepr1).
  destruct (repr_In _ _ _ _ Hrepr1 Hb') as (Hgs1 & _).
  rewrite Hgs1.
  destruct (ALIGN_bounds size) as (Hal & _); [consts; lia|].
  subst r.
  pose proof (memcpy_payload_wf l' s1 nb (baddr b + BLOCK_SIZE) (bsize b)
                Hwf1 Hnb ltac:(lia)) as Hwf2.
  set (m2 := memcpy (mem_of s1) (baddr nb + BLOCK_SIZE) (baddr b + BLOCK_SIZE) (bsize b)) in *.
  destruct (in_split _ _ Hb') as (k1 & k2 & Hk). subst l'.
  destruct (my_free_ok k1 b k2 (with_mem s1 m2) fuel Hwf2 ltac:(lia))
    as (m3 & -> & Hwf3 & Hfr).
  cbn [with_mem head brk brk_lo brk_hi mem_of] in *.
  eexists _, _. split; [reflexivity|right]. split; [exact Hr|].
  eexists. split; [exact Hwf3|].
  split; [apply coal_list_no_adj_free|].
  destruct (my_free_keeps_used k1 b k2 (with_mem s1 m2) m3 nb Hwf2 Hfr Hnb Hnbf
              ltac:(congruence)) as (Hnb3 & Hkeep).
  split.
  { etransitivity; [apply coal_list_length|].
    rewrite length_app in *. cbn [length] in *. lia. }
  split; [exact (block_live _ _ _ Hwf3 Hnb3 Hnbf)|].
  split; [exact (my_free_releases k1 b k2 (with_mem s1 m2) m3 Hwf2 Hwf3)|].
  intros i Hi. cbn [mem_of with_mem] in Hkeep.
  rewrite Hkeep by (unfold BLOCK_SIZE in *; lia).
  subst m2. replace (baddr nb + BLOCK_SIZE + i) with ((baddr nb + BLOCK_SIZE) + i) by lia.
  rewrite memcpy_copies by lia.
  apply (Hpay b); [exact Hb|exact Hbf|unfold BLOCK_SIZE in *; lia].
Qed.

(* ================================================================== *)
(** ** Every call of the API on a well-formed heap *)

Lemma my_realloc_shrink_ok l1 b l2 s size :
  wf_with (l1 ++ b :: l2) s -> 0 < size <= bsize b ->
  exists l',
    my_realloc 0 (baddr b + BLOCK_SIZE) size s
    = Some (baddr b + BLOCK_SIZE,
            with_mem s (split_block (mem_of s) (baddr b) size)) /\
    wf_with l' (with_mem s (split_block (mem_of s) (baddr b) size)) /\
    (length l' <= length (l1 ++ b :: l2) + 1)%nat.
Proof.
  intros Hwf Hsz.
  assert (Hb : In b (l1 ++ b :: l2)) by (apply in_or_app; right; left; reflexivity).
  destruct (wf_addr_bounds _ _ _ Hwf Hb) as (Hbpos & Hbs & Hbend & Hbrk').
  pose proof Hwf as (_ & _ & _ & _ & _ & _ & Hrepr).
  destruct (repr_In _ _ _ _ Hrepr Hb) as (Hgs & _).
  unfold my_realloc, get_block_ptr.
  replace (baddr b + BLOCK_SIZE =? NULL) with false
    by (symmetry; apply Z.eqb_neq; consts; lia).
  replace (size =? 0) with false by (symmetry; apply Z.eqb_neq; lia).
  replace (baddr b + BLOCK_SIZE - BLOCK_SIZE) with (baddr b) by lia.
  rewrite wrap_small by (consts; lia).
  rewrite Hgs.
  replace (size <=? bsize b) with true by (symmetry; apply Z.leb_le; lia).
  destruct (split_in_chain l1 b l2 s size Hwf ltac:(lia)) as (mid' & Hwf' & _ & Hcase).
  exists (l1 ++ mid' ++ l2). split; [reflexivity|]. split; [exact Hwf'|].
  rewrite !length_app. cbn [length].
  destruct Hcase as [(_ & ->)|(_ & -> & _)]; cbn [length]; lia.
Qed.

Lemma my_realloc_fuel_irrelevant_shrink fuel p size s :
  p <> NULL -> size <> 0 ->
  size <= get_size (mem_of s) (get_block_ptr p) ->
  my_realloc fuel p size s = my_realloc 0 p size s.
Proof.
  intros Hp Hs Hle. unfold my_realloc.
  apply Z.eqb_neq in Hp. apply Z.eqb_neq in Hs. apply Z.leb_le in Hle.
  rewrite Hp, Hs, Hle. reflexivity.
Qed.

Lemma run_ok l s c fuel :
  wf_with l s -> valid_call s c -> (length l + 2 <= fuel)%nat ->
  exists r s' l', run fuel c s = Some (r, s') /\ wf_with l' s' /\
                  (length l' <= length l + 1)%nat.
Proof.
  intros Hwf Hv Hfuel.
  assert (Hm : forall size, 0 <= size <= MAX_REQUEST ->
    exists r s' l', my_malloc fuel size s = Some (r, s') /\ wf_with l' s' /\
                    (length l' <= length l + 1)%nat).
  { intros size Hsz.
    destruct (my_malloc_ok l s size fuel Hwf Hsz ltac:(lia))
      as (r & s' & Hrun & [(-> & ->)|(_ & l' & nb & Hwf' & _ & _ & _ & _ & Hlen & _)]).
    - exists NULL, s, l. split; [exact Hrun|split; [exact Hwf|lia]].
    - exists r, s', l'. split; [exact Hrun|split; assumption]. }
  assert (Hf : forall p, live s p ->
    exists s' l', my_free fuel p s = Some s' /\ wf_with l' s' /\
                  (length l' <= length l + 1)%nat).
  { intros p Hlive.
    destruct (live_block _ _ _ Hwf Hlive) as (l1 & b & l2 & -> & Hba & Hbf).
    replace p with (baddr b + BLOCK_SIZE) by lia.
    destruct (my_free_ok l1 b l2 s fuel Hwf ltac:(lia)) as (m' & Hrun & Hwf' & _).
    eexists _, _. split; [exact Hrun|]. split; [exact Hwf'|].
    etransitivity; [apply coal_list_length|].
    rewrite !length_app. cbn [length]. lia. }
  destruct c as [size|p|p size]; cbn [run valid_call] in *.
  - apply Hm. exact Hv.
  - destruct Hv as [->|Hlive].
    + exists NULL, s, l. split; [reflexivity|split; [exact Hwf|lia]].
    + destruct (Hf p Hlive) as (s' & l' & -> & Hwf' & Hlen).
      exists NULL, s', l'. split; [reflexivity|split; assumption].
  - destruct Hv as ([->|Hlive] & Hsz).
    + unfold my_realloc. cbn [NULL Z.eqb]. apply Hm. exact Hsz.
    + destruct (Z.eq_dec size 0) as [->|Hnz].
      * destruct (live_block _ _ _ Hwf Hlive) as (l1 & b & l2 & Hl & Hba & Hbf).
        assert (Hb : In b l) by (rewrite Hl; apply in_or_app; right; left; reflexivity).
        destruct (wf_addr_bounds _ _ _ Hwf Hb) as (Hbpos & _).
        unfold my_realloc.
        replace (p =? NULL) with false
          by (symmetry; apply Z.eqb_neq; consts; lia).
        cbn [Z.eqb].
        destruct (Hf p Hlive) as (s' & l' & -> & Hwf' & Hlen).
        exists NULL, s', l'. split; [reflexivity|split; assumption].
      * destruct (live_block _ _ _ Hwf Hlive) as (l1 & b & l2 & -> & Hba & Hbf).
        replace p with (baddr b + BLOCK_SIZE) by lia.
        destruct (Z_le_gt_dec size (bsize b)) as [Hle|Hgt].
        -- destruct (my_realloc_shrink_ok l1 b l2 s size Hwf ltac:(lia))
             as (l' & Hrun & Hwf' & Hlen).
           assert (Hb : In b (l1 ++ b :: l2))
             by (apply in_or_app; right; left; reflexivity).
           destruct (wf_addr_bounds _ _ _ Hwf Hb) as (Hbpos & Hbs & Hbend & Hbrk').
           pose proof Hwf as (_ & _ & _ & _ & _ & _ & Hrepr).
           destruct (repr_In _ _ _ _ Hrepr Hb) as (Hgs & _).
           rewrite my_realloc_fuel_irrelevant_shrink; [| consts; lia | exact Hnz |].
           ++ eexists _, _, l'. split; [exact Hrun|]. split; assumption.
           ++ unfold get_block_ptr.
              replace (baddr b + BLOCK_SIZE - BLOCK_SIZE) with (baddr b) by lia.
              rewrite wrap_small by (consts; lia). rewrite Hgs. exact Hle.
        -- destruct (my_realloc_grow_ok l1 b l2 s size fuel Hwf Hbf ltac:(lia) Hfuel)
             as (r & s' & Hrun & [(-> & ->)|(_ & l' & Hwf' & _ & Hlen & _)]).
           ++ eexists _, _, _. split; [exact Hrun|]. split; [exact Hwf|lia].
           ++ eexists _, _, l'. split; [exact Hrun|]. split; assumption.
Qed.

(* ================================================================== *)
(** ** A failed allocation changes nothing *)

Lemma first_fit_in m size l : forall fuel a e last blk last',
  0 < a -> layout a l e -> repr m l NULL ->
  first_fit_loop fuel m size (first_addr l NULL) last = Some (blk, last') ->
  blk = NULL \/ exists b, In b l /\ baddr b = blk.
Proof.
  induction l as [|b l IH]; intros fuel a e last blk last' Ha Hl Hr Hrun;
    (destruct fuel as [|fuel]; [discriminate|]).
  - cbn in Hrun. injection Hrun as <- _. left. reflexivity.
  - cbn [layout repr first_addr] in *.
    destruct Hl as (Hb & Hs & Hl). destruct Hr as (Hh & Hr).
    cbn [first_fit_loop] in Hrun. rewrite (guard_fits _ _ _ _ Hh) in Hrun.
    replace (baddr b =? NULL) with false in Hrun
      by (symmetry; apply Z.eqb_neq; unfold NULL; lia).
    cbn [negb andb] in Hrun. destruct (fits size b).
    + cbn [negb] in Hrun. injection Hrun as <- _.
      right. exists b. split; [left|]; reflexivity.
    + cbn [negb] in Hrun. destruct Hh as (_ & _ & Hn). rewrite Hn in Hrun.
      assert (Ha' : 0 < a + BLOCK_SIZE + bsize b) by (unfold BLOCK_SIZE; lia).
      destruct (IH _ _ _ _ _ _ Ha' Hl Hr Hrun)
        as [->|(c & Hc & <-)]; [left; reflexivity|].
      right. exists c. split; [right; exact Hc|reflexivity].
Qed.

Lemma request_space_cases last size s :
  brk s < HALF ->
  (request_space last size s = (NULL, s)) \/
  (exists s', request_space last size s = (brk s, s')).
Proof.
  intros Hb. unfold request_space. rewrite sbrk_zero. unfold sbrk.
  assert (Hne : (brk s =? SBRK_FAILED) = false)
    by (apply Z.eqb_neq; unfold SBRK_FAILED, wrap; consts; cbn; lia).
  destruct (wrap (BLOCK_SIZE + size) =? 0).
  - rewrite Hne. right. eexists. reflexivity.
  - destruct ((brk_lo s <=? brk s + signed (wrap (BLOCK_SIZE + size)))
              && (brk s + signed (wrap (BLOCK_SIZE + size)) <=? brk_hi s)).
    + rewrite Hne. right. eexists. reflexivity.
    + destruct ((signed (wrap (BLOCK_SIZE + size)) <? 0)
                && (0 <=? brk s + signed (wrap (BLOCK_SIZE + size)))).
      * rewrite Hne. right. eexists. reflexivity.
      * rewrite Z.eqb_refl. left. reflexivity.
Qed.

(** On a well-formed heap [my_malloc] returns [NULL] only without having
    changed anything, whatever the size. *)
Lemma my_malloc_null l s size fuel s1 :
  wf_with l s -> my_malloc fuel size s = Some (NULL, s1) -> s1 = s.
Proof.
  intros Hwf Hrun.
  pose proof Hwf as (Hlo & Hbrk & Hhi & Hhead & Hfirst & Hlay & Hrepr).
  pose proof (layout_le _ _ _ Hlay) as Hle.
  assert (Hpos : 0 < first_addr l (brk s)) by lia.
  assert (Hbrk0 : (brk s =? NULL) = false) by (apply Z.eqb_neq; unfold NULL; lia).
  assert (Hw : wrap (brk s + BLOCK_SIZE) <> NULL)
    by (rewrite wrap_small; consts; lia).
  unfold my_malloc in Hrun.
  destruct (size <=? 0); [injection Hrun as <-; reflexivity|].
  destruct (head s =? NULL) eqn:Eh.
  - destruct (request_space_cases NULL (ALIGN size) s ltac:(lia)) as [Hq|(s' & Hq)];
      rewrite Hq in Hrun.
    + cbn in Hrun. injection Hrun as <-. reflexivity.
    + rewrite Hbrk0 in Hrun. injection Hrun as Hr _. contradiction.
  - apply Z.eqb_neq in Eh. pose proof (wf_head_nonnull _ _ Hwf Eh) as Hne.
    unfold find_free_block_first_fit in Hrun.
    destruct (first_fit_loop fuel (mem_of s) (ALIGN size) (head s) (head s))
      as [(blk, last)|] eqn:Ef; [|discriminate].
    destruct (blk =? NULL) eqn:Eb.
    + destruct (request_space_cases last (ALIGN size) s ltac:(lia)) as [Hq|(s' & Hq)];
        rewrite Hq in Hrun.
      * cbn in Hrun. injection Hrun as <-. reflexivity.
      * rewrite Hbrk0 in Hrun. injection Hrun as Hr _. contradiction.
    + apply Z.eqb_neq in Eb. injection Hrun as Hr _.
      rewrite Hhead in Ef at 1.
      destruct (first_fit_in _ _ _ _ _ _ _ _ _ Hpos Hlay Hrepr Ef)
        as [->|(b & Hb & <-)]; [congruence|].
      destruct (wf_addr_bounds _ _ _ Hwf Hb) as (Hbpos & Hbs & Hbend & Hbrk').
      rewrite wrap_small in Hr; consts; lia.
Qed.

(* ================================================================== *)
(** ** Best fit *)

Lemma chain_suffix m : forall h l a,
  chain m h l -> In a l -> exists l1 l2, l = l1 ++ a :: l2 /\ chain m a (a :: l2).
Proof.
  intros h l a H. induction H as [|b l Hb H IH]; intros Hin; [contradiction|].
  destruct Hin as [->|Hin].
  - exists [], l. split; [reflexivity|]. constructor; assumption.
  - destruct (IH Hin) as (l1 & l2 & -> & Hc).
    exists (b :: l1), l2. split; [reflexivity|exact Hc].
Qed.

Lemma chain_nodup m : forall h l, chain m h l -> NoDup l.
Proof.
  intros h l H. induction H as [|a l Ha H IH]; constructor; [|exact IH].
  intros Hin. destruct (chain_suffix _ _ _ _ H Hin) as (l1 & l2 & Hl & Hc).
  assert (Hc' : chain m a (a :: l)) by (constructor; assumption).
  pose proof (chain_fun _ _ _ _ Hc Hc') as Heq. injection Heq as Heq.
  apply (f_equal (@length Z)) in Hl. rewrite Heq, length_app in Hl.
  cbn [length] in Hl. lia.
Qed.

Lemma last_snoc (l : list Z) a d : List.last (l ++ [a]) d = a.
Proof.
  induction l as [|b l IH]; [reflexivity|].
  cbn [app]. destruct (l ++ [a]) eqn:E; [destruct l; discriminate|exact IH].
Qed.

(** The loop of the best-fit search, resumed after the blocks [l1] with
    the loop variables in the state [best_fit_result] describes. *)
Lemma best_fit_loop_spec m size : forall l2 l1 fuel cur best bsz last,
  chain m cur l2 -> NoDup (l1 ++ l2) -> (length l2 < fuel)%nat ->
  Forall (fun a => get_size m a < SIZE_MAX) l2 ->
  best_fit_result m size l1 best last ->
  bsz = (if best =? NULL then SIZE_MAX else get_size m best) ->
  exists best' last',
    best_fit_loop fuel m size cur best bsz last = Some (best', last') /\
    best_fit_result m size (l1 ++ l2) best' last'.
Proof.
  induction l2 as [|a l2 IH]; intros l1 fuel cur best bsz last Hch Hnd Hfuel Hsz Hinv Hbsz;
    (destruct fuel as [|fuel]; [cbn in Hfuel; lia|]); inversion Hch; subst cur.
  - cbn. rewrite app_nil_r. exists best, last. split; [reflexivity|exact Hinv].
  - cbn [best_fit_loop].
    match goal with H : a <> NULL |- _ => rename H into Ha end.
    replace (a =? NULL) with false by (symmetry; apply Z.eqb_neq; exact Ha).
    fold (fits_at m size a).
    inversion Hsz as [|? ? Hsa Hsz']; subst.
    assert (Hnd' : NoDup ((l1 ++ [a]) ++ l2))
      by (rewrite <- app_assoc; exact Hnd).
    assert (Hnotin : ~ In a l1).
    { intros Hin. apply NoDup_remove_2 in Hnd. apply Hnd.
      apply in_or_app. left. exact Hin. }
    replace (l1 ++ a :: l2) with ((l1 ++ [a]) ++ l2)
      by (rewrite <- app_assoc; reflexivity).
    destruct Hinv as [(-> & Hnone & ->)|(Hbest & Hfit & ->)].
    + (* nothing has fitted so far *)
      cbn [NULL Z.eqb]. change (0 =? 0) with true. cbv iota.
      destruct (fits_at m size a) eqn:Efit.
      * replace (get_size m a <? SIZE_MAX) with true
          by (symmetry; apply Z.ltb_lt; exact Hsa).
        cbn [andb]. rewrite Z.eqb_refl, orb_true_r.
        apply (IH (l1 ++ [a])); try assumption; [cbn in Hfuel; lia| |].
        -- right. split; [exact Ha|]. split; [|reflexivity].
           exists l1, []. repeat split; try assumption.
           ++ intros x Hx Hfx. rewrite (Hnone x Hx) in Hfx. discriminate.
           ++ intros x [].
        -- replace (a =? NULL) with false
             by (symmetry; apply Z.eqb_neq; exact Ha). reflexivity.
      * cbn [andb]. change (0 =? 0) with true. cbn [orb].
        apply (IH (l1 ++ [a])); try assumption; [cbn in Hfuel; lia| |reflexivity].
        left. split; [reflexivity|]. split; [|symmetry; apply last_snoc].
        intros x Hx. apply in_app_or in Hx.
        destruct Hx as [Hx|[<-|[]]]; [apply Hnone; exact Hx|exact Efit].
    + (* [best] is the best fit so far *)
      replace (best =? NULL) with false
        by (symmetry; apply Z.eqb_neq; exact Hbest).
      destruct Hfit as (k1 & k2 & Hk & Hbfit & Hbefore & Hafter).
      assert (Hbin : In best l1)
        by (rewrite Hk; apply in_or_app; right; left; reflexivity).
      destruct (fits_at m size a && (get_size m a <? get_size m best)) eqn:Ebetter.
      * apply andb_true_iff in Ebetter. destruct Ebetter as (Efit & Elt).
        apply Z.ltb_lt in Elt.
        rewrite Z.eqb_refl, orb_true_r.
        apply (IH (l1 ++ [a])); try assumption; [cbn in Hfuel; lia| |].
        -- right. split; [exact Ha|]. split; [|reflexivity].
           exists l1, []. repeat split; try assumption.
           ++ intros x Hx Hfx. rewrite Hk in Hx. apply in_app_or in Hx.
              destruct Hx as [Hx|[<-|Hx]].
              ** specialize (Hbefore x Hx Hfx). lia.
              ** exact Elt.
              ** specialize (Hafter x Hx Hfx). lia.
           ++ intros x [].
        -- replace (a =? NULL) with false
             by (symmetry; apply Z.eqb_neq; exact Ha). reflexivity.
      * replace (best =? NULL) with false
          by (symmetry; apply Z.eqb_neq; exact Hbest).
        replace (a =? best) with false
          by (symmetry; apply Z.eqb_neq; intros ->; contradiction).
        cbn [orb].
        apply (IH (l1 ++ [a])); try assumption; [cbn in Hfuel; lia| |].
        -- right. split; [exact Hbest|]. split; [|reflexivity].
           exists k1, (k2 ++ [a]). rewrite Hk, <- app_assoc. cbn [app].
           repeat split; try assumption.
           intros x Hx Hfx. apply in_app_or in Hx. destruct Hx as [Hx|[<-|[]]].
           ++ apply Hafter; assumption.
           ++ rewrite Hfx in Ebetter. cbn [andb] in Ebetter.
              apply Z.ltb_ge in Ebetter. exact Ebetter.
        -- replace (best =? NULL) with false
             by (symmetry; apply Z.eqb_neq; exact Hbest). reflexivity.
Qed.

(* ================================================================== *)
(** ** More fuel changes no result *)

Lemma first_fit_loop_mono m size : forall fuel fuel' cur last r,
  (fuel <= fuel')%nat ->
  first_fit_loop fuel m size cur last = Some r ->
  first_fit_loop fuel' m size cur last = Some r.
Proof.
  induction fuel as [|fuel IH]; intros fuel' cur last r Hle H; [discriminate|].
  destruct fuel' as [|fuel']; [lia|].
  cbn [first_fit_loop] in *.
  destruct (negb (cur =? NULL)
            && negb (negb (get_free m cur =? 0) && (size <=? get_size m cur)));
    [|exact H].
  apply IH; [lia|exact H].
Qed.

Lemma coalesce_loop_mono : forall fuel fuel' m cur r,
  (fuel <= fuel')%nat ->
  coalesce_loop fuel m cur = Some r -> coalesce_loop fuel' m cur = Some r.
Proof.
  induction fuel as [|fuel IH]; intros fuel' m cur r Hle H; [discriminate|].
  destruct fuel' as [|fuel']; [lia|].
  cbn [coalesce_loop] in *.
  destruct (negb (cur =? NULL) && negb (get_next m cur =? NULL)); [|exact H].
  destruct (negb (get_free m cur =? 0)
            && negb (get_free m (get_next m cur) =? 0));
    (apply IH; [lia|exact H]).
Qed.

Lemma my_malloc_mono fuel fuel' size s r :
  (fuel <= fuel')%nat ->
  my_malloc fuel size s = Some r -> my_malloc fuel' size s = Some r.
Proof.
  intros Hle H. unfold my_malloc, find_free_block_first_fit in *.
  destruct (size <=? 0); [exact H|].
  destruct (head s =? NULL); [exact H|].
  destruct (first_fit_loop fuel (mem_of s) (ALIGN size) (head s) (head s))
    as [x|] eqn:E; [|discriminate].
  rewrite (first_fit_loop_mono _ _ _ _ _ _ _ Hle E). exact H.
Qed.

Lemma my_free_mono fuel fuel' p s r :
  (fuel <= fuel')%nat ->
  my_free fuel p s = Some r -> my_free fuel' p s = Some r.
Proof.
  intros Hle H. unfold my_free, coalesce in *.
  destruct (p =? NULL); [exact H|].
  destruct (coalesce_loop fuel _ _) as [m|] eqn:E; [|discriminate].
  rewrite (coalesce_loop_mono _ _ _ _ _ Hle E). exact H.
Qed.

Lemma my_realloc_mono fuel fuel' p size s r :
  (fuel <= fuel')%nat ->
  my_realloc fuel p size s = Some r -> my_realloc fuel' p size s = Some r.
Proof.
  intros Hle H. unfold my_realloc in *.
  destruct (p =? NULL); [exact (my_malloc_mono _ _ _ _ _ Hle H)|].
  destruct (size =? 0).
  { destruct (my_free fuel p s) as [s1|] eqn:E; [|discriminate].
    rewrite (my_free_mono _ _ _ _ _ Hle E). exact H. }
  destruct (size <=? get_size (mem_of s) (get_block_ptr p)); [exact H|].
  destruct (my_malloc fuel size s) as [(q, s1)|] eqn:E; [|discriminate].
  rewrite (my_malloc_mono _ _ _ _ _ Hle E).
  destruct (q =? NULL); [exact H|].
  destruct (my_free fuel p _) as [s3|] eqn:E3; [|discriminate].
  rewrite (my_free_mono _ _ _ _ _ Hle E3). exact H.
Qed.

Lemma run_mono fuel fuel' c s r :
  (fuel <= fuel')%nat -> run fuel c s = Some r -> run fuel' c s = Some r.
Proof.
  intros Hle H. destruct c as [size|p|p size]; cbn [run] in *.
  - exact (my_malloc_mono _ _ _ _ _ Hle H).
  - destruct (my_free fuel p s) as [s1|] eqn:E; [|discriminate].
    rewrite (my_free_mono _ _ _ _ _ Hle E). exact H.
  - exact (my_realloc_mono _ _ _ _ _ _ Hle H).
Qed.


(* ================================================================== *)
(** ** The concrete heaps are reachable *)

Lemma reachable_heap0 : reachable heap0.
Proof. apply reach_empty; unfold HALF; lia. Qed.


Lemma reachable_shrink2 : reachable shrink2.
Proof.
  assert (H1 : reachable shrink1).
  { apply (reach_call heap0 (Malloc 80) 8 4120);
      [exact reachable_heap0|cbn; unfold MAX_REQUEST, HALF; lia|].
    vm_compute. reflexivity. }
  apply (reach_call shrink1 (Realloc 4120 5) 8 4120); [exact H1| |].
  - split; [right; apply (live_check_sound 8); vm_compute; reflexivity|].
    unfold MAX_REQUEST, HALF. lia.
  - vm_compute. reflexivity.
Qed.

Lemma reachable_trio4 : reachable trio4.
Proof.
  assert (H1 : reachable trio1).
  { apply (reach_call heap0 (Malloc 8) 8 4120);
      [exact reachable_heap0|cbn; unfold MAX_REQUEST, HALF; lia|].
    vm_compute. reflexivity. }
  assert (H2 : reachable trio2).
  { apply (reach_call trio1 (Malloc 24) 8 4152);
      [exact H1|cbn; unfold MAX_REQUEST, HALF; lia|].
    vm_compute. reflexivity. }
  assert (H3 : reachable trio3).
  { apply (reach_call trio2 (Malloc 80) 8 4200);
      [exact H2|cbn; unfold MAX_REQUEST, HALF; lia|].
    vm_compute. reflexivity. }
  apply (reach_call trio3 (Free 4120) 8 NULL); [exact H3| |].
  - right. apply (live_check_sound 8). vm_compute. reflexivity.
  - vm_compute. reflexivity.
Qed.

(* ================================================================== *)
(** ** The demonstration program *)

Example ALIGN_examples :
  ALIGN 1 = 8 /\ ALIGN 8 = 8 /\ ALIGN 9 = 16 /\ ALIGN 20 = 24 /\
  ALIGN 40 = 40 /\ ALIGN (WORD - 1) = 0.
Proof. repeat apply conj; vm_compute; reflexivity. Qed.

(** Three allocations of 40, 80 and 20 bytes: three used blocks. *)
Example three_allocations :
  print_memory_map 8 heap3
  = Some [(false, 40, 4160); (false, 80, 4264); (false, 24, 0)] /\
  head heap3 = 4096 /\ brk heap3 = 4312.
Proof. repeat apply conj; vm_compute; reflexivity. Qed.

(** Releasing the middle block: used, free, used; nothing to merge. *)
Example release_middle :
  print_memory_map 8 heap4
  = Some [(false, 40, 4160); (true, 80, 4264); (false, 24, 0)].
Proof. vm_compute. reflexivity. Qed.

(** Allocating 60 bytes reuses the freed block; 80 is too small to split
    off a block after 64 bytes, and the break does not move. *)
Example reuse_freed_block :
  run 8 (Malloc 60) heap4 = Some (4184, heap5) /\
  print_memory_map 8 heap5
  = Some [(false, 40, 4160); (false, 80, 4264); (false, 24, 0)] /\
  brk heap5 = brk heap4.
Proof. repeat apply conj; vm_compute; reflexivity. Qed.

(** Allocating 24 bytes into the free block of 80 splits it. *)
Example split_on_reuse :
  print_memory_map 8 (state_after (run 8 (Malloc 24) heap4) heap4)
  = Some [(false, 40, 4160); (false, 24, 4208); (true, 32, 4264);
          (false, 24, 0)].
Proof. vm_compute. reflexivity. Qed.

(** Releasing the first and the third block: no two free neighbours. *)
Example release_outer :
  print_memory_map 8 heap7
  = Some [(true, 40, 4160); (false, 80, 4264); (true, 24, 0)].
Proof. vm_compute. reflexivity. Qed.

(** Releasing the middle block between two free blocks collapses the three
    into one in a single pass. *)
Example release_collapses_three :
  print_memory_map 8 (state_after (run 8 (Free 4184) heap7) heap7)
  = Some [(true, 192, 0)].
Proof. vm_compute. reflexivity. Qed.

(** Growing the middle block to 120 bytes appends a block, and the release
    of the old block merges the three free blocks into one. *)
Example grow_middle :
  ptr_of (run 8 (Realloc 4184 120) heap7) = 4336 /\
  print_memory_map 8 (state_after (run 8 (Realloc 4184 120) heap7) heap7)
  = Some [(true, 192, 4312); (false, 120, 0)].
Proof. split; vm_compute; reflexivity. Qed.

(* ================================================================== *)
(** ** The coalescing pass, run by run *)







(* ================================================================== *)
(** ** Heaps reached with sizes beyond [MAX_REQUEST] *)







(* ================================================================== *)
(** ** The ledger invariant (C1) *)

(** C1, as stated, fails: from the empty heap, [my_malloc(2^64 - 8)]
    succeeds with a break moved by only 16 bytes, because
    [BLOCK_SIZE + size] wraps; the following [my_malloc(8)] then writes the
    new header over the first block's [next] field.  Both calls succeed,
    the ledger invariant holds before the second call and not after it:
    the chain from [head] is then 4096, 8. *)
Lemma ledger_broken_by_overflow :
  run 8 (Malloc (WORD - 8)) heap0 = Some (4120, huge1) /\
  run 8 (Malloc 8) huge1 = Some (4136, huge2) /\
  ledger_inv heap0 /\ ledger_inv huge1 /\ ~ ledger_inv huge2.
Proof.
  split; [vm_compute; reflexivity|].
  split; [vm_compute; reflexivity|].
  split; [apply (ledger_check_spec 8 heap0 []); vm_compute; reflexivity|].
  split; [apply (ledger_check_spec 8 huge1 [4096]); vm_compute; reflexivity|].
  intros H. apply (ledger_check_spec 8 huge2 [4096; 8]) in H;
    [|vm_compute; reflexivity].
  vm_compute in H. discriminate.
Qed.

(** C1 (amended): every call of the public API whose pointer argument is
    [NULL] or live and whose size is at most [MAX_REQUEST] returns, given
    enough fuel, and takes a well-formed heap to a well-formed heap; in a
    well-formed heap the ledger invariant holds: the chain from [head] is
    in strictly increasing address order and each block begins
    [BLOCK_SIZE] plus its predecessor's size after its predecessor. *)
Theorem api_preserves_ledger s c :
  wf s -> valid_call s c ->
  exists n, forall fuel, (n <= fuel)%nat ->
    exists r s', run fuel c s = Some (r, s') /\ wf s' /\ ledger_inv s'.
Proof.
  intros (l & Hwf) Hv. exists (length l + 2)%nat. intros fuel Hfuel.
  destruct (run_ok l s c fuel Hwf Hv Hfuel) as (r & s' & l' & Hrun & Hwf' & _).
  exists r, s'. split; [exact Hrun|]. split; [exists l'; exact Hwf'|].
  exact (wf_ledger _ _ Hwf').
Qed.

Lemma api_preserves_ledger_witness :
  wf heap3 /\ valid_call heap3 (Realloc 4184 200) /\
  exists n, forall fuel, (n <= fuel)%nat ->
    exists r s', run fuel (Realloc 4184 200) heap3 = Some (r, s') /\
                 wf s' /\ ledger_inv s'.
Proof.
  assert (Hwf : wf heap3) by (apply (wf_check_sound 8); vm_compute; reflexivity).
  assert (Hv : valid_call heap3 (Realloc 4184 200)).
  { split; [right; apply (live_check_sound 8); vm_compute; reflexivity|].
    unfold MAX_REQUEST, HALF. lia. }
  split; [exact Hwf|]. split; [exact Hv|].
  exact (api_preserves_ledger heap3 (Realloc 4184 200) Hwf Hv).
Defined.

(* ================================================================== *)
(** ** Release (C2, C10) *)







(* ================================================================== *)
(** ** Alignment (C3, C4) *)

Lemma sizes_aligned_check fuel s la :
  walk fuel (mem_of s) (head s) = Some la ->
  sizes_aligned s <->
  Forall (fun a => get_size (mem_of s) a mod ALIGNMENT = 0) la.
Proof.
  intros W. pose proof (walk_chain _ _ _ _ W) as Hch. split.
  - intros (l & Hl & H). rewrite (chain_fun _ _ _ _ Hch Hl). exact H.
  - intros H. exists la. tauto.
Qed.

(** C3 at its failing input: [my_realloc] passes the raw size to
    [split_block], where [my_malloc] passes [ALIGN(size)].  After
    [p = my_malloc(80)], in a heap whose sizes are all multiples of 8,
    [my_realloc(p, 5)] shrinks the block in place to size 5 and creates a
    free block of size 51. *)
Lemma realloc_shrink_misaligns :
  run 8 (Malloc 80) heap0 = Some (4120, shrink1) /\
  run 8 (Realloc 4120 5) shrink1 = Some (4120, shrink2) /\
  live shrink1 4120 /\ reachable shrink2 /\
  sizes_aligned shrink1 /\
  get_size (mem_of shrink2) 4096 = 5 /\
  get_size (mem_of shrink2) 4125 = 51 /\
  ~ sizes_aligned shrink2.
Proof.
  split; [vm_compute; reflexivity|].
  split; [vm_compute; reflexivity|].
  split; [apply (live_check_sound 8); vm_compute; reflexivity|].
  split; [exact reachable_shrink2|].
  split.
  { apply (sizes_aligned_check 8 shrink1 [4096]); [vm_compute; reflexivity|].
    constructor; [vm_compute; reflexivity|constructor]. }
  split; [vm_compute; reflexivity|].
  split; [vm_compute; reflexivity|].
  intros H. apply (sizes_aligned_check 8 shrink2 [4096; 4125]) in H;
    [|vm_compute; reflexivity].
  inversion H as [|? ? H1 _]. vm_compute in H1. discriminate.
Qed.

(** C4 at its failing input: in the reachable heap left by the shrinking
    [my_realloc] above, [my_malloc(8)] reuses the free block at 4125 and
    returns 4149, which is 5 modulo 8. *)
Lemma malloc_after_shrink_misaligned :
  reachable shrink2 /\
  run 8 (Malloc 8) shrink2 = Some (4149, shrink3) /\
  4149 mod ALIGNMENT = 5.
Proof.
  split; [exact reachable_shrink2|]. split; vm_compute; reflexivity.
Qed.

(* ================================================================== *)
(** ** Best fit (C5) *)

(** C5, as stated, fails: on the chain of a free block of 16 bytes at 4096
    followed by a used block of 8 bytes at 4136, the search for 8 bytes
    returns the block at 4096 and sets [last] to 4096, not to the final
    node 4136. *)
Lemma best_fit_last_not_tail :
  chain (mem_of pair3) (head pair3) [4096; 4136] /\
  find_free_block_best_fit 8 pair3 8 = Some (4096, 4096) /\
  List.last [4096; 4136] NULL = 4136.
Proof.
  split; [apply (walk_chain 8); vm_compute; reflexivity|].
  split; vm_compute; reflexivity.
Qed.

(** C5 (amended): on every non-empty chain whose block sizes are below
    [SIZE_MAX], for every requested size, [find_free_block_best_fit]
    returns, given enough fuel, [NULL] when no block satisfies the request,
    and then [last] is the final node of the chain; otherwise it returns
    the smallest block that satisfies the request, the earliest of equal
    ones, and then [last] is that block. *)
Theorem best_fit_spec s la size :
  chain (mem_of s) (head s) la -> la <> [] ->
  Forall (fun a => get_size (mem_of s) a < SIZE_MAX) la ->
  forall fuel, (length la < fuel)%nat ->
    exists best last,
      find_free_block_best_fit fuel s size = Some (best, last) /\
      best_fit_result (mem_of s) size la best last.
Proof.
  intros Hch _ Hsz fuel Hfuel. unfold find_free_block_best_fit.
  apply (best_fit_loop_spec (mem_of s) size la [] fuel (head s) NULL SIZE_MAX NULL);
    try assumption.
  - exact (chain_nodup _ _ _ Hch).
  - left. repeat split. intros a [].
  - reflexivity.
Qed.

Lemma best_fit_spec_witness :
  chain (mem_of pair3) (head pair3) [4096; 4136] /\
  [4096; 4136] <> [] /\
  Forall (fun a => get_size (mem_of pair3) a < SIZE_MAX) [4096; 4136] /\
  (length [4096; 4136] < 8)%nat /\
  exists best last,
    find_free_block_best_fit 8 pair3 8 = Some (best, last) /\
    best_fit_result (mem_of pair3) 8 [4096; 4136] best last.
Proof.
  assert (Hch : chain (mem_of pair3) (head pair3) [4096; 4136])
    by (apply (walk_chain 8); vm_compute; reflexivity).
  assert (Hne : [4096; 4136] <> []) by discriminate.
  assert (Hsz : Forall (fun a => get_size (mem_of pair3) a < SIZE_MAX) [4096; 4136])
    by (repeat constructor).
  assert (Hf : (length [4096; 4136] < 8)%nat) by (cbn; lia).
  split; [exact Hch|]. split; [exact Hne|]. split; [exact Hsz|]. split; [exact Hf|].
  exact (best_fit_spec pair3 [4096; 4136] 8 Hch Hne Hsz 8%nat Hf).
Defined.

(* ================================================================== *)
(** ** Splitting (C6) *)

(** C6, as stated, fails for a block that does not fit in the address
    space.  [my_malloc(2^64 - 8)] on the empty heap creates the block at
    4096 with capacity [C = 2^64 - 8].  [my_realloc] of its pointer to the
    aligned size [r = 2^64 - 32] passes the guard [block->size >= size] and
    calls [split_block(block, r)]: [C - r - BLOCK_SIZE] is 0, below the
    alignment, yet the sum [r + BLOCK_SIZE + ALIGNMENT] of the comparison
    wraps to 0 and the block is split: its size field becomes [r]. *)
Lemma split_block_wraps :
  let m := mem_of huge1 in
  let C := get_size m 4096 in
  let r := WORD - 32 in
  run 8 (Malloc (WORD - 8)) heap0 = Some (4120, huge1) /\
  C = WORD - 8 /\ r mod ALIGNMENT = 0 /\ 0 <= r <= C /\
  C - r - BLOCK_SIZE < ALIGNMENT /\
  my_realloc 8 4120 r huge1
  = Some (4120, with_mem huge1 (split_block m 4096 r)) /\
  get_size (split_block m 4096 r) 4096 = r /\ r <> C.
Proof.
  cbv zeta.
  split; [vm_compute; reflexivity|].
  split; [vm_compute; reflexivity|].
  split; [vm_compute; reflexivity|].
  split; [vm_compute; split; congruence|].
  split; [vm_compute; reflexivity|].
  split; [reflexivity|].
  split; [vm_compute; reflexivity|].
  vm_compute. congruence.
Qed.

(** C6 (amended): for a block that lies inside the address space (its
    address is at least 8 and its payload ends below [2^64]), of capacity
    [C], and an aligned request [r] of at most [C]: if
    [C - r - BLOCK_SIZE >= ALIGNMENT] then after [split_block] the block has
    size [r], its successor is a free block of size [C - r - BLOCK_SIZE] at
    the old payload start plus [r], linked to the old successor, and the
    two sizes plus one header sum to [C]; if
    [C - r - BLOCK_SIZE < ALIGNMENT] the block is left whole: memory is
    left as it was. *)
Theorem split_block_spec m block r :
  ALIGNMENT <= block -> 0 <= r <= get_size m block -> r mod ALIGNMENT = 0 ->
  block + BLOCK_SIZE + get_size m block < WORD ->
  let C := get_size m block in
  let m' := split_block m block r in
  let nb := block + BLOCK_SIZE + r in
  (ALIGNMENT <= C - r - BLOCK_SIZE ->
     get_size m' block = r /\ get_next m' block = nb /\
     get_free m' block = get_free m block /\
     get_size m' nb = C - r - BLOCK_SIZE /\ get_free m' nb = 1 /\
     get_next m' nb = get_next m block /\
     get_size m' block + BLOCK_SIZE + get_size m' nb = C) /\
  (C - r - BLOCK_SIZE < ALIGNMENT -> m' = m).
Proof.
  intros Hb Hr _ Hfit C m' nb. subst C m' nb. split.
  - intros Hbig.
    pose proof (get_size_range m block) as HC.
    unfold split_block. unfold BLOCK_SIZE, ALIGNMENT, WORD in *.
    rewrite (wrap_small (r + 24)) by (unfold WORD; lia).
    rewrite (wrap_small (r + 24 + 8)) by (unfold WORD; lia).
    rewrite (wrap_small (block + 24)) by (unfold WORD; lia).
    rewrite (wrap_small (block + 24 + r)) by (unfold WORD; lia).
    rewrite (wrap_small (get_size m block - r)) by (unfold WORD; lia).
    rewrite (wrap_small (get_size m block - r - 24)) by (unfold WORD; lia).
    replace (r + 24 + 8 <=? get_size m block) with true
      by (symmetry; apply Z.leb_le; lia).
    fields. memsimpl. repeat split; lia.
  - intros Hsmall. apply split_block_whole;
      unfold BLOCK_SIZE, ALIGNMENT, WORD in *; lia.
Qed.

Lemma split_block_spec_witness :
  let m := mem_of heap3 in
  ALIGNMENT <= 4160 /\ 0 <= 24 <= get_size m 4160 /\ 24 mod ALIGNMENT = 0 /\
  4160 + BLOCK_SIZE + get_size m 4160 < WORD /\
  let C := get_size m 4160 in
  let m' := split_block m 4160 24 in
  let nb := 4160 + BLOCK_SIZE + 24 in
  (ALIGNMENT <= C - 24 - BLOCK_SIZE ->
     get_size m' 4160 = 24 /\ get_next m' 4160 = nb /\
     get_free m' 4160 = get_free m 4160 /\
     get_size m' nb = C - 24 - BLOCK_SIZE /\ get_free m' nb = 1 /\
     get_next m' nb = get_next m 4160 /\
     get_size m' 4160 + BLOCK_SIZE + get_size m' nb = C) /\
  (C - 24 - BLOCK_SIZE < ALIGNMENT -> m' = m).
Proof.
  intros m.
  assert (H1 : ALIGNMENT <= 4160) by (vm_compute; congruence).
  assert (H2 : 0 <= 24 <= get_size m 4160) by (vm_compute; split; congruence).
  assert (H3 : 24 mod ALIGNMENT = 0) by reflexivity.
  assert (H4 : 4160 + BLOCK_SIZE + get_size m 4160 < WORD)
    by (vm_compute; reflexivity).
  split; [exact H1|]. split; [exact H2|]. split; [exact H3|]. split; [exact H4|].
  exact (split_block_spec m 4160 24 H1 H2 H3 H4).
Defined.

(* ================================================================== *)
(** ** Refused extension (C7, C8) *)

(** C7: in every state, if [my_malloc(size)] gets as far as asking [sbrk]
    for [BLOCK_SIZE + ALIGN(size)] bytes and [sbrk] refuses, then
    [my_malloc] returns [NULL] and the state it leaves, [head], break and
    every byte of memory, is the state it was called in. *)
Theorem malloc_denied_unchanged fuel size s :
  malloc_extends fuel size s ->
  sbrk_refuses (wrap (BLOCK_SIZE + ALIGN size)) s ->
  my_malloc fuel size s = Some (NULL, s).
Proof.
  intros (Hsz & Hext) Href. unfold my_malloc.
  replace (size <=? 0) with false by (symmetry; apply Z.leb_gt; exact Hsz).
  assert (Hreq : forall last, request_space last (ALIGN size) s = (NULL, s)).
  { intros last. unfold request_space. rewrite sbrk_zero. rewrite Href.
    rewrite Z.eqb_refl. reflexivity. }
  destruct (head s =? NULL) eqn:Eh.
  - rewrite Hreq. reflexivity.
  - destruct Hext as [Hh|(last & Hfit)].
    + apply Z.eqb_neq in Eh. contradiction.
    + rewrite Hfit. cbn [NULL Z.eqb]. change (0 =? 0) with true. cbv iota.
      rewrite Hreq. reflexivity.
Qed.

Lemma malloc_denied_unchanged_witness :
  malloc_extends 8 100 tight1 /\
  sbrk_refuses (wrap (BLOCK_SIZE + ALIGN 100)) tight1 /\
  my_malloc 8 100 tight1 = Some (NULL, tight1).
Proof.
  assert (H1 : malloc_extends 8 100 tight1).
  { split; [lia|]. right. exists 4096. vm_compute. reflexivity. }
  assert (H2 : sbrk_refuses (wrap (BLOCK_SIZE + ALIGN 100)) tight1)
    by (vm_compute; reflexivity).
  split; [exact H1|]. split; [exact H2|].
  exact (malloc_denied_unchanged 8 100 tight1 H1 H2).
Defined.

(** C8: in a well-formed heap, for a live pointer [p] to a block of
    capacity smaller than [size], if the allocation inside
    [my_realloc(p, size)] returns [NULL] then [my_realloc] returns [NULL]
    and leaves the state it was called in: [p] is still live, and the size
    and the payload bytes of its block are what they were. *)
Theorem realloc_failure_keeps_block fuel s p size s1 :
  wf s -> live s p ->
  get_size (mem_of s) (p - BLOCK_SIZE) < size ->
  my_malloc fuel size s = Some (NULL, s1) ->
  exists s', my_realloc fuel p size s = Some (NULL, s') /\
    s' = s /\ live s' p /\
    get_size (mem_of s') (p - BLOCK_SIZE) = get_size (mem_of s) (p - BLOCK_SIZE) /\
    forall i, 0 <= i < get_size (mem_of s) (p - BLOCK_SIZE) ->
              mem_of s' (p + i) = mem_of s (p + i).
Proof.
  intros (l & Hwf) Hlive Hcap Hrun.
  pose proof (my_malloc_null _ _ _ _ _ Hwf Hrun). subst s1.
  destruct (live_block _ _ _ Hwf Hlive) as (l1 & b & l2 & Hl & Hba & Hbf).
  assert (Hb : In b l) by (rewrite Hl; apply in_or_app; right; left; reflexivity).
  destruct (wf_addr_bounds _ _ _ Hwf Hb) as (Hbpos & Hbs & Hbend & Hbrk').
  pose proof (get_size_range (mem_of s) (p - BLOCK_SIZE)) as Hrange.
  exists s. split; [|repeat split; assumption].
  unfold my_realloc, get_block_ptr.
  replace (p =? NULL) with false by (symmetry; apply Z.eqb_neq; consts; lia).
  replace (size =? 0) with false by (symmetry; apply Z.eqb_neq; lia).
  rewrite wrap_small by (consts; lia).
  replace (size <=? get_size (mem_of s) (p - BLOCK_SIZE)) with false
    by (symmetry; apply Z.leb_gt; lia).
  rewrite Hrun. reflexivity.
Qed.

Lemma realloc_failure_keeps_block_witness :
  wf tight1 /\ live tight1 4120 /\
  get_size (mem_of tight1) (4120 - BLOCK_SIZE) < 100 /\
  my_malloc 8 100 tight1 = Some (NULL, tight1) /\
  exists s', my_realloc 8 4120 100 tight1 = Some (NULL, s') /\
    s' = tight1 /\ live s' 4120 /\
    get_size (mem_of s') (4120 - BLOCK_SIZE)
    = get_size (mem_of tight1) (4120 - BLOCK_SIZE) /\
    forall i, 0 <= i < get_size (mem_of tight1) (4120 - BLOCK_SIZE) ->
              mem_of s' (4120 + i) = mem_of tight1 (4120 + i).
Proof.
  assert (Hwf : wf tight1) by (apply (wf_check_sound 8); vm_compute; reflexivity).
  assert (Hl : live tight1 4120)
    by (apply (live_check_sound 8); vm_compute; reflexivity).
  assert (Hc : get_size (mem_of tight1) (4120 - BLOCK_SIZE) < 100)
    by (vm_compute; reflexivity).
  assert (Hm : my_malloc 8 100 tight1 = Some (NULL, tight1))
    by (vm_compute; reflexivity).
  split; [exact Hwf|]. split; [exact Hl|]. split; [exact Hc|]. split; [exact Hm|].
  exact (realloc_failure_keeps_block 8 tight1 4120 100 tight1 Hwf Hl Hc Hm).
Defined.

(* ================================================================== *)
(** ** Growing reallocation (C9) *)

(** C9, as stated, fails: [ALIGN(2^64 - 1)] wraps to 0.  In the heap of a
    free block of 8 bytes at 4096, a used block of 24 bytes at 4128 and the
    used block of 80 bytes at 4176, with payload 4200,
    [my_realloc(4200, 2^64 - 1)] takes the free block, returns its payload
    4120 and copies the 80 bytes from 4200 to 4120, a range that ends at
    4200 and covers the header of the old block; releasing the old block
    then sets its free flag, which is byte 64 of the new payload, to 1,
    where the old payload had 0. *)
Lemma realloc_overflow_clobbers :
  reachable trio4 /\ live trio4 4200 /\
  get_size (mem_of trio4) (4200 - BLOCK_SIZE) = 80 /\
  ptr_of (my_realloc 8 4200 (WORD - 1) trio4) = 4120 /\
  64 < Z.min 80 (WORD - 1) /\
  mem_of trio4 (4200 + 64) = 0 /\
  mem_of (state_after (my_realloc 8 4200 (WORD - 1) trio4) trio4) (4120 + 64) = 1.
Proof.
  split; [exact reachable_trio4|].
  split; [apply (live_check_sound 8); vm_compute; reflexivity|].
  repeat apply conj; vm_compute; reflexivity.
Qed.

(** C9 (amended): in a well-formed heap, for a live pointer [p] to a block
    of capacity smaller than [size] and [size] at most [MAX_REQUEST],
    [my_realloc(p, size)] returns, given enough fuel; when the result is
    not [NULL] it is a live pointer whose first [min(old size, size)]
    payload bytes are the old block's payload bytes at the call, it
    differs from [p], [p] is no longer live, and the chain has been
    coalesced. *)
Theorem realloc_grow_preserves s p size :
  wf s -> live s p ->
  get_size (mem_of s) (p - BLOCK_SIZE) < size <= MAX_REQUEST ->
  exists n, forall fuel, (n <= fuel)%nat ->
    exists r s', my_realloc fuel p size s = Some (r, s') /\
      (r <> NULL ->
         r <> p /\ live s' r /\
         (forall i, 0 <= i < Z.min (get_size (mem_of s) (p - BLOCK_SIZE)) size ->
                    mem_of s' (r + i) = mem_of s (p + i)) /\
         ~ live s' p /\ no_adjacent_free s').
Proof.
  intros (l & Hwf) Hlive Hsz. exists (length l + 2)%nat. intros fuel Hfuel.
  destruct (live_block _ _ _ Hwf Hlive) as (l1 & b & l2 & Hl & Hba & Hbf).
  subst l.
  assert (Hb : In b (l1 ++ b :: l2)) by (apply in_or_app; right; left; reflexivity).
  pose proof Hwf as (_ & _ & _ & _ & _ & _ & Hrepr).
  destruct (repr_In _ _ _ _ Hrepr Hb) as (Hgs & _).
  rewrite <- Hba, Hgs in *.
  replace p with (baddr b + BLOCK_SIZE) in * by lia.
  destruct (my_realloc_grow_ok l1 b l2 s size fuel Hwf Hbf Hsz Hfuel)
    as (r & s' & Hrun & [(-> & ->)|(Hr & l' & Hwf' & Hnaf & _ & Hlr & Hnl & Hcopy)]).
  - exists NULL, s. split; [exact Hrun|]. intros H. contradiction.
  - exists r, s'. split; [exact Hrun|]. intros _.
    split; [intros ->; contradiction|].
    split; [exact Hlr|]. split; [|split; [exact Hnl|]].
    + intros i Hi. rewrite <- Z.add_assoc, Z.add_assoc. apply Hcopy. lia.
    + exact (wf_no_adj_free _ _ Hwf' Hnaf).
Qed.

Lemma realloc_grow_preserves_witness :
  wf heap3 /\ live heap3 4184 /\
  get_size (mem_of heap3) (4184 - BLOCK_SIZE) < 200 <= MAX_REQUEST /\
  exists n, forall fuel, (n <= fuel)%nat ->
    exists r s', my_realloc fuel 4184 200 heap3 = Some (r, s') /\
      (r <> NULL ->
         r <> 4184 /\ live s' r /\
         (forall i, 0 <= i < Z.min (get_size (mem_of heap3) (4184 - BLOCK_SIZE)) 200 ->
                    mem_of s' (r + i) = mem_of heap3 (4184 + i)) /\
         ~ live s' 4184 /\ no_adjacent_free s').
Proof.
  assert (Hwf : wf heap3) by (apply (wf_check_sound 8); vm_compute; reflexivity).
  assert (Hl : live heap3 4184)
    by (apply (live_check_sound 8); vm_compute; reflexivity).
  assert (Hs : get_size (mem_of heap3) (4184 - BLOCK_SIZE) < 200 <= MAX_REQUEST)
    by (split; vm_compute; congruence).
  split; [exact Hwf|]. split; [exact Hl|]. split; [exact Hs|].
  exact (realloc_grow_preserves heap3 4184 200 Hwf Hl Hs).
Defined.

(* ================================================================== *)
(** ** [my_malloc], case by case *)

Lemma fits_at_block l s size b :
  wf_with l s -> In b l -> fits_at (mem_of s) size (baddr b) = fits size b.
Proof.
  intros (_ & _ & _ & _ & _ & _ & Hr) Hin.
  destruct (repr_In _ _ _ _ Hr Hin) as (Hs & Hf).
  unfold fits_at, fits. rewrite Hs, Hf, b2z_nonzero. reflexivity.
Qed.

(** On a well-formed heap [my_malloc] either finds no fitting block and
    asks for more memory, appending a block at the break when it is
    granted, or takes the first fitting block, splitting it when the rest
    can hold a header and 8 bytes. *)
Lemma my_malloc_cases l s size fuel :
  wf_with l s -> 0 < size <= MAX_REQUEST -> (length l < fuel)%nat ->
  ((forall b, In b l -> fits (ALIGN size) b = false) /\
   ((brk_hi s < brk s + BLOCK_SIZE + ALIGN size /\
     my_malloc fuel size s = Some (NULL, s)) \/
    (brk s + BLOCK_SIZE + ALIGN size <= brk_hi s /\
     exists s', my_malloc fuel size s = Some (brk s + BLOCK_SIZE, s') /\
       wf_with (l ++ [mkblk (brk s) (ALIGN size) false]) s' /\
       brk s' = brk s + BLOCK_SIZE + ALIGN size /\
       (forall b x, In b l ->
          baddr b + BLOCK_SIZE <= x < baddr b + BLOCK_SIZE + bsize b ->
          mem_of s' x = mem_of s x)))) \/
  (exists l1 b l2 mid', l = l1 ++ b :: l2 /\
     (forall c, In c l1 -> fits (ALIGN size) c = false) /\
     fits (ALIGN size) b = true /\
     exists s', my_malloc fuel size s = Some (baddr b + BLOCK_SIZE, s') /\
       wf_with (l1 ++ mid' ++ l2) s' /\ brk s' = brk s /\
       same_out (baddr b) (baddr b + BLOCK_SIZE + bsize b) (mem_of s) (mem_of s') /\
       ((ALIGN size + BLOCK_SIZE + ALIGNMENT <= bsize b /\
         mid' = [mkblk (baddr b) (ALIGN size) false;
                 mkblk (baddr b + BLOCK_SIZE + ALIGN size)
                       (bsize b - ALIGN size - BLOCK_SIZE) true]) \/
        (bsize b < ALIGN size + BLOCK_SIZE + ALIGNMENT /\
         mid' = [mkblk (baddr b) (bsize b) false]))).
Proof.
  intros Hwf Hsz Hfuel. unfold my_malloc.
  replace (size <=? 0) with false by (symmetry; apply Z.leb_gt; lia).
  destruct (ALIGN_bounds size) as (Hal & _); [consts; lia|].
  set (asize := ALIGN size) in *.
  pose proof Hwf as (Hlo & Hbrk & Hhi & Hhead & Hfirst & Hlay & Hrepr).
  pose proof (layout_le _ _ _ Hlay) as Hle.
  assert (Hpos : 0 < first_addr l (brk s)) by lia.
  assert (Hbrk0 : (brk s =? NULL) = false) by (apply Z.eqb_neq; unfold NULL; lia).
  destruct (head s =? NULL) eqn:Eh.
  - apply Z.eqb_eq in Eh. pose proof (wf_head_null _ _ Hwf Eh). subst l.
    left. split; [intros b []|].
    destruct (request_space_ok [] s asize Hwf) as [(Hfull & Hrq)|(Hroom & m' & Hrq & Hr & Hfr)];
      try (consts; lia); change (last_addr [] NULL) with NULL in Hrq; rewrite Hrq.
    + left. split; [exact Hfull|reflexivity].
    + right. split; [exact Hroom|]. rewrite Hbrk0.
      rewrite wrap_small by (consts; lia).
      eexists. split; [reflexivity|].
      split; [exact (request_space_wf [] s asize m' Hwf ltac:(lia) Hroom Hr)|].
      split; [reflexivity|]. intros b x [].
  - apply Z.eqb_neq in Eh. pose proof (wf_head_nonnull _ _ Hwf Eh) as Hne.
    unfold find_free_block_first_fit.
    destruct (first_fit_split asize l) as [Hmiss|(l1 & b & l2 & Heq & Hmiss & Hfit)].
    + left. split; [exact Hmiss|].
      rewrite Hhead.
      rewrite (first_fit_miss _ _ _ fuel _ _ (first_addr l NULL)
                 Hpos Hlay Hrepr Hmiss Hfuel).
      cbn [Z.eqb NULL]. change (0 =? 0) with true. cbv iota.
      rewrite (last_addr_nonempty l _ NULL Hne).
      destruct (request_space_ok l s asize Hwf) as [(Hfull & ->)|(Hroom & m' & -> & Hr & Hfr)];
        try (consts; lia).
      * left. split; [exact Hfull|reflexivity].
      * right. split; [exact Hroom|]. rewrite Hbrk0.
        rewrite wrap_small by (consts; lia).
        eexists. split; [reflexivity|].
        pose proof (request_space_wf l s asize m' Hwf ltac:(lia) Hroom Hr) as Hwf'.
        rewrite first_addr_app in Hwf'.
        replace (first_addr l (first_addr [mkblk (brk s) asize false] NULL))
          with (head s) in Hwf'
          by (rewrite Hhead; destruct l; [congruence|reflexivity]).
        split; [exact Hwf'|]. split; [reflexivity|].
        intros c x Hc Hx. cbn [mem_of with_mem].
        pose proof (layout_In _ _ _ _ Hlay Hc) as Hcb.
        apply Hfr; [lia|].
        destruct (exists_last Hne) as (l' & lb & Hl). rewrite Hl in *.
        rewrite last_addr_app.
        destruct (Z.eq_dec (baddr c) (baddr lb)) as [Hsame|Hdiff].
        -- unfold BLOCK_SIZE in *. lia.
        -- assert (Hlb : In lb (l' ++ [lb]))
             by (apply in_or_app; right; left; reflexivity).
           pose proof (layout_disjoint _ _ _ _ _ Hlay Hc Hlb Hdiff).
           pose proof (layout_In _ _ _ _ Hlay Hlb).
           unfold BLOCK_SIZE in *. lia.
    + right. subst l.
      assert (Hb : In b (l1 ++ b :: l2)) by (apply in_or_app; right; left; reflexivity).
      destruct (wf_addr_bounds _ _ _ Hwf Hb) as (Hbpos & Hbs & Hbend & Hbrk').
      rewrite (layout_first _ _ _ NULL Hlay Hne) in Hhead.
      rewrite Hhead.
      rewrite (first_fit_hit _ _ _ _ _ fuel _ _ _ (first_addr (l1 ++ b :: l2) (brk s))
                 Hpos Hlay Hrepr Hmiss Hfit);
        [|rewrite length_app in Hfuel; cbn in Hfuel; lia].
      replace (baddr b =? NULL) with false
        by (symmetry; apply Z.eqb_neq; unfold NULL; lia).
      rewrite wrap_small by (consts; lia).
      pose proof Hfit as Hfit'.
      unfold fits in Hfit'. apply andb_true_iff in Hfit'. destruct Hfit' as (Hbf & Hbsz).
      apply Z.leb_le in Hbsz.
      destruct (split_in_chain l1 b l2 s asize Hwf ltac:(lia))
        as (mid' & Hwf1 & Hsame1 & Hcase).
      set (m1 := split_block (mem_of s) (baddr b) asize) in *.
      assert (Hsame2 : same_out (baddr b) (baddr b + BLOCK_SIZE + bsize b)
                                (mem_of s) (set_free m1 (baddr b) 0)).
      { eapply same_out_trans; [exact Hsame1|].
        eapply same_out_weaken; [| |apply same_out_set_free];
          unfold BLOCK_SIZE in *; lia. }
      destruct Hcase as [(Hbig & ->)|(Hsmall & -> & _)].
      * change (l1 ++ [mkblk (baddr b) asize (bfree b);
                        mkblk (baddr b + BLOCK_SIZE + asize)
                              (bsize b - asize - BLOCK_SIZE) true] ++ l2)
          with (l1 ++ mkblk (baddr b) asize (bfree b) ::
                  (mkblk (baddr b + BLOCK_SIZE + asize)
                         (bsize b - asize - BLOCK_SIZE) true :: l2)) in Hwf1.
        pose proof (set_free_in_chain _ _ _ _ false Hwf1) as Hwf2.
        cbn [baddr bsize mem_of with_mem Z.b2z] in Hwf2.
        exists l1, b, l2. eexists. split; [reflexivity|].
        split; [exact Hmiss|]. split; [exact Hfit|].
        eexists. split; [reflexivity|].
        split; [|split; [reflexivity|split; [exact Hsame2|left; split; [exact Hbig|reflexivity]]]].
        exact Hwf2.
      * change (l1 ++ [b] ++ l2) with (l1 ++ b :: l2) in Hwf1.
        pose proof (set_free_in_chain _ _ _ _ false Hwf1) as Hwf2.
        cbn [baddr bsize mem_of with_mem Z.b2z] in Hwf2.
        exists l1, b, l2. eexists. split; [reflexivity|].
        split; [exact Hmiss|]. split; [exact Hfit|].
        eexists. split; [reflexivity|].
        split; [|split; [reflexivity|split; [exact Hsame2|right; split; [exact Hsmall|reflexivity]]]].
        exact Hwf2.
Qed.

(* ================================================================== *)
(** ** What a successful allocation guarantees *)

Lemma wf_get_size l s b :
  wf_with l s -> In b l -> get_size (mem_of s) (baddr b) = bsize b.
Proof.
  intros (_ & _ & _ & _ & _ & _ & Hr) Hin.
  exact (proj1 (repr_In _ _ _ _ Hr Hin)).
Qed.

Lemma in_middle {A} (l1 l2 : list A) b : In b (l1 ++ b :: l2).
Proof. apply in_or_app. right. left. reflexivity. Qed.

(** X1: First-fit placement: [my_malloc] takes the first block of the chain
    that is free and holds [ALIGN(size)] bytes, and the break stays where
    it is; only when no block fits does it ask for [BLOCK_SIZE +
    ALIGN(size)] more bytes, and the new block then starts at the old
    break. *)
Theorem malloc_placement s size la :
  wf s -> 0 < size <= MAX_REQUEST -> chain (mem_of s) (head s) la ->
  exists n, forall fuel, (n <= fuel)%nat ->
    exists r s', my_malloc fuel size s = Some (r, s') /\
      ((exists l1 a l2, la = l1 ++ a :: l2 /\
          (forall c, In c l1 -> fits_at (mem_of s) (ALIGN size) c = false) /\
          fits_at (mem_of s) (ALIGN size) a = true /\
          r = a + BLOCK_SIZE /\ brk s' = brk s) \/
       ((forall a, In a la -> fits_at (mem_of s) (ALIGN size) a = false) /\
        ((brk_hi s < brk s + BLOCK_SIZE + ALIGN size /\ r = NULL /\ s' = s) \/
         (brk s + BLOCK_SIZE + ALIGN size <= brk_hi s /\
          r = brk s + BLOCK_SIZE /\
          brk s' = brk s + BLOCK_SIZE + ALIGN size)))).
Proof.
  intros (l & Hwf) Hsz Hch. exists (S (length l)). intros fuel Hfuel.
  pose proof (chain_fun _ _ _ _ Hch (wf_chain _ _ Hwf)). subst la.
  destruct (my_malloc_cases l s size fuel Hwf Hsz ltac:(lia))
    as [(Hmiss & Hext)|(l1 & b & l2 & mid' & -> & Hmiss & Hfit & s' & Hrun & _ & Hbrk & _)].
  - assert (Hmiss' : forall a, In a (map baddr l) ->
                       fits_at (mem_of s) (ALIGN size) a = false).
    { intros a Ha. apply in_map_iff in Ha. destruct Ha as (b & <- & Hb).
      rewrite (fits_at_block _ _ _ _ Hwf Hb). apply Hmiss. exact Hb. }
    destruct Hext as [(Hfull & Hrun)|(Hroom & s' & Hrun & _ & Hbrk & _)].
    + exists NULL, s. split; [exact Hrun|]. right. split; [exact Hmiss'|].
      left. repeat split. exact Hfull.
    + exists (brk s + BLOCK_SIZE), s'. split; [exact Hrun|]. right.
      split; [exact Hmiss'|]. right. repeat split; assumption.
  - exists (baddr b + BLOCK_SIZE), s'. split; [exact Hrun|]. left.
    exists (map baddr l1), (baddr b), (map baddr l2).
    split; [rewrite map_app; reflexivity|].
    split; [|split; [|split; [reflexivity|exact Hbrk]]].
    + intros a Ha. apply in_map_iff in Ha. destruct Ha as (c & <- & Hc).
      rewrite (fits_at_block _ _ _ _ Hwf (in_or_app _ _ _ (or_introl Hc))).
      apply Hmiss. exact Hc.
    + rewrite (fits_at_block _ _ _ _ Hwf (in_middle l1 l2 b)). exact Hfit.
Qed.

Lemma malloc_placement_witness :
  wf heap4 /\ 0 < 60 <= MAX_REQUEST /\
  chain (mem_of heap4) (head heap4) [4096; 4160; 4264] /\
  exists n, forall fuel, (n <= fuel)%nat ->
    exists r s', my_malloc fuel 60 heap4 = Some (r, s') /\
      ((exists l1 a l2, [4096; 4160; 4264] = l1 ++ a :: l2 /\
          (forall c, In c l1 -> fits_at (mem_of heap4) (ALIGN 60) c = false) /\
          fits_at (mem_of heap4) (ALIGN 60) a = true /\
          r = a + BLOCK_SIZE /\ brk s' = brk heap4) \/
       ((forall a, In a [4096; 4160; 4264] ->
           fits_at (mem_of heap4) (ALIGN 60) a = false) /\
        ((brk_hi heap4 < brk heap4 + BLOCK_SIZE + ALIGN 60 /\ r = NULL /\ s' = heap4) \/
         (brk heap4 + BLOCK_SIZE + ALIGN 60 <= brk_hi heap4 /\
          r = brk heap4 + BLOCK_SIZE /\
          brk s' = brk heap4 + BLOCK_SIZE + ALIGN 60)))).
Proof.
  assert (Hwf : wf heap4) by (apply (wf_check_sound 8); vm_compute; reflexivity).
  assert (Hs : 0 < 60 <= MAX_REQUEST) by (split; vm_compute; congruence).
  assert (Hc : chain (mem_of heap4) (head heap4) [4096; 4160; 4264])
    by (apply (walk_chain 8); vm_compute; reflexivity).
  split; [exact Hwf|]. split; [exact Hs|]. split; [exact Hc|].
  exact (malloc_placement heap4 60 [4096; 4160; 4264] Hwf Hs Hc).
Defined.

(** X2: Internal fragmentation is bounded: the block behind a pointer returned
    by [my_malloc(size)] holds at least [ALIGN(size)] bytes and fewer than
    [ALIGN(size) + BLOCK_SIZE + ALIGNMENT]. *)
Theorem malloc_capacity s size :
  wf s -> 0 < size <= MAX_REQUEST ->
  exists n, forall fuel, (n <= fuel)%nat ->
    exists r s', my_malloc fuel size s = Some (r, s') /\
      (r <> NULL ->
       ALIGN size <= get_size (mem_of s') (r - BLOCK_SIZE)
                  < ALIGN size + BLOCK_SIZE + ALIGNMENT).
Proof.
  intros (l & Hwf) Hsz. exists (S (length l)). intros fuel Hfuel.
  destruct (my_malloc_cases l s size fuel Hwf Hsz ltac:(lia))
    as [(_ & [(_ & Hrun)|(_ & s' & Hrun & Hwf' & _)])
       |(l1 & b & l2 & mid' & -> & _ & Hfit & s' & Hrun & Hwf' & _ & _ & Hcase)].
  - exists NULL, s. split; [exact Hrun|]. intros H. contradiction.
  - exists (brk s + BLOCK_SIZE), s'. split; [exact Hrun|]. intros _.
    replace (brk s + BLOCK_SIZE - BLOCK_SIZE) with (brk s) by lia.
    pose proof (wf_get_size _ _ (mkblk (brk s) (ALIGN size) false) Hwf'
                  (in_middle l [] _)) as Hg.
    cbn [baddr bsize] in Hg. rewrite Hg. unfold BLOCK_SIZE, ALIGNMENT. lia.
  - exists (baddr b + BLOCK_SIZE), s'. split; [exact Hrun|]. intros _.
    replace (baddr b + BLOCK_SIZE - BLOCK_SIZE) with (baddr b) by lia.
    unfold fits in Hfit. apply andb_true_iff in Hfit. destruct Hfit as (_ & Hle).
    apply Z.leb_le in Hle.
    destruct Hcase as [(Hbig & ->)|(Hsmall & ->)].
    + pose proof (wf_get_size _ _ (mkblk (baddr b) (ALIGN size) false) Hwf'
                    (in_middle l1 _ _)) as Hg.
      cbn [baddr bsize] in Hg. rewrite Hg. unfold BLOCK_SIZE, ALIGNMENT. lia.
    + pose proof (wf_get_size _ _ (mkblk (baddr b) (bsize b) false) Hwf'
                    (in_middle l1 _ _)) as Hg.
      cbn [baddr bsize] in Hg. rewrite Hg. lia.
Qed.

Lemma malloc_capacity_witness :
  wf heap4 /\ 0 < 60 <= MAX_REQUEST /\
  exists n, forall fuel, (n <= fuel)%nat ->
    exists r s', my_malloc fuel 60 heap4 = Some (r, s') /\
      (r <> NULL ->
       ALIGN 60 <= get_size (mem_of s') (r - BLOCK_SIZE)
                < ALIGN 60 + BLOCK_SIZE + ALIGNMENT).
Proof.
  assert (Hwf : wf heap4) by (apply (wf_check_sound 8); vm_compute; reflexivity).
  assert (Hs : 0 < 60 <= MAX_REQUEST) by (split; vm_compute; congruence).
  split; [exact Hwf|]. split; [exact Hs|].
  exact (malloc_capacity heap4 60 Hwf Hs).
Defined.

(** X3: On a well-formed heap, a pointer returned by [my_malloc(size)]
    with [0 < size <= MAX_REQUEST] is fresh: it is live afterwards and was
    not before, its block holds at least [size] bytes, every pointer that
    was live stays live with the size and payload bytes it had, and no
    such payload overlaps the new block. *)
Theorem malloc_fresh s size :
  wf s -> 0 < size <= MAX_REQUEST ->
  exists n, forall fuel, (n <= fuel)%nat ->
    exists r s', my_malloc fuel size s = Some (r, s') /\
      (r <> NULL ->
       live s' r /\ ~ live s r /\
       size <= get_size (mem_of s') (r - BLOCK_SIZE) /\
       forall q, live s q ->
         live s' q /\
         get_size (mem_of s') (q - BLOCK_SIZE) = get_size (mem_of s) (q - BLOCK_SIZE) /\
         (forall i, 0 <= i < get_size (mem_of s) (q - BLOCK_SIZE) ->
                    mem_of s' (q + i) = mem_of s (q + i)) /\
         (q + get_size (mem_of s) (q - BLOCK_SIZE) <= r - BLOCK_SIZE \/
          r + get_size (mem_of s') (r - BLOCK_SIZE) <= q - BLOCK_SIZE)).
Proof.
  intros (l & Hwf) Hsz. exists (S (length l)). intros fuel Hfuel.
  destruct (my_malloc_ok l s size fuel Hwf ltac:(lia) ltac:(lia))
    as (r & s' & Hrun & [(-> & ->)|(Hr & l' & nb & Hwf' & Hnb & -> & Hnbf & Hcap & _ & Hused & Hpay)]).
  { exists NULL, s. split; [exact Hrun|]. intros H. contradiction. }
  exists (baddr nb + BLOCK_SIZE), s'. split; [exact Hrun|]. intros _.
  destruct (ALIGN_bounds size) as (Hal & _); [consts; lia|].
  replace (baddr nb + BLOCK_SIZE - BLOCK_SIZE) with (baddr nb) by lia.
  rewrite (wf_get_size _ _ _ Hwf' Hnb).
  split; [exact (block_live _ _ _ Hwf' Hnb Hnbf)|].
  split.
  { intros Hlive. destruct (live_block _ _ _ Hwf Hlive) as (k1 & c & k2 & -> & Hca & Hcf).
    destruct (Hused c (in_middle k1 k2 c) Hcf) as (_ & Hne). lia. }
  split; [lia|].
  intros q Hq. destruct (live_block _ _ _ Hwf Hq) as (k1 & c & k2 & -> & Hca & Hcf).
  pose proof (in_middle k1 k2 c) as Hc.
  destruct (Hused c Hc Hcf) as (Hc' & Hne).
  replace q with (baddr c + BLOCK_SIZE) by lia.
  replace (baddr c + BLOCK_SIZE - BLOCK_SIZE) with (baddr c) by lia.
  rewrite (wf_get_size _ _ _ Hwf' Hc'), (wf_get_size _ _ _ Hwf Hc).
  split; [exact (block_live _ _ _ Hwf' Hc' Hcf)|]. split; [reflexivity|].
  split.
  - intros i Hi. apply (Hpay c); [exact Hc|exact Hcf|lia].
  - pose proof Hwf' as (_ & _ & _ & _ & _ & Hlay' & _).
    pose proof (layout_disjoint _ _ _ _ _ Hlay' Hc' Hnb Hne). lia.
Qed.

Lemma malloc_fresh_witness :
  wf heap4 /\ 0 < 60 <= MAX_REQUEST /\
  exists n, forall fuel, (n <= fuel)%nat ->
    exists r s', my_malloc fuel 60 heap4 = Some (r, s') /\
      (r <> NULL ->
       live s' r /\ ~ live heap4 r /\
       60 <= get_size (mem_of s') (r - BLOCK_SIZE) /\
       forall q, live heap4 q ->
         live s' q /\
         get_size (mem_of s') (q - BLOCK_SIZE) = get_size (mem_of heap4) (q - BLOCK_SIZE) /\
         (forall i, 0 <= i < get_size (mem_of heap4) (q - BLOCK_SIZE) ->
                    mem_of s' (q + i) = mem_of heap4 (q + i)) /\
         (q + get_size (mem_of heap4) (q - BLOCK_SIZE) <= r - BLOCK_SIZE \/
          r + get_size (mem_of s') (r - BLOCK_SIZE) <= q - BLOCK_SIZE)).
Proof.
  assert (Hwf : wf heap4) by (apply (wf_check_sound 8); vm_compute; reflexivity).
  assert (Hs : 0 < 60 <= MAX_REQUEST) by (split; vm_compute; congruence).
  split; [exact Hwf|]. split; [exact Hs|].
  exact (malloc_fresh heap4 60 Hwf Hs).
Defined.

(* ================================================================== *)
(** ** Adjacent free blocks *)

Lemma no_adj_free_of_repr m l : forall t,
  repr m l t ->
  adjacent (fun x x' => ~ (get_free m x <> 0 /\ get_free m x' <> 0))
           (map baddr l) ->
  no_adj_free l.
Proof.
  induction l as [|b l IH]; intros t Hr Ha; [exact I|].
  destruct l as [|c l]; [exact I|].
  cbn [repr] in Hr. destruct Hr as ((_ & Hfb & _) & Hr).
  pose proof Hr as ((_ & Hfc & _) & _).
  cbn [map adjacent] in Ha. destruct Ha as (Hbc & Ha).
  cbn [no_adj_free]. split; [|exact (IH _ Hr Ha)].
  rewrite Hfb, Hfc in Hbc.
  destruct (bfree b), (bfree c); try reflexivity.
  exfalso. apply Hbc. cbn. lia.
Qed.

Lemma wf_no_adj_free_inv l s :
  wf_with l s -> no_adjacent_free s -> no_adj_free l.
Proof.
  intros Hwf (la & Hch & Ha).
  pose proof (chain_fun _ _ _ _ Hch (wf_chain _ _ Hwf)). subst la.
  destruct Hwf as (_ & _ & _ & _ & _ & _ & Hr).
  eapply no_adj_free_of_repr; eassumption.
Qed.

Lemma no_adj_free_app l1 : forall b l2,
  no_adj_free (l1 ++ b :: l2) <->
  no_adj_free (l1 ++ [b]) /\ no_adj_free (b :: l2).
Proof.
  induction l1 as [|a l1 IH]; intros b l2.
  - cbn [app]. split; [intros H; split; [exact I|exact H]|tauto].
  - destruct l1 as [|a' l1].
    + cbn [app no_adj_free]. tauto.
    + specialize (IH b l2). cbn [app no_adj_free] in *. tauto.
Qed.

Lemma no_adj_free_snoc_used l1 : forall b,
  no_adj_free l1 -> bfree b = false -> no_adj_free (l1 ++ [b]).
Proof.
  induction l1 as [|a l1 IH]; intros b H Hb; [exact I|].
  destruct l1 as [|a' l1].
  - cbn [app no_adj_free]. rewrite Hb, andb_false_r. tauto.
  - cbn [app no_adj_free] in *. destruct H as (H1 & H2).
    split; [exact H1|]. exact (IH b H2 Hb).
Qed.

Lemma no_adj_free_init l1 : forall b, no_adj_free (l1 ++ [b]) -> no_adj_free l1.
Proof.
  induction l1 as [|a l1 IH]; intros b H; [exact I|].
  destruct l1 as [|a' l1]; [exact I|].
  cbn [app no_adj_free] in *. destruct H as (H1 & H2).
  split; [exact H1|]. exact (IH b H2).
Qed.

Lemma no_adj_free_tail b l : no_adj_free (b :: l) -> no_adj_free l.
Proof. destruct l; cbn [no_adj_free]; tauto. Qed.

Lemma no_adj_free_cons_used b l :
  no_adj_free l -> bfree b = false -> no_adj_free (b :: l).
Proof.
  intros H Hb. destruct l as [|c l]; [exact I|].
  cbn [no_adj_free]. rewrite Hb. cbn [andb]. tauto.
Qed.

(** X4: [my_malloc] never creates two adjacent free blocks: a block split off
    a free block is followed by a used block, and an appended block is
    used. *)
Theorem malloc_keeps_no_adjacent_free s size :
  wf s -> no_adjacent_free s -> 0 < size <= MAX_REQUEST ->
  exists n, forall fuel, (n <= fuel)%nat ->
    exists r s', my_malloc fuel size s = Some (r, s') /\ no_adjacent_free s'.
Proof.
  intros (l & Hwf) Hnaf Hsz. exists (S (length l)). intros fuel Hfuel.
  pose proof (wf_no_adj_free_inv _ _ Hwf Hnaf) as Hn.
  destruct (my_malloc_cases l s size fuel Hwf Hsz ltac:(lia))
    as [(_ & [(_ & Hrun)|(_ & s' & Hrun & Hwf' & _)])
       |(l1 & b & l2 & mid' & -> & _ & Hfit & s' & Hrun & Hwf' & _ & _ & Hcase)].
  - exists NULL, s. split; [exact Hrun|exact Hnaf].
  - eexists _, s'. split; [exact Hrun|].
    apply (wf_no_adj_free _ _ Hwf'). apply no_adj_free_snoc_used; [exact Hn|reflexivity].
  - eexists _, s'. split; [exact Hrun|].
    apply (wf_no_adj_free _ _ Hwf').
    unfold fits in Hfit. apply andb_true_iff in Hfit. destruct Hfit as (Hbf & _).
    apply no_adj_free_app in Hn. destruct Hn as (Hn1 & Hn2).
    apply no_adj_free_init in Hn1.
    destruct Hcase as [(_ & ->)|(_ & ->)]; cbn [app].
    + apply no_adj_free_app. split.
      * apply no_adj_free_snoc_used; [exact Hn1|reflexivity].
      * apply no_adj_free_cons_used; [|reflexivity].
        destruct l2 as [|c l2]; [exact I|].
        cbn [no_adj_free bfree] in *. rewrite Hbf in Hn2. exact Hn2.
    + apply no_adj_free_app. split.
      * apply no_adj_free_snoc_used; [exact Hn1|reflexivity].
      * apply no_adj_free_cons_used; [|reflexivity].
        exact (no_adj_free_tail _ _ Hn2).
Qed.

Lemma malloc_keeps_no_adjacent_free_witness :
  wf heap4 /\ no_adjacent_free heap4 /\ 0 < 24 <= MAX_REQUEST /\
  exists n, forall fuel, (n <= fuel)%nat ->
    exists r s', my_malloc fuel 24 heap4 = Some (r, s') /\ no_adjacent_free s'.
Proof.
  assert (Hwf : wf heap4) by (apply (wf_check_sound 8); vm_compute; reflexivity).
  assert (Hn : no_adjacent_free heap4).
  { exists [4096; 4160; 4264].
    split; [apply (walk_chain 8); vm_compute; reflexivity|].
    cbn [adjacent]. repeat apply conj; try exact I;
      intros (H1 & H2); vm_compute in H1, H2; congruence. }
  assert (Hs : 0 < 24 <= MAX_REQUEST) by (split; vm_compute; congruence).
  split; [exact Hwf|]. split; [exact Hn|]. split; [exact Hs|].
  exact (malloc_keeps_no_adjacent_free heap4 24 Hwf Hn Hs).
Defined.

Lemma coalesce_loop_noop l : forall cur l0 m fuel a e,
  0 < a -> layout a (l0 ++ cur :: l) e ->
  repr m (l0 ++ cur :: l) NULL -> no_adj_free (cur :: l) ->
  (length l < fuel)%nat ->
  coalesce_loop fuel m (baddr cur) = Some m.
Proof.
  induction l as [|c l IH]; intros cur l0 m fuel a e Ha Hlay Hrepr Hn Hfuel;
    (destruct fuel as [|fuel]; [cbn in Hfuel; lia|]).
  - pose proof Hrepr as Hr. apply repr_app in Hr.
    destruct Hr as (_ & (_ & _ & Hnx) & _). cbn [first_addr] in Hnx.
    cbn [coalesce_loop]. rewrite Hnx. cbn [NULL Z.eqb negb andb].
    rewrite andb_false_r. reflexivity.
  - pose proof Hrepr as Hr. apply repr_app in Hr.
    destruct Hr as (_ & (Hcs & Hcf & Hcn) & (Hds & Hdf & Hdn) & _).
    cbn [first_addr] in Hcn.
    pose proof Hlay as Hl. apply layout_app in Hl.
    destruct Hl as (A & Hl0 & HA & Hs0 & Hbc & Hs1 & Hl').
    pose proof (layout_le _ _ _ Hl0).
    cbn [coalesce_loop]. rewrite Hcn.
    replace (baddr cur =? NULL) with false
      by (symmetry; apply Z.eqb_neq; unfold NULL; lia).
    replace (baddr c =? NULL) with false
      by (symmetry; apply Z.eqb_neq; unfold NULL, BLOCK_SIZE in *; lia).
    cbn [negb andb]. rewrite Hcf, Hdf, !b2z_nonzero.
    cbn [no_adj_free] in Hn. destruct Hn as (Hbc' & Hn). rewrite Hbc'.
    replace (l0 ++ cur :: c :: l) with ((l0 ++ [cur]) ++ c :: l) in Hlay, Hrepr
      by (rewrite <- app_assoc; reflexivity).
    apply (IH c (l0 ++ [cur]) m fuel a e Ha Hlay Hrepr Hn). cbn in Hfuel. lia.
Qed.

(** X5: [coalesce] on a chain without two adjacent free blocks writes nothing:
    the state is returned as it is.  In particular a second pass after
    [my_free] changes nothing. *)
Theorem coalesce_without_pairs s :
  wf s -> no_adjacent_free s ->
  exists n, forall fuel, (n <= fuel)%nat -> coalesce fuel s = Some s.
Proof.
  intros (l & Hwf) Hnaf. exists (S (length l)). intros fuel Hfuel.
  pose proof (wf_no_adj_free_inv _ _ Hwf Hnaf) as Hn.
  pose proof Hwf as (Hlo & Hbrk & Hhi & Hhead & Hfirst & Hlay & Hrepr).
  unfold coalesce.
  assert (Hrun : coalesce_loop fuel (mem_of s) (head s) = Some (mem_of s)).
  { destruct l as [|b l].
    - cbn in Hhead. rewrite Hhead. destruct fuel; [lia|]. reflexivity.
    - cbn [first_addr] in *. rewrite Hhead.
      apply (coalesce_loop_noop l b [] (mem_of s) fuel (baddr b) (brk s));
        try assumption; [lia|cbn [length] in Hfuel; lia]. }
  rewrite Hrun. destruct s; reflexivity.
Qed.

Lemma coalesce_without_pairs_witness :
  wf heap7 /\ no_adjacent_free heap7 /\
  exists n, forall fuel, (n <= fuel)%nat -> coalesce fuel heap7 = Some heap7.
Proof.
  assert (Hwf : wf heap7) by (apply (wf_check_sound 8); vm_compute; reflexivity).
  assert (Hn : no_adjacent_free heap7).
  { exists [4096; 4160; 4264].
    split; [apply (walk_chain 8); vm_compute; reflexivity|].
    cbn [adjacent]. repeat apply conj; try exact I;
      intros (H1 & H2); vm_compute in H1, H2; congruence. }
  split; [exact Hwf|]. split; [exact Hn|].
  exact (coalesce_without_pairs heap7 Hwf Hn).
Defined.

(* ================================================================== *)
(** ** The arena only grows *)

Lemma request_space_arena last size s blk s1 :
  0 <= size -> BLOCK_SIZE + size < HALF ->
  request_space last size s = (blk, s1) ->
  brk s <= brk s1 /\ brk_lo s1 = brk_lo s /\ brk_hi s1 = brk_hi s /\
  head s1 = head s.
Proof.
  intros Hs Hmax. unfold request_space. rewrite sbrk_zero.
  rewrite wrap_small by (consts; lia).
  rewrite sbrk_grow by (consts; lia).
  assert (Hn : 0 <= BLOCK_SIZE + size) by (unfold BLOCK_SIZE; lia).
  set (n := BLOCK_SIZE + size) in *. clearbody n.
  destruct ((brk_lo s <=? brk s + n) && (brk s + n <=? brk_hi s)).
  - destruct (brk s =? SBRK_FAILED); intros H; injection H as _ <-;
      cbn [with_mem with_brk head brk brk_lo brk_hi]; lia.
  - rewrite Z.eqb_refl. intros H. injection H as _ <-. lia.
Qed.

Lemma my_malloc_arena fuel size s r s' :
  0 <= size <= MAX_REQUEST ->
  my_malloc fuel size s = Some (r, s') ->
  brk s <= brk s' /\ brk_lo s' = brk_lo s /\ brk_hi s' = brk_hi s /\
  (head s <> NULL -> head s' = head s).
Proof.
  intros Hsz. unfold my_malloc.
  destruct (size <=? 0) eqn:E0.
  { intros H. injection H as _ <-. repeat split; lia. }
  apply Z.leb_gt in E0.
  destruct (ALIGN_bounds size) as (Hal & _); [consts; lia|].
  assert (Ha : 0 <= ALIGN size) by lia.
  assert (Hb : BLOCK_SIZE + ALIGN size < HALF) by (consts; lia).
  destruct (head s =? NULL) eqn:Eh.
  - apply Z.eqb_eq in Eh.
    destruct (request_space NULL (ALIGN size) s) as (blk, s1) eqn:Er.
    destruct (request_space_arena _ _ _ _ _ Ha Hb Er) as (H1 & H2 & H3 & H4).
    destruct (blk =? NULL); intros H; injection H as _ <-;
      cbn [with_head head brk brk_lo brk_hi]; repeat split; try lia; congruence.
  - unfold find_free_block_first_fit.
    destruct (first_fit_loop fuel (mem_of s) (ALIGN size) (head s) (head s))
      as [(blk, last)|]; [|discriminate].
    destruct (blk =? NULL).
    + destruct (request_space last (ALIGN size) s) as (blk', s1) eqn:Er.
      destruct (request_space_arena _ _ _ _ _ Ha Hb Er) as (H1 & H2 & H3 & H4).
      destruct (blk' =? NULL); intros H; injection H as _ <-;
        repeat split; try lia; congruence.
    + intros H. injection H as _ <-.
      cbn [with_mem head brk brk_lo brk_hi]. repeat split; lia.
Qed.

Lemma my_free_arena fuel p s s' :
  my_free fuel p s = Some s' ->
  brk s' = brk s /\ brk_lo s' = brk_lo s /\ brk_hi s' = brk_hi s /\
  head s' = head s.
Proof.
  unfold my_free, coalesce.
  destruct (p =? NULL); [intros H; injection H as <-; tauto|].
  cbn [with_mem head brk brk_lo brk_hi mem_of].
  destruct (coalesce_loop fuel _ _); [|discriminate].
  intros H. injection H as <-. cbn. tauto.
Qed.

Lemma run_arena fuel c s r s' :
  sized c -> run fuel c s = Some (r, s') ->
  brk s <= brk s' /\ brk_lo s' = brk_lo s /\ brk_hi s' = brk_hi s /\
  (head s <> NULL -> head s' = head s).
Proof.
  intros Hsz Hrun. destruct c as [size|p|p size]; cbn [run sized] in *.
  - exact (my_malloc_arena _ _ _ _ _ Hsz Hrun).
  - destruct (my_free fuel p s) as [s1|] eqn:E; [|discriminate].
    injection Hrun as _ <-.
    destruct (my_free_arena _ _ _ _ E) as (H1 & H2 & H3 & H4).
    repeat split; try lia; congruence.
  - unfold my_realloc in Hrun.
    destruct (p =? NULL); [exact (my_malloc_arena _ _ _ _ _ Hsz Hrun)|].
    destruct (size =? 0).
    { destruct (my_free fuel p s) as [s1|] eqn:E; [|discriminate].
      injection Hrun as _ <-.
      destruct (my_free_arena _ _ _ _ E) as (H1 & H2 & H3 & H4).
      repeat split; try lia; congruence. }
    destruct (size <=? get_size (mem_of s) (get_block_ptr p)).
    { injection Hrun as _ <-. cbn [with_mem head brk brk_lo brk_hi].
      repeat split; lia. }
    destruct (my_malloc fuel size s) as [(q, s1)|] eqn:Em; [|discriminate].
    destruct (my_malloc_arena _ _ _ _ _ Hsz Em) as (H1 & H2 & H3 & H4).
    destruct (q =? NULL).
    { injection Hrun as _ <-. tauto. }
    destruct (my_free fuel p _) as [s3|] eqn:Ef; [|discriminate].
    injection Hrun as _ <-.
    destruct (my_free_arena _ _ _ _ Ef) as (G1 & G2 & G3 & G4).
    cbn [with_mem head brk brk_lo brk_hi] in *.
    repeat split; try lia; try congruence.
Qed.

(** The stores of [request_space]: the [next] field of [last] and the
    header at the old break. *)
Lemma request_space_frame last size s r s1 :
  request_space last size s = (r, s1) ->
  forall x, last = NULL \/ x < last + 16 \/ last + BLOCK_SIZE <= x ->
            x < brk s \/ brk s + BLOCK_SIZE <= x ->
            mem_of s1 x = mem_of s x.
Proof.
  unfold request_space. rewrite sbrk_zero.
  pose proof (sbrk_mem (wrap (BLOCK_SIZE + size)) s) as Hm.
  destruct (sbrk (wrap (BLOCK_SIZE + size)) s) as (request, s0).
  cbn [snd] in Hm.
  destruct (request =? SBRK_FAILED).
  - intros H. injection H as _ <-. intros x _ _. rewrite Hm. reflexivity.
  - intros H. injection H as _ <-. intros x Hl Hb.
    cbn [mem_of with_mem]. rewrite Hm. unfold BLOCK_SIZE in *.
    fields. rewrite !store_outside by (cbn; lia).
    destruct (last =? NULL) eqn:E; [reflexivity|].
    apply Z.eqb_neq in E. apply store_outside. cbn. lia.
Qed.

Lemma last_addr_in l d : l <> [] -> exists b, In b l /\ last_addr l d = baddr b.
Proof.
  intros Hne. destruct (exists_last Hne) as (l' & lb & ->).
  exists lb. split; [apply in_or_app; right; left; reflexivity|].
  apply last_addr_app.
Qed.

(** [my_malloc] writes nothing below the lowest break or from the new
    break on. *)
Lemma my_malloc_outside l s size fuel r s' :
  wf_with l s -> 0 <= size <= MAX_REQUEST -> (length l < fuel)%nat ->
  my_malloc fuel size s = Some (r, s') ->
  forall x, x < brk_lo s \/ brk s' <= x -> mem_of s' x = mem_of s x.
Proof.
  intros Hwf Hsz Hfuel Hrun.
  destruct (my_malloc_arena _ _ _ _ _ Hsz Hrun) as (Hbrk' & _).
  destruct (Z.eq_dec size 0) as [->|Hnz].
  { cbn in Hrun. injection Hrun as _ <-. reflexivity. }
  pose proof Hwf as (Hlo & Hbrk & Hhi & Hhead & Hfirst & Hlay & Hrepr).
  pose proof (layout_le _ _ _ Hlay) as Hle.
  assert (Hpos : 0 < first_addr l (brk s)) by lia.
  destruct (ALIGN_bounds size) as (Hal & _); [consts; lia|].
  destruct (first_fit_split (ALIGN size) l)
    as [Hmiss|(l1 & b & l2 & Heq & Hmiss & Hfit)].
  - (* no block fits: the stores are those of [request_space] *)
    assert (Hlast : forall x, x < brk_lo s \/ brk s <= x ->
              last_addr l NULL = NULL \/ x < last_addr l NULL + 16
              \/ last_addr l NULL + BLOCK_SIZE <= x).
    { intros x Hx. destruct l as [|b0 l0]; [left; reflexivity|right].
      destruct (last_addr_in (b0 :: l0) NULL ltac:(discriminate)) as (lb & Hlb & ->).
      pose proof (layout_In _ _ _ _ Hlay Hlb). cbn [first_addr] in *.
      unfold BLOCK_SIZE in *. lia. }
    assert (Hreq : forall blk s1,
              request_space (last_addr l NULL) (ALIGN size) s = (blk, s1) ->
              forall x, x < brk_lo s \/ brk s1 <= x -> mem_of s1 x = mem_of s x).
    { intros blk s1 Er x Hx.
      destruct (request_space_ok l s (ALIGN size) Hwf)
        as [(_ & Hrq)|(_ & m' & Hrq & _)]; try (consts; lia);
        rewrite Hrq in Er; injection Er as <- <-; [reflexivity|].
      cbn [brk with_mem with_brk] in Hx.
      eapply request_space_frame; [exact Hrq| |].
      - apply Hlast. unfold BLOCK_SIZE in *. lia.
      - unfold BLOCK_SIZE in *. lia. }
    unfold my_malloc in Hrun.
    replace (size <=? 0) with false in Hrun by (symmetry; apply Z.leb_gt; lia).
    destruct (head s =? NULL) eqn:Eh.
    + apply Z.eqb_eq in Eh. pose proof (wf_head_null _ _ Hwf Eh). subst l.
      change (last_addr [] NULL) with NULL in Hreq.
      destruct (request_space NULL (ALIGN size) s) as (blk, s1) eqn:Er.
      specialize (Hreq blk s1 eq_refl).
      destruct (blk =? NULL); injection Hrun as _ <-; exact Hreq.
    + apply Z.eqb_neq in Eh. pose proof (wf_head_nonnull _ _ Hwf Eh) as Hne.
      unfold find_free_block_first_fit in Hrun. rewrite Hhead in Hrun.
      rewrite (first_fit_miss _ _ _ fuel _ _ (first_addr l NULL)
                 Hpos Hlay Hrepr Hmiss Hfuel) in Hrun.
      cbn [Z.eqb NULL] in Hrun. change (0 =? 0) with true in Hrun.
      cbv iota in Hrun.
      rewrite (last_addr_nonempty l _ NULL Hne) in Hrun.
      destruct (request_space (last_addr l NULL) (ALIGN size) s)
        as (blk, s1) eqn:Er.
      specialize (Hreq blk s1 eq_refl).
      destruct (blk =? NULL); injection Hrun as _ <-; exact Hreq.
  - (* a block fits: the stores lie inside it *)
    destruct (my_malloc_cases l s size fuel Hwf ltac:(lia) Hfuel)
      as [(Hall & _)
         |(k1 & c & k2 & mid' & Hl & Hm & Hfc & s2 & Hrun' & _ & Hb2 & Hsame & _)].
    + rewrite (Hall b) in Hfit by (rewrite Heq; apply in_middle). discriminate.
    + rewrite Hrun' in Hrun. injection Hrun as _ <-.
      intros x Hx. apply Hsame.
      assert (Hc : In c l) by (rewrite Hl; apply in_middle).
      pose proof (layout_In _ _ _ _ Hlay Hc). lia.
Qed.

(** [my_free] writes nothing outside the arena. *)
Lemma my_free_outside l s p fuel s' :
  wf_with l s -> p = NULL \/ live s p -> (length l <= fuel)%nat ->
  my_free fuel p s = Some s' ->
  forall x, x < brk_lo s \/ brk s <= x -> mem_of s' x = mem_of s x.
Proof.
  intros Hwf [->|Hlive] Hfuel Hrun.
  { cbn in Hrun. injection Hrun as <-. reflexivity. }
  destruct (live_block _ _ _ Hwf Hlive) as (l1 & b & l2 & -> & Hba & Hbf).
  destruct (my_free_ok l1 b l2 s fuel Hwf Hfuel) as (m' & Hrun' & _ & Hfr).
  replace (baddr b + BLOCK_SIZE) with p in Hrun' by lia.
  rewrite Hrun' in Hrun. injection Hrun as <-.
  intros x Hx. cbn [mem_of with_mem]. apply Hfr. intros c Hc _.
  pose proof (set_free_in_chain _ _ _ _ true Hwf) as Hwf1.
  destruct (wf_addr_bounds _ _ _ Hwf1 Hc) as (_ & Hs & Hend & _).
  pose proof Hwf1 as (_ & _ & _ & _ & Hfirst & Hlay & _).
  pose proof (layout_In _ _ _ _ Hlay Hc).
  cbn [with_mem brk brk_lo] in *. unfold BLOCK_SIZE in *. lia.
Qed.

(** No call of the API writes outside the arena. *)
Lemma run_outside l s c fuel r s' :
  wf_with l s -> valid_call s c -> (length l + 2 <= fuel)%nat ->
  run fuel c s = Some (r, s') ->
  forall x, x < brk_lo s \/ brk s' <= x -> mem_of s' x = mem_of s x.
Proof.
  intros Hwf Hv Hfuel Hrun.
  destruct c as [size|p|p size]; cbn [run valid_call] in *.
  - exact (my_malloc_outside l s size fuel r s' Hwf Hv ltac:(lia) Hrun).
  - destruct (my_free fuel p s) as [s1|] eqn:E; [|discriminate].
    injection Hrun as _ <-.
    destruct (my_free_arena _ _ _ _ E) as (Hb & _).
    intros x Hx. apply (my_free_outside l s p fuel s1 Hwf Hv ltac:(lia) E). lia.
  - destruct Hv as (Hp & Hsz). destruct Hp as [->|Hlive].
    { unfold my_realloc in Hrun. cbn [NULL Z.eqb] in Hrun.
      change (0 =? 0) with true in Hrun. cbv iota in Hrun.
      exact (my_malloc_outside l s size fuel r s' Hwf Hsz ltac:(lia) Hrun). }
    destruct (live_block _ _ _ Hwf Hlive) as (l1 & b & l2 & Hl & Hba & Hbf).
    assert (Hb : In b l) by (rewrite Hl; apply in_middle).
    destruct (wf_addr_bounds _ _ _ Hwf Hb) as (Hbpos & Hbs & Hbend & Hbrk').
    pose proof Hwf as (_ & _ & _ & _ & Hfirst & Hlay & _).
    pose proof (layout_In _ _ _ _ Hlay Hb) as Hbin.
    pose proof (wf_get_size _ _ _ Hwf Hb) as Hgs.
    unfold my_realloc, get_block_ptr in Hrun.
    replace (p =? NULL) with false in Hrun
      by (symmetry; apply Z.eqb_neq; consts; lia).
    replace (p - BLOCK_SIZE) with (baddr b) in Hrun by lia.
    rewrite wrap_small in Hrun by (consts; lia). rewrite Hgs in Hrun.
    destruct (size =? 0) eqn:E0.
    { destruct (my_free fuel p s) as [s1|] eqn:E; [|discriminate].
      injection Hrun as _ <-.
      destruct (my_free_arena _ _ _ _ E) as (Hbe & _).
      intros x Hx.
      apply (my_free_outside l s p fuel s1 Hwf (or_intror Hlive) ltac:(lia) E).
      lia. }
    apply Z.eqb_neq in E0.
    destruct (size <=? bsize b) eqn:E.
    { apply Z.leb_le in E. injection Hrun as _ <-.
      rewrite Hl in Hwf.
      destruct (split_in_chain l1 b l2 s size Hwf ltac:(lia))
        as (mid' & _ & Hsame & _).
      intros x Hx. cbn [mem_of with_mem brk] in *. apply Hsame. lia. }
    apply Z.leb_gt in E.
    destruct (my_malloc fuel size s) as [(r1, s1)|] eqn:Em; [|discriminate].
    pose proof (my_malloc_outside l s size fuel r1 s1 Hwf Hsz ltac:(lia) Em) as Hout1.
    destruct (my_malloc_arena _ _ _ _ _ Hsz Em) as (Hb1 & Hlo1 & _).
    destruct (my_malloc_ok l s size fuel Hwf Hsz ltac:(lia))
      as (r2 & s2 & Hrun2 & Hres).
    rewrite Em in Hrun2. injection Hrun2 as <- <-.
    destruct Hres as [(-> & ->)|(Hr & Hpost)].
    { cbn [NULL Z.eqb] in Hrun. injection Hrun as _ <-. reflexivity. }
    replace (r1 =? NULL) with false in Hrun by (symmetry; apply Z.eqb_neq; exact Hr).
    destruct Hpost as (lB & nb & HwfB & Hnb & Hrnb & Hnbf & Hnbs & Hlen & Hused & _).
    destruct (Hused b Hb Hbf) as (Hb' & _).
    rewrite (wf_get_size _ _ _ HwfB Hb') in Hrun.
    destruct (ALIGN_bounds size) as (Halb & _); [consts; lia|].
    subst r1.
    pose proof (memcpy_payload_wf lB s1 nb p (bsize b) HwfB Hnb ltac:(lia)) as Hwf2.
    set (m2 := memcpy (mem_of s1) (baddr nb + BLOCK_SIZE) p (bsize b)) in *.
    destruct (my_free fuel p (with_mem s1 m2)) as [s3|] eqn:Ef; [|discriminate].
    injection Hrun as _ <-.
    destruct (my_free_arena _ _ _ _ Ef) as (Hb3 & _).
    cbn [with_mem brk] in Hb3.
    assert (Hlive2 : live (with_mem s1 m2) p).
    { replace p with (baddr b + BLOCK_SIZE) by lia.
      exact (block_live _ _ _ Hwf2 Hb' Hbf). }
    intros x Hx.
    rewrite (my_free_outside lB (with_mem s1 m2) p fuel s3 Hwf2
               (or_intror Hlive2) ltac:(lia) Ef)
      by (cbn [with_mem brk brk_lo]; lia).
    cbn [mem_of with_mem]. subst m2.
    rewrite (same_out_memcpy (mem_of s1) (baddr nb + BLOCK_SIZE) p (bsize b)).
    + apply Hout1. lia.
    + pose proof HwfB as (_ & _ & _ & _ & HfirstB & HlayB & _).
      pose proof (layout_In _ _ _ _ HlayB Hnb). unfold BLOCK_SIZE in *. lia.
Qed.

Lemma valid_call_sized s c : valid_call s c -> sized c.
Proof. destruct c; cbn; tauto. Qed.

(** X6: On a well-formed heap, a call of the API whose pointers are [NULL]
    or live and whose size is at most [MAX_REQUEST] returns, given enough
    fuel; it never moves the break down, never changes [head] once it is
    set, and writes no byte below the lowest break or from the new break
    on: all its stores fall inside the arena. *)
Theorem arena_never_shrinks s c :
  wf s -> valid_call s c ->
  exists n, forall fuel, (n <= fuel)%nat ->
    exists r s', run fuel c s = Some (r, s') /\
      brk s <= brk s' /\ (head s <> NULL -> head s' = head s) /\
      forall x, x < brk_lo s \/ brk s' <= x -> mem_of s' x = mem_of s x.
Proof.
  intros (l & Hwf) Hv. exists (length l + 2)%nat. intros fuel Hfuel.
  destruct (run_ok l s c fuel Hwf Hv Hfuel) as (r & s' & _ & Hrun & _).
  exists r, s'. split; [exact Hrun|].
  destruct (run_arena fuel c s r s' (valid_call_sized s c Hv) Hrun)
    as (Hb & _ & _ & Hh).
  split; [exact Hb|]. split; [exact Hh|].
  exact (run_outside l s c fuel r s' Hwf Hv Hfuel Hrun).
Qed.

Lemma arena_never_shrinks_witness :
  wf heap3 /\ valid_call heap3 (Realloc 4184 200) /\
  exists n, forall fuel, (n <= fuel)%nat ->
    exists r s', run fuel (Realloc 4184 200) heap3 = Some (r, s') /\
      brk heap3 <= brk s' /\ (head heap3 <> NULL -> head s' = head heap3) /\
      forall x, x < brk_lo heap3 \/ brk s' <= x ->
                mem_of s' x = mem_of heap3 x.
Proof.
  assert (Hwf : wf heap3) by (apply (wf_check_sound 8); vm_compute; reflexivity).
  assert (Hv : valid_call heap3 (Realloc 4184 200)).
  { split; [right; apply (live_check_sound 8); vm_compute; reflexivity|].
    unfold MAX_REQUEST, HALF. lia. }
  split; [exact Hwf|]. split; [exact Hv|].
  exact (arena_never_shrinks heap3 (Realloc 4184 200) Hwf Hv).
Defined.

(* ================================================================== *)
(** ** Release, then allocate again *)

Lemma coal_free_covered l : forall cur a e b,
  layout a (cur :: l) e -> In b (cur :: l) -> bfree b = true ->
  exists c, In c (coal cur l) /\ bfree c = true /\
            bsize b <= bsize c /\ baddr c <= baddr b.
Proof.
  induction l as [|d l IH]; intros cur a e b Hlay Hin Hb.
  - destruct Hin as [<-|[]]. exists cur. cbn. repeat split; try lia.
    left. reflexivity. exact Hb.
  - cbn [layout] in Hlay. destruct Hlay as (Ha & Hs0 & Hd & Hs1 & Hl).
    cbn [coal]. destruct (bfree cur && bfree d) eqn:E.
    + apply andb_true_iff in E. destruct E as (E1 & E2).
      assert (Hlay' : layout a (merge cur d :: l) e).
      { cbn [layout merge baddr bsize]. unfold BLOCK_SIZE in *.
        repeat split; try lia.
        replace (a + 24 + (bsize cur + 24 + bsize d))
          with (a + 24 + bsize cur + 24 + bsize d) by lia. exact Hl. }
      assert (Hm : exists b', In b' (merge cur d :: l) /\ bfree b' = true /\
                              bsize b <= bsize b' /\ baddr b' <= baddr b).
      { destruct Hin as [<-|[<-|Hin]].
        - exists (merge cur d). cbn [merge baddr bsize bfree].
          unfold BLOCK_SIZE. repeat split; try lia. left. reflexivity. exact E1.
        - exists (merge cur d). cbn [merge baddr bsize bfree].
          unfold BLOCK_SIZE in *. repeat split; try lia. left. reflexivity. exact E1.
        - exists b. repeat split; try lia. right. exact Hin. exact Hb. }
      destruct Hm as (b' & Hin' & Hb' & Hsz' & Had').
      destruct (IH (merge cur d) a e b' Hlay' Hin' Hb') as (c & Hc & Hcf & Hcs & Hca).
      exists c. repeat split; try assumption; lia.
    + destruct Hin as [<-|Hin].
      * exists cur. repeat split; try lia. left. reflexivity. exact Hb.
      * assert (Hlay' : layout (a + BLOCK_SIZE + bsize cur) (d :: l) e)
          by (cbn [layout]; repeat split; assumption).
        destruct (IH d _ e b Hlay' Hin Hb) as (c & Hc & Hcf & Hcs & Hca).
        exists c. repeat split; try assumption. right. exact Hc.
Qed.

(** X7: Reuse without growth: once a live pointer [p] is released, a request
    whose aligned size its block could hold is served without moving the
    break, by a block that starts at or before the released one. *)
Theorem free_then_malloc_reuses s p size :
  wf s -> live s p -> 0 < size <= MAX_REQUEST ->
  ALIGN size <= get_size (mem_of s) (p - BLOCK_SIZE) ->
  exists n, forall fuel, (n <= fuel)%nat ->
    exists s1 r s2,
      my_free fuel p s = Some s1 /\ my_malloc fuel size s1 = Some (r, s2) /\
      r <> NULL /\ r <= p /\ brk s2 = brk s.
Proof.
  intros (l & Hwf) Hlive Hsz Hcap. exists (S (length l)). intros fuel Hfuel.
  destruct (live_block _ _ _ Hwf Hlive) as (l1 & b & l2 & -> & Hba & Hbf).
  rewrite <- Hba, (wf_get_size _ _ _ Hwf (in_middle l1 l2 b)) in Hcap.
  replace p with (baddr b + BLOCK_SIZE) by lia.
  destruct (my_free_ok l1 b l2 s fuel Hwf ltac:(lia)) as (m' & Hfree & Hwf1 & _).
  pose proof (set_free_in_chain _ _ _ _ true Hwf) as (_ & _ & _ & _ & _ & HlayL & _).
  cbn [with_mem brk] in HlayL.
  set (L := l1 ++ mkblk (baddr b) (bsize b) true :: l2) in *.
  assert (HbL : In (mkblk (baddr b) (bsize b) true) L) by apply in_middle.
  assert (HlenL : length L = length (l1 ++ b :: l2))
    by (unfold L; rewrite !length_app; reflexivity).
  assert (Hcov : exists c, In c (coal_list L) /\ bfree c = true /\
                           bsize b <= bsize c /\ baddr c <= baddr b).
  { destruct L as [|hd tl]; [contradiction|].
    cbn [first_addr] in HlayL.
    exact (coal_free_covered tl hd _ _ _ HlayL HbL eq_refl). }
  destruct Hcov as (c & Hc & Hcf & Hcs & Hca).
  pose proof (coal_list_length L) as Hlen.
  destruct (my_malloc_cases _ _ size fuel Hwf1 Hsz ltac:(lia))
    as [(Hmiss & _)|(k1 & b2 & k2 & mid' & Hk & Hmiss & Hfit & s2 & Hrun & _ & Hbrk & _)].
  { specialize (Hmiss c Hc). unfold fits in Hmiss. rewrite Hcf in Hmiss.
    cbn [andb] in Hmiss. apply Z.leb_gt in Hmiss. lia. }
  exists (with_mem s m'), (baddr b2 + BLOCK_SIZE), s2.
  split; [exact Hfree|]. split; [exact Hrun|].
  pose proof Hwf1 as (_ & _ & _ & _ & _ & Hlay1 & _).
  cbn [with_mem brk] in Hlay1. rewrite Hk in Hlay1, Hc.
  destruct (wf_addr_bounds _ _ b2 Hwf1 ltac:(rewrite Hk; apply in_middle))
    as (Hb2pos & _).
  split; [consts; lia|]. split; [|exact Hbrk].
  assert (baddr b2 <= baddr c); [|lia].
  apply in_app_or in Hc. destruct Hc as [Hc|[<-|Hc]].
  - specialize (Hmiss c Hc). unfold fits in Hmiss. rewrite Hcf in Hmiss.
    cbn [andb] in Hmiss. apply Z.leb_gt in Hmiss.
    destruct (ALIGN_bounds size); [consts; lia|lia].
  - lia.
  - apply layout_app in Hlay1. destruct Hlay1 as (A & _ & HA & Hs & Hl2).
    pose proof (layout_In _ _ _ _ Hl2 Hc). unfold BLOCK_SIZE in *. lia.
Qed.

Lemma free_then_malloc_reuses_witness :
  wf heap3 /\ live heap3 4184 /\ 0 < 60 <= MAX_REQUEST /\
  ALIGN 60 <= get_size (mem_of heap3) (4184 - BLOCK_SIZE) /\
  exists n, forall fuel, (n <= fuel)%nat ->
    exists s1 r s2,
      my_free fuel 4184 heap3 = Some s1 /\ my_malloc fuel 60 s1 = Some (r, s2) /\
      r <> NULL /\ r <= 4184 /\ brk s2 = brk heap3.
Proof.
  assert (Hwf : wf heap3) by (apply (wf_check_sound 8); vm_compute; reflexivity).
  assert (Hl : live heap3 4184)
    by (apply (live_check_sound 8); vm_compute; reflexivity).
  assert (Hs : 0 < 60 <= MAX_REQUEST) by (split; vm_compute; congruence).
  assert (Hc : ALIGN 60 <= get_size (mem_of heap3) (4184 - BLOCK_SIZE))
    by (vm_compute; congruence).
  split; [exact Hwf|]. split; [exact Hl|]. split; [exact Hs|]. split; [exact Hc|].
  exact (free_then_malloc_reuses heap3 4184 60 Hwf Hl Hs Hc).
Defined.

(* ================================================================== *)
(** ** Live payloads *)



(* ================================================================== *)
(** ** Shrinking in place *)

Lemma split_block_keeps_prefix m b nxt size x :
  hdr_is m b nxt -> 0 <= baddr b -> 0 <= size <= bsize b ->
  baddr b + BLOCK_SIZE + bsize b < WORD ->
  baddr b + BLOCK_SIZE <= x < baddr b + BLOCK_SIZE + size ->
  split_block m (baddr b) size x = m x.
Proof.
  intros (Hs & _ & _) Ha Hsz Hfit Hx. unfold split_block.
  destruct (wrap (wrap (size + BLOCK_SIZE) + ALIGNMENT) <=? get_size m (baddr b))
    eqn:E; [|reflexivity].
  unfold BLOCK_SIZE, ALIGNMENT in *.
  rewrite (wrap_small (baddr b + 24)) by (unfold WORD in *; lia).
  rewrite (wrap_small (baddr b + 24 + size)) by (unfold WORD in *; lia).
  fields.
  rewrite !store_outside by (cbn; lia). reflexivity.
Qed.

(** X9: [my_realloc(p, size)] with [0 < size] at most the capacity of [p]'s
    block returns [p] itself, whatever the fuel: [p] stays live, its block
    holds at least [size] bytes and no more than before, the first [size]
    payload bytes are unchanged, the break does not move, and every other
    live pointer keeps its size and payload. *)
Theorem realloc_shrink_in_place s p size fuel :
  wf s -> live s p ->
  0 < size <= get_size (mem_of s) (p - BLOCK_SIZE) ->
  exists s', my_realloc fuel p size s = Some (p, s') /\
    wf s' /\ live s' p /\ brk s' = brk s /\
    size <= get_size (mem_of s') (p - BLOCK_SIZE)
         <= get_size (mem_of s) (p - BLOCK_SIZE) /\
    (forall i, 0 <= i < size -> mem_of s' (p + i) = mem_of s (p + i)) /\
    (forall q, live s q -> q <> p ->
       live s' q /\
       get_size (mem_of s') (q - BLOCK_SIZE) = get_size (mem_of s) (q - BLOCK_SIZE) /\
       forall i, 0 <= i < get_size (mem_of s) (q - BLOCK_SIZE) ->
                 mem_of s' (q + i) = mem_of s (q + i)).
Proof.
  intros (l & Hwf) Hlive Hsz.
  destruct (live_block _ _ _ Hwf Hlive) as (l1 & b & l2 & -> & Hba & Hbf).
  pose proof (in_middle l1 l2 b) as Hb.
  rewrite <- Hba, (wf_get_size _ _ _ Hwf Hb) in *.
  destruct (wf_addr_bounds _ _ _ Hwf Hb) as (Hbpos & Hbs & Hbend & Hbrk').
  pose proof Hwf as (_ & _ & _ & _ & _ & Hlay & Hrepr).
  assert (Hp : p = baddr b + BLOCK_SIZE) by lia. subst p.
  replace (baddr b + BLOCK_SIZE - BLOCK_SIZE) with (baddr b) in * by lia.
  assert (Hrun : my_realloc fuel (baddr b + BLOCK_SIZE) size s
                 = Some (baddr b + BLOCK_SIZE,
                         with_mem s (split_block (mem_of s) (baddr b) size))).
  { unfold my_realloc, get_block_ptr.
    replace (baddr b + BLOCK_SIZE =? NULL) with false
      by (symmetry; apply Z.eqb_neq; consts; lia).
    replace (size =? 0) with false by (symmetry; apply Z.eqb_neq; lia).
    replace (baddr b + BLOCK_SIZE - BLOCK_SIZE) with (baddr b) by lia.
    rewrite wrap_small by (consts; lia).
    rewrite (wf_get_size _ _ _ Hwf Hb).
    replace (size <=? bsize b) with true by (symmetry; apply Z.leb_le; lia).
    reflexivity. }
  rewrite Hrun. eexists. split; [reflexivity|].
  destruct (split_in_chain l1 b l2 s size Hwf ltac:(lia))
    as (mid' & Hwf' & Hsame & Hcase).
  set (m' := split_block (mem_of s) (baddr b) size) in *.
  assert (Hb' : exists sz, In (mkblk (baddr b) sz false) (l1 ++ mid' ++ l2) /\
                           size <= sz <= bsize b).
  { destruct Hcase as [(Hbig & ->)|(Hsmall & -> & _)].
    - exists size. rewrite Hbf. split; [apply in_middle|lia].
    - exists (bsize b). split; [|lia].
      replace (mkblk (baddr b) (bsize b) false) with b
        by (destruct b; cbn in *; subst; reflexivity).
      apply in_middle. }
  destruct Hb' as (sz & Hin' & Hszb).
  cbn [mem_of with_mem brk].
  split; [exists (l1 ++ mid' ++ l2); exact Hwf'|].
  split; [exact (block_live _ _ _ Hwf' Hin' eq_refl)|].
  split; [reflexivity|].
  pose proof (wf_get_size _ _ _ Hwf' Hin') as Hg. cbn [baddr bsize mem_of with_mem] in Hg.
  split; [rewrite Hg; lia|].
  split.
  { intros i Hi. subst m'.
    apply repr_app in Hrepr. destruct Hrepr as (_ & Hh & _).
    eapply split_block_keeps_prefix; [exact Hh|lia|lia|consts; lia|lia]. }
  intros q Hq Hqp.
  destruct (live_block _ _ _ Hwf Hq) as (k1 & c & k2 & Hk & Hca & Hcf).
  assert (Hc : In c (l1 ++ b :: l2)) by (rewrite Hk; apply in_middle).
  assert (Hne : baddr c <> baddr b) by lia.
  replace q with (baddr c + BLOCK_SIZE) by lia.
  replace (baddr c + BLOCK_SIZE - BLOCK_SIZE) with (baddr c) by lia.
  assert (Hc' : In c (l1 ++ mid' ++ l2)).
  { apply in_app_or in Hc. apply in_or_app.
    destruct Hc as [Hc|[->|Hc]]; [left; exact Hc|congruence|].
    right. apply in_or_app. right. exact Hc. }
  pose proof (wf_get_size _ _ _ Hwf' Hc') as Hg'. cbn [mem_of with_mem] in Hg'.
  rewrite Hg', (wf_get_size _ _ _ Hwf Hc).
  split; [exact (block_live _ _ _ Hwf' Hc' Hcf)|]. split; [reflexivity|].
  intros i Hi. apply Hsame.
  pose proof (layout_disjoint _ _ _ _ _ Hlay Hc Hb Hne).
  pose proof (layout_In _ _ _ _ Hlay Hc). unfold BLOCK_SIZE in *. lia.
Qed.

Lemma realloc_shrink_in_place_witness :
  wf heap3 /\ live heap3 4184 /\
  0 < 16 <= get_size (mem_of heap3) (4184 - BLOCK_SIZE) /\
  exists s', my_realloc 0 4184 16 heap3 = Some (4184, s') /\
    wf s' /\ live s' 4184 /\ brk s' = brk heap3 /\
    16 <= get_size (mem_of s') (4184 - BLOCK_SIZE)
       <= get_size (mem_of heap3) (4184 - BLOCK_SIZE) /\
    (forall i, 0 <= i < 16 -> mem_of s' (4184 + i) = mem_of heap3 (4184 + i)) /\
    (forall q, live heap3 q -> q <> 4184 ->
       live s' q /\
       get_size (mem_of s') (q - BLOCK_SIZE) = get_size (mem_of heap3) (q - BLOCK_SIZE) /\
       forall i, 0 <= i < get_size (mem_of heap3) (q - BLOCK_SIZE) ->
                 mem_of s' (q + i) = mem_of heap3 (q + i)).
Proof.
  assert (Hwf : wf heap3) by (apply (wf_check_sound 8); vm_compute; reflexivity).
  assert (Hl : live heap3 4184)
    by (apply (live_check_sound 8); vm_compute; reflexivity).
  assert (Hs : 0 < 16 <= get_size (mem_of heap3) (4184 - BLOCK_SIZE))
    by (split; vm_compute; congruence).
  split; [exact Hwf|]. split; [exact Hl|]. split; [exact Hs|].
  exact (realloc_shrink_in_place heap3 4184 16 0 Hwf Hl Hs).
Defined.

(* ================================================================== *)
(** ** The two searches *)

Lemma last_default_irrelevant (l : list Z) : forall b d d',
  List.last (b :: l) d = List.last (b :: l) d'.
Proof.
  induction l as [|c l IH]; intros b d d'; [reflexivity|].
  change (List.last (c :: l) d = List.last (c :: l) d'). apply IH.
Qed.

Lemma last_cons (l : list Z) a d : List.last (a :: l) d = List.last l a.
Proof.
  revert a d. induction l as [|b l IH]; intros a d; [reflexivity|].
  change (List.last (b :: l) d = List.last (b :: l) a).
  apply last_default_irrelevant.
Qed.

Lemma nodup_split_unique (l1 l2 k1 k2 : list Z) a :
  NoDup (l1 ++ a :: l2) -> l1 ++ a :: l2 = k1 ++ a :: k2 -> l1 = k1.
Proof.
  revert k1. induction l1 as [|x l1 IH]; intros k1 Hnd Heq.
  - destruct k1 as [|y k1]; [reflexivity|].
    cbn in Heq. injection Heq as -> Heq.
    exfalso. cbn in Hnd. inversion Hnd; subst. apply H1. apply in_middle.
  - destruct k1 as [|y k1].
    + cbn in Heq. injection Heq as -> Heq.
      exfalso. cbn in Hnd. inversion Hnd; subst. apply H1. apply in_middle.
    + cbn in Heq. injection Heq as -> Heq. f_equal.
      apply IH; [|exact Heq]. cbn in Hnd. inversion Hnd; assumption.
Qed.

Lemma first_fit_loop_spec m size : forall la cur init fuel,
  chain m cur la -> (length la < fuel)%nat ->
  exists best last,
    first_fit_loop fuel m size cur init = Some (best, last) /\
    first_fit_result m size la init best last.
Proof.
  induction la as [|a la IH]; intros cur init fuel Hch Hfuel;
    (destruct fuel as [|fuel]; [cbn in Hfuel; lia|]); inversion Hch; subst.
  - exists NULL, init. split; [reflexivity|].
    left. split; [reflexivity|]. split; [intros a []|reflexivity].
  - cbn [first_fit_loop].
    replace (a =? NULL) with false by (symmetry; apply Z.eqb_neq; assumption).
    change (negb (get_free m a =? 0) && (size <=? get_size m a))
      with (fits_at m size a).
    destruct (fits_at m size a) eqn:Hfit; cbn [negb andb].
    + exists a, init. split; [reflexivity|].
      right. exists [], la. split; [reflexivity|].
      split; [intros c []|]. split; [exact Hfit|reflexivity].
    + cbn [length] in Hfuel.
      destruct (IH (get_next m a) a fuel ltac:(assumption) ltac:(lia))
        as (best & last & Hrun & Hres).
      exists best, last. split; [exact Hrun|].
      destruct Hres as [(Hb & Hmiss & Hl)|(l1 & l2 & Hla & Hmiss & Hb & Hl)].
      * left. split; [exact Hb|]. split.
        -- intros c [<-|Hc]; [exact Hfit|exact (Hmiss c Hc)].
        -- rewrite last_cons. exact Hl.
      * right. exists (a :: l1), l2. split; [rewrite Hla; reflexivity|].
        split; [intros c [<-|Hc]; [exact Hfit|exact (Hmiss c Hc)]|].
        split; [exact Hb|]. rewrite last_cons. exact Hl.
Qed.

(** X10: [find_free_block_first_fit] on any chain, for any size and any initial
    content [init] of [*last]: given fuel beyond the length of the chain it
    returns [NULL] when no block is free and large enough, with [*last] the
    final node, and otherwise the first such block, with [*last] the node
    just before it; [*last] keeps [init] when nothing precedes the result. *)
Theorem first_fit_spec s la size init :
  chain (mem_of s) (head s) la ->
  forall fuel, (length la < fuel)%nat ->
    exists best last,
      find_free_block_first_fit fuel s init size = Some (best, last) /\
      first_fit_result (mem_of s) size la init best last.
Proof.
  intros Hch fuel Hfuel. unfold find_free_block_first_fit.
  apply first_fit_loop_spec; assumption.
Qed.

Lemma first_fit_spec_witness :
  chain (mem_of heap4) (head heap4) [4096; 4160; 4264] /\
  exists best last,
    find_free_block_first_fit 8 heap4 NULL 60 = Some (best, last) /\
    first_fit_result (mem_of heap4) 60 [4096; 4160; 4264] NULL best last.
Proof.
  assert (Hc : chain (mem_of heap4) (head heap4) [4096; 4160; 4264])
    by (apply (walk_chain 8); vm_compute; reflexivity).
  split; [exact Hc|].
  exact (first_fit_spec heap4 [4096; 4160; 4264] 60 NULL Hc 8%nat
           ltac:(cbn; lia)).
Defined.

(** X11: The two searches agree on whether the request can be satisfied from
    the chain: on a well-formed heap [find_free_block_first_fit] returns
    [NULL] exactly when [find_free_block_best_fit] does, and then both
    leave the same [*last] (the first-fit search being started with
    [*last = NULL], as the best-fit search sets it); when they find blocks, the best-fit block
    satisfies the request and is the first-fit block itself or a strictly
    smaller one. *)
Theorem searches_agree s size :
  wf s ->
  exists n, forall fuel, (n <= fuel)%nat ->
    exists bf lf bb lb,
      find_free_block_first_fit fuel s NULL size = Some (bf, lf) /\
      find_free_block_best_fit fuel s size = Some (bb, lb) /\
      (bf = NULL <-> bb = NULL) /\
      (bf = NULL -> lf = lb) /\
      (bf <> NULL ->
         fits_at (mem_of s) size bb = true /\
         (bb = bf \/ get_size (mem_of s) bb < get_size (mem_of s) bf)).
Proof.
  intros (l & Hwf). pose proof (wf_chain _ _ Hwf) as Hch.
  set (la := map baddr l) in *. set (m := mem_of s) in *.
  exists (S (length la)). intros fuel Hfuel.
  assert (Hsz : Forall (fun a => get_size m a < SIZE_MAX) la).
  { apply Forall_forall. intros a Ha. apply in_map_iff in Ha.
    destruct Ha as (b & <- & Hb). subst m.
    rewrite (wf_get_size _ _ _ Hwf Hb).
    pose proof (wf_addr_bounds _ _ _ Hwf Hb). consts. lia. }
  pose proof (chain_nodup _ _ _ Hch) as Hnd.
  destruct (first_fit_loop_spec m size la (head s) NULL fuel Hch ltac:(lia))
    as (bf & lf & Hf & Hfr).
  destruct (best_fit_loop_spec m size la [] fuel (head s) NULL SIZE_MAX NULL
              Hch Hnd ltac:(lia) Hsz) as (bb & lb & Hb & Hbr).
  { left. repeat split. intros a []. }
  { reflexivity. }
  cbn [app] in Hbr.
  exists bf, lf, bb, lb. unfold find_free_block_first_fit, find_free_block_best_fit.
  fold m. split; [exact Hf|]. split; [exact Hb|].
  assert (Hnn : forall a, In a la -> a <> NULL).
  { intros a Ha. destruct (chain_suffix _ _ _ _ Hch Ha) as (k1 & k2 & _ & Hc).
    inversion Hc. assumption. }
  destruct Hfr as [(-> & Hmiss & Hl)|(f1 & f2 & Hla & Hmiss & Hfit & Hl)].
  - (* first fit finds nothing *)
    destruct Hbr as [(-> & _ & Hl')|(_ & (b1 & b2 & Hla & Hfit & _) & _)].
    + split; [tauto|]. split; [congruence|]. intros H. congruence.
    + rewrite (Hmiss bb) in Hfit by (rewrite Hla; apply in_middle). discriminate.
  - assert (Hbf : bf <> NULL) by (apply Hnn; rewrite Hla; apply in_middle).
    destruct Hbr as [(-> & Hmiss' & _)|(Hbb & (b1 & b2 & Hlb & Hfitb & Hbefore & Hafter) & _)].
    + rewrite (Hmiss' bf) in Hfit by (rewrite Hla; apply in_middle). discriminate.
    + split; [tauto|]. split; [congruence|]. intros _.
      split; [exact Hfitb|].
      destruct (Z.eq_dec bb bf) as [E|E]; [left; exact E|right].
      assert (Hin : In bf (b1 ++ bb :: b2)) by (rewrite <- Hlb, Hla; apply in_middle).
      apply in_app_or in Hin. destruct Hin as [Hin|[Hin|Hin]]; [|congruence|].
      * exact (Hbefore bf Hin Hfit).
      * (* [bf] after [bb]: then [bb] precedes [bf] and cannot fit *)
        exfalso.
        destruct (in_split _ _ Hin) as (c1 & c2 & Hc).
        assert (Hpre : f1 = b1 ++ bb :: c1).
        { apply (nodup_split_unique f1 f2 (b1 ++ bb :: c1) c2 bf).
          - rewrite <- Hla. exact Hnd.
          - rewrite <- Hla, Hlb, Hc, <- app_assoc. reflexivity. }
        rewrite (Hmiss bb) in Hfitb by (rewrite Hpre; apply in_middle).
        discriminate.
Qed.

Lemma searches_agree_witness :
  wf heap7 /\
  exists n, forall fuel, (n <= fuel)%nat ->
    exists bf lf bb lb,
      find_free_block_first_fit fuel heap7 NULL 16 = Some (bf, lf) /\
      find_free_block_best_fit fuel heap7 16 = Some (bb, lb) /\
      (bf = NULL <-> bb = NULL) /\
      (bf = NULL -> lf = lb) /\
      (bf <> NULL ->
         fits_at (mem_of heap7) 16 bb = true /\
         (bb = bf \/ get_size (mem_of heap7) bb < get_size (mem_of heap7) bf)).
Proof.
  assert (Hwf : wf heap7) by (apply (wf_check_sound 8); vm_compute; reflexivity).
  split; [exact Hwf|]. exact (searches_agree heap7 16 Hwf).
Defined.

(* ================================================================== *)
(** ** Rounding and pointer arithmetic *)

Lemma ALIGN_idempotent size :
  0 <= size <= WORD - 8 -> ALIGN (ALIGN size) = ALIGN size.
Proof.
  intros H. destruct (ALIGN_bounds size H) as ((Hlo & Hhi) & Hm).
  unfold ALIGNMENT in *.
  apply Z.mod_divide in Hm; [|lia]. destruct Hm as (a & Ha).
  assert (Hr : 0 <= ALIGN size <= WORD - 8) by (unfold WORD in *; lia).
  rewrite (ALIGN_eq (ALIGN size) Hr).
  rewrite Ha. replace (a * 8 + 7) with (7 + a * 8) by lia.
  rewrite Z.div_add by lia. change (7 / 8) with 0. lia.
Qed.

(** X12: Below the last seven values of [size_t], [ALIGN] rounds up to the
    nearest multiple of 8: the result is a multiple of 8, at least [size],
    no larger than any other such multiple, and a fixed point of [ALIGN]. *)
Theorem ALIGN_least size :
  0 <= size <= SIZE_MAX - 7 ->
  size <= ALIGN size /\ ALIGN size mod ALIGNMENT = 0 /\
  (forall k, size <= k -> k mod ALIGNMENT = 0 -> ALIGN size <= k) /\
  ALIGN (ALIGN size) = ALIGN size.
Proof.
  intros H. assert (H' : 0 <= size <= WORD - 8) by (consts; lia).
  destruct (ALIGN_bounds size H') as ((Hlo & Hhi) & Hm).
  split; [exact Hlo|]. split; [exact Hm|]. split.
  - intros k Hk Hkm. unfold ALIGNMENT in *.
    apply Z.mod_divide in Hm; [|lia]. apply Z.mod_divide in Hkm; [|lia].
    destruct Hm as (a & Ha). destruct Hkm as (c & Hc). lia.
  - exact (ALIGN_idempotent size H').
Qed.

Lemma ALIGN_least_witness :
  0 <= 13 <= SIZE_MAX - 7 /\
  13 <= ALIGN 13 /\ ALIGN 13 mod ALIGNMENT = 0 /\
  (forall k, 13 <= k -> k mod ALIGNMENT = 0 -> ALIGN 13 <= k) /\
  ALIGN (ALIGN 13) = ALIGN 13.
Proof.
  assert (H : 0 <= 13 <= SIZE_MAX - 7) by (vm_compute; split; congruence).
  split; [exact H|]. exact (ALIGN_least 13 H).
Defined.

(** X13: For the last seven values of [size_t] the addition inside [ALIGN]
    wraps around and the result is 0. *)
Theorem ALIGN_wraps size :
  SIZE_MAX - 7 < size <= SIZE_MAX -> ALIGN size = 0.
Proof.
  intros H. unfold ALIGN.
  assert (Hw : wrap (size + (ALIGNMENT - 1)) = size + 7 - WORD).
  { unfold wrap. consts. symmetry.
    apply (Z.mod_unique _ _ 1); lia. }
  rewrite Hw, land_mask by (consts; lia).
  rewrite Z.div_small by (consts; lia). reflexivity.
Qed.

Lemma ALIGN_wraps_witness :
  SIZE_MAX - 7 < SIZE_MAX - 3 <= SIZE_MAX /\ ALIGN (SIZE_MAX - 3) = 0.
Proof.
  assert (H : SIZE_MAX - 7 < SIZE_MAX - 3 <= SIZE_MAX)
    by (vm_compute; split; congruence).
  split; [exact H|]. exact (ALIGN_wraps (SIZE_MAX - 3) H).
Defined.

(** X14: [my_malloc] sees a request only through [ALIGN]: asking for [size]
    bytes gives the same result and the same heap as asking for
    [ALIGN(size)] bytes. *)
Theorem malloc_rounds_up fuel size s :
  0 < size <= SIZE_MAX - 7 ->
  my_malloc fuel size s = my_malloc fuel (ALIGN size) s.
Proof.
  intros H.
  assert (H' : 0 <= size <= WORD - 8) by (consts; lia).
  destruct (ALIGN_bounds size H') as ((Hle & _) & _).
  pose proof (ALIGN_idempotent size H') as Hid.
  unfold my_malloc.
  replace (size <=? 0) with false by (symmetry; apply Z.leb_gt; lia).
  replace (ALIGN size <=? 0) with false by (symmetry; apply Z.leb_gt; lia).
  rewrite Hid. reflexivity.
Qed.

Lemma malloc_rounds_up_witness :
  0 < 13 <= SIZE_MAX - 7 /\
  my_malloc 8 13 heap4 = my_malloc 8 (ALIGN 13) heap4.
Proof.
  assert (H : 0 < 13 <= SIZE_MAX - 7) by (vm_compute; split; congruence).
  split; [exact H|]. exact (malloc_rounds_up 8 13 heap4 H).
Defined.

(** X15: Header and payload pointers determine each other: [get_block_ptr]
    undoes the [block + 1] by which [my_malloc] forms its result, and
    conversely, for every 64-bit pointer, wrapped or not. *)
Theorem get_block_ptr_round_trip p :
  0 <= p < WORD ->
  get_block_ptr (wrap (p + BLOCK_SIZE)) = p /\
  wrap (get_block_ptr p + BLOCK_SIZE) = p.
Proof.
  intros H. unfold get_block_ptr, wrap.
  split.
  - rewrite Zminus_mod_idemp_l.
    replace (p + BLOCK_SIZE - BLOCK_SIZE) with p by lia.
    apply Z.mod_small. exact H.
  - rewrite Zplus_mod_idemp_l.
    replace (p - BLOCK_SIZE + BLOCK_SIZE) with p by lia.
    apply Z.mod_small. exact H.
Qed.

Lemma get_block_ptr_round_trip_witness :
  0 <= 8 < WORD /\
  get_block_ptr (wrap (8 + BLOCK_SIZE)) = 8 /\
  wrap (get_block_ptr 8 + BLOCK_SIZE) = 8.
Proof.
  assert (H : 0 <= 8 < WORD) by (vm_compute; split; congruence).
  split; [exact H|]. exact (get_block_ptr_round_trip 8 H).
Defined.

(* ================================================================== *)
(** ** Extending the arena *)

(** X16: [request_space(last, size)] with [BLOCK_SIZE + size] a positive
    [intptr_t]: when the new break would pass the limit nothing changes and
    the result is [NULL]; otherwise the result is the old break, the break
    moves up by [BLOCK_SIZE + size], the header written there records
    [size], used, no successor, the block [last] (when not [NULL]) is linked
    to it with its other fields intact, [head] is not touched, and no other
    byte below the old break changes. *)
Theorem request_space_spec s last size :
  0 < brk s -> brk_lo s <= brk s -> brk_hi s < HALF ->
  0 <= size -> BLOCK_SIZE + size < HALF ->
  last = NULL \/ 0 < last /\ last + BLOCK_SIZE <= brk s ->
  (brk_hi s < brk s + BLOCK_SIZE + size /\
   request_space last size s = (NULL, s)) \/
  (brk s + BLOCK_SIZE + size <= brk_hi s /\
   exists s', request_space last size s = (brk s, s') /\
     brk s' = brk s + BLOCK_SIZE + size /\ head s' = head s /\
     brk_lo s' = brk_lo s /\ brk_hi s' = brk_hi s /\
     get_size (mem_of s') (brk s) = size /\
     get_free (mem_of s') (brk s) = 0 /\
     get_next (mem_of s') (brk s) = NULL /\
     (last <> NULL ->
        get_next (mem_of s') last = brk s /\
        get_size (mem_of s') last = get_size (mem_of s) last /\
        get_free (mem_of s') last = get_free (mem_of s) last) /\
     (forall x, x < brk s ->
        last = NULL \/ x < last + 16 \/ last + BLOCK_SIZE <= x ->
        mem_of s' x = mem_of s x)).
Proof.
  intros Hpos Hlo Hhi Hsz Hmax Hlast.
  unfold request_space. rewrite sbrk_zero.
  rewrite wrap_small by (unfold BLOCK_SIZE, HALF, WORD in *; lia).
  rewrite sbrk_grow by (unfold BLOCK_SIZE in *; lia).
  replace (brk_lo s <=? brk s + (BLOCK_SIZE + size)) with true
    by (symmetry; apply Z.leb_le; unfold BLOCK_SIZE; lia).
  cbn [andb].
  destruct (brk s + (BLOCK_SIZE + size) <=? brk_hi s) eqn:E.
  - apply Z.leb_le in E. right. split; [lia|].
    replace (brk s =? SBRK_FAILED) with false
      by (symmetry; apply Z.eqb_neq;
          unfold SBRK_FAILED, wrap, WORD, HALF, BLOCK_SIZE in *; cbn; lia).
    eexists. split; [reflexivity|].
    cbn [mem_of with_mem with_brk brk head brk_lo brk_hi].
    split; [lia|]. do 3 (split; [reflexivity|]).
    destruct Hlast as [->|(Hl0 & Hl1)].
    + unfold NULL at 1 2 3. cbn [Z.eqb].
      fields. unfold NULL, BLOCK_SIZE, HALF in *.
      split; [memsimpl; reflexivity|]. split; [memsimpl; reflexivity|].
      split; [memsimpl; reflexivity|]. split; [intros Hn; congruence|].
      intros x Hx _. rewrite !store_outside by lia. reflexivity.
    + replace (last =? NULL) with false
        by (symmetry; apply Z.eqb_neq; unfold NULL; lia).
      fields. unfold NULL, BLOCK_SIZE, HALF in *.
      split; [memsimpl; reflexivity|]. split; [memsimpl; reflexivity|].
      split; [memsimpl; reflexivity|]. split.
      * intros _. split; [memsimpl; reflexivity|].
        split; memsimpl; reflexivity.
      * intros x Hx [Hn|Hx']; [lia|].
        rewrite !store_outside by lia. reflexivity.
  - apply Z.leb_gt in E. left. split; [lia|].
    rewrite Z.eqb_refl. reflexivity.
Qed.

Lemma request_space_spec_witness :
  0 < brk heap3 /\ brk_lo heap3 <= brk heap3 /\ brk_hi heap3 < HALF /\
  0 <= 32 /\ BLOCK_SIZE + 32 < HALF /\
  (4264 = NULL \/ 0 < 4264 /\ 4264 + BLOCK_SIZE <= brk heap3) /\
  ((brk_hi heap3 < brk heap3 + BLOCK_SIZE + 32 /\
    request_space 4264 32 heap3 = (NULL, heap3)) \/
   (brk heap3 + BLOCK_SIZE + 32 <= brk_hi heap3 /\
    exists s', request_space 4264 32 heap3 = (brk heap3, s') /\
      brk s' = brk heap3 + BLOCK_SIZE + 32 /\ head s' = head heap3 /\
      brk_lo s' = brk_lo heap3 /\ brk_hi s' = brk_hi heap3 /\
      get_size (mem_of s') (brk heap3) = 32 /\
      get_free (mem_of s') (brk heap3) = 0 /\
      get_next (mem_of s') (brk heap3) = NULL /\
      (4264 <> NULL ->
         get_next (mem_of s') 4264 = brk heap3 /\
         get_size (mem_of s') 4264 = get_size (mem_of heap3) 4264 /\
         get_free (mem_of s') 4264 = get_free (mem_of heap3) 4264) /\
      (forall x, x < brk heap3 ->
         4264 = NULL \/ x < 4264 + 16 \/ 4264 + BLOCK_SIZE <= x ->
         mem_of s' x = mem_of heap3 x))).
Proof.
  assert (H1 : 0 < brk heap3) by (vm_compute; reflexivity).
  assert (H2 : brk_lo heap3 <= brk heap3) by (vm_compute; congruence).
  assert (H3 : brk_hi heap3 < HALF) by (vm_compute; reflexivity).
  assert (H4 : 0 <= 32) by lia.
  assert (H5 : BLOCK_SIZE + 32 < HALF) by (vm_compute; reflexivity).
  assert (H6 : 4264 = NULL \/ 0 < 4264 /\ 4264 + BLOCK_SIZE <= brk heap3)
    by (right; vm_compute; split; [reflexivity|congruence]).
  repeat (split; [assumption|]).
  exact (request_space_spec heap3 4264 32 H1 H2 H3 H4 H5 H6).
Defined.

(** X17: [request_space] converts [BLOCK_SIZE + size] to [intptr_t]: from
    [2^63] on the increment handed to [sbrk] is negative.  The call fails
    only when the break would pass below address 0; otherwise the old
    break is returned as the new block, the header is written there and
    [last] is linked to it,
    while the break has moved DOWN by [2^64 - (BLOCK_SIZE + size)] or, where
    the kernel does not permit that, has stayed where it was: the new
    block lies at or above the break. *)
Theorem request_space_negative s last size :
  0 < brk_lo s -> 0 <= brk s <= brk_hi s -> brk s < HALF ->
  HALF <= BLOCK_SIZE + size < WORD ->
  let d := WORD - (BLOCK_SIZE + size) in
  (brk s < d /\ request_space last size s = (NULL, s)) \/
  (d <= brk s /\
   exists s', request_space last size s = (brk s, s') /\
     brk s' = (if brk_lo s <=? brk s - d then brk s - d else brk s) /\
     brk s' <= brk s /\
     get_size (mem_of s') (brk s) = size /\
     get_free (mem_of s') (brk s) = 0 /\
     get_next (mem_of s') (brk s) = NULL /\
     (last <> NULL -> 0 <= last -> last + BLOCK_SIZE <= brk s ->
      get_next (mem_of s') last = brk s)).
Proof.
  intros Hlo Hb Hh Hsz d. subst d.
  unfold request_space. rewrite sbrk_zero.
  rewrite wrap_small by lia. unfold sbrk.
  replace (BLOCK_SIZE + size =? 0) with false
    by (symmetry; apply Z.eqb_neq; unfold HALF in *; lia).
  unfold signed.
  replace (BLOCK_SIZE + size <? HALF) with false
    by (symmetry; apply Z.ltb_ge; lia).
  replace (brk s + (BLOCK_SIZE + size - WORD))
    with (brk s - (WORD - (BLOCK_SIZE + size))) by lia.
  replace (BLOCK_SIZE + size - WORD <? 0) with true
    by (symmetry; apply Z.ltb_lt; lia).
  set (d := WORD - (BLOCK_SIZE + size)) in *.
  assert (Hne : (brk s =? SBRK_FAILED) = false)
    by (apply Z.eqb_neq; unfold SBRK_FAILED, wrap, WORD, HALF in *; cbn; lia).
  assert (Hfields :
            let m1 := if last =? NULL then mem_of s
                      else set_next (mem_of s) last (brk s) in
            let m4 := set_next (set_free (set_size m1 (brk s) size) (brk s) 0)
                               (brk s) NULL in
            get_size m4 (brk s) = size /\ get_free m4 (brk s) = 0 /\
            get_next m4 (brk s) = NULL /\
            (last <> NULL -> 0 <= last -> last + BLOCK_SIZE <= brk s ->
             get_next m4 last = brk s)).
  { intros m1 m4. subst m4. fields. unfold NULL, BLOCK_SIZE, HALF, WORD in *.
    split; [memsimpl; reflexivity|]. split; [memsimpl; reflexivity|].
    split; [memsimpl; reflexivity|].
    intros Hl0 Hl1 Hl2. subst m1.
    replace (last =? 0) with false by (symmetry; apply Z.eqb_neq; exact Hl0).
    memsimpl. reflexivity. }
  destruct (brk_lo s <=? brk s - d) eqn:E.
  - apply Z.leb_le in E.
    replace (brk s - d <=? brk_hi s) with true
      by (symmetry; apply Z.leb_le; lia).
    cbn [andb]. right. split; [lia|]. rewrite Hne.
    eexists. split; [reflexivity|].
    cbn [brk mem_of with_mem with_brk].
    split; [reflexivity|]. split; [lia|]. apply Hfields.
  - apply Z.leb_gt in E. cbn [andb].
    destruct (0 <=? brk s - d) eqn:E0.
    + apply Z.leb_le in E0. right. split; [lia|]. rewrite Hne.
      eexists. split; [reflexivity|].
      cbn [brk mem_of with_mem with_brk].
      split; [reflexivity|]. split; [lia|]. apply Hfields.
    + apply Z.leb_gt in E0. left. split; [lia|].
      rewrite Z.eqb_refl. reflexivity.
Qed.

Lemma request_space_negative_witness :
  0 < brk_lo heap3 /\ 0 <= brk heap3 <= brk_hi heap3 /\ brk heap3 < HALF /\
  HALF <= BLOCK_SIZE + (WORD - 1048) < WORD /\
  ((brk heap3 < WORD - (BLOCK_SIZE + (WORD - 1048)) /\
    request_space 4264 (WORD - 1048) heap3 = (NULL, heap3)) \/
   (WORD - (BLOCK_SIZE + (WORD - 1048)) <= brk heap3 /\
    exists s', request_space 4264 (WORD - 1048) heap3 = (brk heap3, s') /\
      brk s' = (if brk_lo heap3 <=? brk heap3 - (WORD - (BLOCK_SIZE + (WORD - 1048)))
                then brk heap3 - (WORD - (BLOCK_SIZE + (WORD - 1048)))
                else brk heap3) /\
      brk s' <= brk heap3 /\
      get_size (mem_of s') (brk heap3) = WORD - 1048 /\
      get_free (mem_of s') (brk heap3) = 0 /\
      get_next (mem_of s') (brk heap3) = NULL /\
      (4264 <> NULL -> 0 <= 4264 -> 4264 + BLOCK_SIZE <= brk heap3 ->
       get_next (mem_of s') 4264 = brk heap3))).
Proof.
  assert (H0 : 0 < brk_lo heap3) by (vm_compute; reflexivity).
  assert (H1 : 0 <= brk heap3 <= brk_hi heap3) by (vm_compute; split; congruence).
  assert (H2 : brk heap3 < HALF) by (vm_compute; reflexivity).
  assert (H3 : HALF <= BLOCK_SIZE + (WORD - 1048) < WORD)
    by (vm_compute; split; [congruence|reflexivity]).
  repeat (split; [assumption|]).
  exact (request_space_negative heap3 4264 (WORD - 1048) H0 H1 H2 H3).
Defined.

(* ================================================================== *)
(** ** The memory map *)

Lemma memory_map_loop_repr l : forall m fuel a e,
  0 < a -> layout a l e -> repr m l NULL -> (length l < fuel)%nat ->
  memory_map_loop fuel m (first_addr l NULL) = Some (lines_of l NULL).
Proof.
  induction l as [|b l IH]; intros m fuel a e Ha Hlay Hr Hfuel;
    (destruct fuel as [|fuel]; [cbn in Hfuel; lia|]).
  - reflexivity.
  - cbn [layout repr first_addr length] in *.
    destruct Hlay as (Hb & Hs & Hlay). destruct Hr as ((Hsz & Hf & Hn) & Hr).
    cbn [memory_map_loop lines_of].
    replace (baddr b =? NULL) with false
      by (symmetry; apply Z.eqb_neq; unfold NULL; lia).
    rewrite Hn, Hsz, Hf, b2z_nonzero.
    rewrite (IH m fuel (a + BLOCK_SIZE + bsize b) e); try assumption;
      [reflexivity|unfold BLOCK_SIZE; lia|lia].
Qed.

Lemma memory_map_of_wf l s fuel :
  wf_with l s -> (length l < fuel)%nat ->
  print_memory_map fuel s = Some (lines_of l NULL).
Proof.
  intros (Hlo & Hbrk & Hhi & Hhead & Hfirst & Hlay & Hrepr) Hfuel.
  unfold print_memory_map. rewrite Hhead.
  apply (memory_map_loop_repr l (mem_of s) fuel (first_addr l (brk s)) (brk s));
    try assumption. lia.
Qed.

Lemma layout_bytes l : forall a e t,
  layout a l e -> map_bytes (lines_of l t) = e - a.
Proof.
  induction l as [|b l IH]; intros a e t H; cbn [layout lines_of] in *.
  - cbn. lia.
  - destruct H as (Hb & Hs & H).
    unfold map_bytes in *. cbn [fold_right fst snd].
    rewrite (IH _ _ t H). lia.
Qed.

(** X18: [print_memory_map] accounts for the whole arena: on a well-formed heap
    it terminates, prints nothing when [head] is [NULL], and otherwise the
    headers and payloads of the printed blocks add up to the distance from
    [head] to the break; every printed size is a [size_t] below [2^63]. *)
Theorem memory_map_accounts s :
  wf s ->
  exists n, forall fuel, (n <= fuel)%nat ->
    exists lines, print_memory_map fuel s = Some lines /\
      (head s = NULL -> lines = []) /\
      (head s <> NULL -> map_bytes lines = brk s - head s) /\
      Forall (fun ln => 0 <= snd (fst ln) < HALF) lines.
Proof.
  intros (l & Hwf). exists (S (length l)). intros fuel Hfuel.
  exists (lines_of l NULL).
  split; [apply (memory_map_of_wf l s fuel Hwf); lia|].
  split; [intros Hh; rewrite (wf_head_null _ _ Hwf Hh); reflexivity|].
  split.
  - intros Hh. pose proof Hwf as (_ & _ & _ & Hhead & _ & Hlay & _).
    rewrite (layout_bytes l _ _ NULL Hlay).
    destruct l as [|b l]; [cbn in Hhead; congruence|].
    cbn [first_addr] in *. lia.
  - assert (Hall : forall b, In b l -> 0 <= bsize b < HALF).
    { intros b Hb. pose proof (wf_addr_bounds _ _ _ Hwf Hb).
      unfold BLOCK_SIZE in *. lia. }
    clear Hwf Hfuel. induction l as [|b l IH]; cbn [lines_of]; constructor.
    + cbn [fst snd]. apply Hall. left. reflexivity.
    + apply IH. intros c Hc. apply Hall. right. exact Hc.
Qed.

Lemma memory_map_accounts_witness :
  wf heap7 /\
  exists n, forall fuel, (n <= fuel)%nat ->
    exists lines, print_memory_map fuel heap7 = Some lines /\
      (head heap7 = NULL -> lines = []) /\
      (head heap7 <> NULL -> map_bytes lines = brk heap7 - head heap7) /\
      Forall (fun ln => 0 <= snd (fst ln) < HALF) lines.
Proof.
  assert (Hwf : wf heap7) by (apply (wf_check_sound 8); vm_compute; reflexivity).
  split; [exact Hwf|]. exact (memory_map_accounts heap7 Hwf).
Defined.

(* ================================================================== *)
(** ** The coalescing pass on its own *)

Lemma coal_noop l : forall cur, no_adj_free (cur :: l) -> coal cur l = cur :: l.
Proof.
  induction l as [|c l IH]; intros cur Hn; [reflexivity|].
  cbn [no_adj_free] in Hn. destruct Hn as (Hcc & Hn).
  cbn [coal]. rewrite Hcc. f_equal. apply IH. exact Hn.
Qed.

(** X19: [coalesce] on any well-formed heap: the pass terminates and leaves a
    well-formed heap with the same [head] and break in which no two
    neighbours are free; every live pointer stays live with its size and
    payload bytes; and a second pass returns the state as it is. *)
Theorem coalesce_spec s :
  wf s ->
  exists n, forall fuel, (n <= fuel)%nat ->
    exists s', coalesce fuel s = Some s' /\
      wf s' /\ no_adjacent_free s' /\
      head s' = head s /\ brk s' = brk s /\
      (forall q, live s q ->
         live s' q /\
         get_size (mem_of s') (q - BLOCK_SIZE) = get_size (mem_of s) (q - BLOCK_SIZE) /\
         forall i, 0 <= i < get_size (mem_of s) (q - BLOCK_SIZE) ->
                   mem_of s' (q + i) = mem_of s (q + i)) /\
      coalesce fuel s' = Some s'.
Proof.
  intros (l & Hwf). exists (S (S (length l))). intros fuel Hfuel.
  pose proof Hwf as (Hlo & Hbrk & Hhi & Hhead & Hfirst & Hlay & Hrepr).
  destruct l as [|b l].
  { (* no block at all *)
    cbn [first_addr] in Hhead. exists s.
    assert (Hrun : coalesce fuel s = Some s).
    { unfold coalesce. rewrite Hhead. destruct fuel; [lia|].
      cbn. destruct s; reflexivity. }
    split; [exact Hrun|]. split; [exists []; exact Hwf|].
    split; [apply (wf_no_adj_free [] s Hwf); exact I|].
    do 2 (split; [reflexivity|]). split; [|exact Hrun].
    intros q Hq. split; [exact Hq|]. split; reflexivity. }
  cbn [first_addr length] in *.
  destruct (coalesce_loop_ok l b [] (mem_of s) fuel (baddr b) (brk s))
    as (m' & Hrun & Hrepr' & Hlay' & Hframe); try assumption; try lia.
  cbn [app] in *.
  set (s' := with_mem s m').
  assert (Hwf' : wf_with (coal b l) s').
  { destruct (coal_first b l) as (sz & rest & Hc).
    unfold wf_with. subst s'. cbn [with_mem head brk brk_lo brk_hi mem_of].
    rewrite Hc in *. cbn [first_addr baddr].
    split; [exact Hlo|]. split; [exact Hbrk|]. split; [exact Hhi|].
    split; [exact Hhead|]. split; [exact Hfirst|].
    split; [exact Hlay'|exact Hrepr']. }
  assert (Hn : no_adj_free (coal b l)) by apply coal_no_adj_free.
  assert (Hrun' : coalesce fuel s = Some s').
  { unfold coalesce. rewrite Hhead, Hrun. reflexivity. }
  exists s'. split; [exact Hrun'|]. split; [exists (coal b l); exact Hwf'|].
  split; [exact (wf_no_adj_free _ _ Hwf' Hn)|].
  do 2 (split; [reflexivity|]). split.
  - intros q Hq.
    destruct (live_block _ _ _ Hwf Hq) as (k1 & c & k2 & Hk & Hca & Hcf).
    assert (Hc : In c (b :: l)) by (rewrite Hk; apply in_middle).
    assert (Hc' : In c (coal b l)) by (apply coal_keeps_used; assumption).
    replace q with (baddr c + BLOCK_SIZE) by lia.
    replace (baddr c + BLOCK_SIZE - BLOCK_SIZE) with (baddr c) by lia.
    rewrite (wf_get_size _ _ _ Hwf' Hc'), (wf_get_size _ _ _ Hwf Hc).
    split; [exact (block_live _ _ _ Hwf' Hc' Hcf)|]. split; [reflexivity|].
    intros i Hi. unfold s'. cbn [mem_of with_mem]. apply Hframe.
    intros d Hd Hdf.
    assert (Hne : baddr c <> baddr d).
    { intros E. pose proof (layout_addr_inj _ _ _ _ _ Hlay Hc Hd E). congruence. }
    pose proof (layout_disjoint _ _ _ _ _ Hlay Hc Hd Hne).
    pose proof (layout_In _ _ _ _ Hlay Hd). unfold BLOCK_SIZE in *. lia.
  - unfold coalesce. subst s'. cbn [head mem_of with_mem]. rewrite Hhead.
    destruct (coal_first b l) as (sz & rest & Hc).
    pose proof (coal_length l b) as Hlen.
    rewrite Hc in *. cbn [length] in Hlen.
    pose proof (coalesce_loop_noop rest (mkblk (baddr b) sz (bfree b)) [] m' fuel
                  (baddr b) (brk s)) as Hnoop.
    cbn [baddr app] in Hnoop.
    rewrite Hnoop; try assumption; [reflexivity|lia|lia].
Qed.

Lemma coalesce_spec_witness :
  wf trio2 /\
  exists n, forall fuel, (n <= fuel)%nat ->
    exists s', coalesce fuel trio2 = Some s' /\
      wf s' /\ no_adjacent_free s' /\
      head s' = head trio2 /\ brk s' = brk trio2 /\
      (forall q, live trio2 q ->
         live s' q /\
         get_size (mem_of s') (q - BLOCK_SIZE)
         = get_size (mem_of trio2) (q - BLOCK_SIZE) /\
         forall i, 0 <= i < get_size (mem_of trio2) (q - BLOCK_SIZE) ->
                   mem_of s' (q + i) = mem_of trio2 (q + i)) /\
      coalesce fuel s' = Some s'.
Proof.
  assert (Hwf : wf trio2) by (apply (wf_check_sound 8); vm_compute; reflexivity).
  split; [exact Hwf|]. exact (coalesce_spec trio2 Hwf).
Defined.

(* ================================================================== *)
(** ** Releasing twice *)

(** X20: On a heap without two adjacent free blocks, [my_free] of a pointer
    that has been released already is harmless: only the four bytes of the
    block's [free] field are written, the flag stays set, the heap stays
    well formed with the same [head] and break, and the memory map is the
    one printed before the call. *)
Theorem double_free_harmless s p :
  wf s -> no_adjacent_free s -> released s p ->
  exists n, forall fuel, (n <= fuel)%nat ->
    exists s', my_free fuel p s = Some s' /\
      wf s' /\ head s' = head s /\ brk s' = brk s /\
      get_free (mem_of s') (p - BLOCK_SIZE) <> 0 /\
      (forall x, x < p - 16 \/ p - 12 <= x -> mem_of s' x = mem_of s x) /\
      print_memory_map fuel s' = print_memory_map fuel s.
Proof.
  intros (l & Hwf) Hnaf (la & Hch & Hin & Hfree).
  exists (S (length l)). intros fuel Hfuel.
  pose proof (chain_fun _ _ _ _ Hch (wf_chain _ _ Hwf)). subst la.
  apply in_map_iff in Hin. destruct Hin as (b & Hba & Hb).
  pose proof Hwf as (Hlo & Hbrk & Hhi & Hhead & Hfirst & Hlay & Hrepr).
  destruct (repr_In _ _ _ _ Hrepr Hb) as (_ & Hbf).
  rewrite <- Hba in Hfree. rewrite Hbf in Hfree.
  assert (Hfb : bfree b = true) by (destruct (bfree b); [reflexivity|cbn in Hfree; congruence]).
  destruct (wf_addr_bounds _ _ _ Hwf Hb) as (Hbpos & Hbs & Hbend & Hbrk').
  destruct (in_split _ _ Hb) as (l1 & l2 & Hl).
  pose proof (wf_no_adj_free_inv _ _ Hwf Hnaf) as Hn.
  assert (Hbeq : mkblk (baddr b) (bsize b) true = b)
    by (destruct b; cbn in *; subst; reflexivity).
  set (s1 := with_mem s (set_free (mem_of s) (baddr b) 1)).
  assert (Hwf1 : wf_with l s1).
  { pose proof Hwf as Hw. rewrite Hl in Hw.
    pose proof (set_free_in_chain l1 b l2 s true Hw) as Hw1.
    rewrite Hbeq, <- Hl in Hw1. exact Hw1. }
  assert (Hrun : my_free fuel p s = Some s1).
  { unfold my_free, get_block_ptr.
    replace (p =? NULL) with false
      by (symmetry; apply Z.eqb_neq; consts; lia).
    rewrite wrap_small by (consts; lia). rewrite <- Hba. fold s1.
    unfold coalesce.
    pose proof Hwf1 as (_ & _ & _ & Hhead1 & _ & Hlay1 & Hrepr1).
    destruct l as [|c l]; [contradiction|].
    cbn [first_addr length] in *. rewrite Hhead1.
    rewrite (coalesce_loop_noop l c [] (mem_of s1) fuel (baddr c) (brk s1));
      try assumption; [destruct s1; reflexivity|lia|lia]. }
  exists s1. split; [exact Hrun|]. split; [exists l; exact Hwf1|].
  do 2 (split; [reflexivity|]).
  split.
  { rewrite <- Hba.
    pose proof Hwf1 as (_ & _ & _ & _ & _ & _ & Hrepr1).
    destruct (repr_In _ _ _ _ Hrepr1 Hb) as (_ & ->). rewrite Hfb. discriminate. }
  split.
  { intros x Hx. unfold s1. cbn [mem_of with_mem]. fields.
    apply store_outside. unfold BLOCK_SIZE in *. cbn. lia. }
  rewrite (memory_map_of_wf l s1 fuel Hwf1) by lia.
  rewrite (memory_map_of_wf l s fuel Hwf) by lia. reflexivity.
Qed.

Lemma double_free_harmless_witness :
  wf heap7 /\ no_adjacent_free heap7 /\ released heap7 4120 /\
  exists n, forall fuel, (n <= fuel)%nat ->
    exists s', my_free fuel 4120 heap7 = Some s' /\
      wf s' /\ head s' = head heap7 /\ brk s' = brk heap7 /\
      get_free (mem_of s') (4120 - BLOCK_SIZE) <> 0 /\
      (forall x, x < 4120 - 16 \/ 4120 - 12 <= x ->
                 mem_of s' x = mem_of heap7 x) /\
      print_memory_map fuel s' = print_memory_map fuel heap7.
Proof.
  assert (Hwf : wf heap7) by (apply (wf_check_sound 8); vm_compute; reflexivity).
  assert (Hn : no_adjacent_free heap7).
  { exists [4096; 4160; 4264].
    split; [apply (walk_chain 8); vm_compute; reflexivity|].
    cbn [adjacent]. repeat apply conj; try exact I;
      intros (H1 & H2); vm_compute in H1, H2; congruence. }
  assert (Hr : released heap7 4120).
  { exists [4096; 4160; 4264].
    split; [apply (walk_chain 8); vm_compute; reflexivity|].
    split; [left; reflexivity|vm_compute; congruence]. }
  split; [exact Hwf|]. split; [exact Hn|]. split; [exact Hr|].
  exact (double_free_harmless heap7 4120 Hwf Hn Hr).
Defined.

(* ================================================================== *)
(** ** Alignment under aligned use *)

Lemma sizes_multiple_aligned l s :
  wf_with l s -> sizes_multiple l -> sizes_aligned s.
Proof.
  intros Hwf Hal. exists (map baddr l). split; [exact (wf_chain _ _ Hwf)|].
  apply Forall_forall. intros a Ha. apply in_map_iff in Ha.
  destruct Ha as (b & <- & Hb). rewrite (wf_get_size _ _ _ Hwf Hb).
  exact (proj1 (Forall_forall _ _) Hal b Hb).
Qed.

Lemma aligned_sizes_multiple l s :
  wf_with l s -> sizes_aligned s -> sizes_multiple l.
Proof.
  intros Hwf (la & Hch & Hall).
  pose proof (chain_fun _ _ _ _ Hch (wf_chain _ _ Hwf)). subst la.
  apply Forall_forall. intros b Hb.
  rewrite <- (wf_get_size _ _ _ Hwf Hb).
  apply (proj1 (Forall_forall _ _) Hall). apply in_map. exact Hb.
Qed.

Lemma layout_aligned l : forall a e,
  layout a l e -> sizes_multiple l -> e mod ALIGNMENT = 0 ->
  a mod ALIGNMENT = 0 /\ forall b, In b l -> baddr b mod ALIGNMENT = 0.
Proof.
  induction l as [|b l IH]; intros a e Hlay Hal He; cbn [layout] in Hlay.
  - subst a. split; [exact He|intros b []].
  - destruct Hlay as (Hb & Hs & Hlay). inversion Hal as [|? ? Hbm Hal']; subst.
    destruct (IH _ _ Hlay Hal' He) as (Ha & Hall).
    assert (Hbm' : baddr b mod ALIGNMENT = 0).
    { unfold ALIGNMENT, BLOCK_SIZE in *.
      revert Ha Hbm. generalize (baddr b) (bsize b). intros x y.
      intros H1 H2. apply Z.mod_divide in H1; [|lia]. apply Z.mod_divide in H2; [|lia].
      apply Z.mod_divide; [lia|].
      destruct H1 as (u & Hu). destruct H2 as (v & Hv).
      exists (u - 3 - v). lia. }
    split; [exact Hbm'|].
    intros c [<-|Hc]; [exact Hbm'|exact (Hall c Hc)].
Qed.

Lemma sizes_multiple_app l1 l2 :
  sizes_multiple (l1 ++ l2) <-> sizes_multiple l1 /\ sizes_multiple l2.
Proof. apply Forall_app. Qed.

Lemma coal_sizes_multiple l : forall cur,
  sizes_multiple (cur :: l) -> sizes_multiple (coal cur l).
Proof.
  induction l as [|c l IH]; intros cur Hal; cbn [coal]; [exact Hal|].
  inversion Hal as [|? ? Hcur Hal']; subst.
  inversion Hal' as [|? ? Hc Hal'']; subst.
  destruct (bfree cur && bfree c).
  - apply IH. constructor; [|exact Hal''].
    cbn [merge bsize]. unfold ALIGNMENT, BLOCK_SIZE in *.
    apply Z.mod_divide in Hcur; [|lia]. apply Z.mod_divide in Hc; [|lia].
    apply Z.mod_divide; [lia|].
    destruct Hcur as (u & Hu). destruct Hc as (v & Hv).
    exists (u + 3 + v). lia.
  - constructor; [exact Hcur|]. apply IH. exact Hal'.
Qed.

Lemma coal_list_sizes_multiple L : sizes_multiple L -> sizes_multiple (coal_list L).
Proof. destruct L; [intros; constructor|apply coal_sizes_multiple]. Qed.

Lemma split_sizes_multiple l1 b l2 s size mid' :
  sizes_multiple (l1 ++ b :: l2) -> size mod ALIGNMENT = 0 ->
  (size + BLOCK_SIZE + ALIGNMENT <= bsize b /\
   mid' = [mkblk (baddr b) size (bfree b);
           mkblk (baddr b + BLOCK_SIZE + size)
                 (bsize b - size - BLOCK_SIZE) true]) \/
  (bsize b < size + BLOCK_SIZE + ALIGNMENT /\ mid' = [b] /\
   split_block (mem_of s) (baddr b) size = mem_of s) ->
  sizes_multiple (l1 ++ mid' ++ l2).
Proof.
  intros Hal Hsz Hcase.
  apply sizes_multiple_app in Hal. destruct Hal as (H1 & Hal).
  inversion Hal as [|? ? Hb H2]; subst.
  apply sizes_multiple_app. split; [exact H1|].
  apply sizes_multiple_app. split; [|exact H2].
  destruct Hcase as [(_ & ->)|(_ & -> & _)].
  - constructor; [exact Hsz|]. constructor; [|constructor].
    cbn [bsize]. unfold ALIGNMENT, BLOCK_SIZE in *.
    apply Z.mod_divide in Hb; [|lia]. apply Z.mod_divide in Hsz; [|lia].
    apply Z.mod_divide; [lia|].
    destruct Hb as (u & Hu). destruct Hsz as (v & Hv).
    exists (u - v - 3). lia.
  - constructor; [exact Hb|constructor].
Qed.

Lemma my_malloc_aligned l s size fuel :
  wf_with l s -> sizes_multiple l -> brk s mod ALIGNMENT = 0 ->
  0 <= size <= MAX_REQUEST -> (length l < fuel)%nat ->
  exists r s' l', my_malloc fuel size s = Some (r, s') /\
    wf_with l' s' /\ sizes_multiple l' /\ brk s' mod ALIGNMENT = 0 /\
    r mod ALIGNMENT = 0.
Proof.
  intros Hwf Hal Hbrk Hsz Hfuel.
  destruct (Z.eq_dec size 0) as [->|Hnz].
  { exists NULL, s, l. split; [reflexivity|]. repeat (split; [assumption|]).
    reflexivity. }
  pose proof (ALIGN_multiple size) as Ham.
  pose proof Hwf as (_ & _ & _ & _ & _ & Hlay & _).
  destruct (layout_aligned _ _ _ Hlay Hal Hbrk) as (_ & Haddr).
  destruct (my_malloc_cases l s size fuel Hwf ltac:(lia) Hfuel)
    as [(_ & [(_ & Hrun)|(_ & s' & Hrun & Hwf' & Hbrk' & _)])
       |(l1 & b & l2 & mid' & Hl & _ & Hfit & s' & Hrun & Hwf' & Hbrk' & _ & Hcase)].
  - exists NULL, s, l. split; [exact Hrun|]. repeat (split; [assumption|]).
    reflexivity.
  - exists (brk s + BLOCK_SIZE), s', (l ++ [mkblk (brk s) (ALIGN size) false]).
    split; [exact Hrun|]. split; [exact Hwf'|].
    split.
    { apply sizes_multiple_app. split; [exact Hal|].
      constructor; [exact Ham|constructor]. }
    unfold ALIGNMENT, BLOCK_SIZE in *. rewrite Hbrk'.
    apply Z.mod_divide in Hbrk; [|lia]. apply Z.mod_divide in Ham; [|lia].
    destruct Hbrk as (u & Hu). destruct Ham as (v & Hv).
    split; apply Z.mod_divide; try lia;
      [exists (u + 3 + v)|exists (u + 3)]; lia.
  - subst l. pose proof (Haddr b (in_middle l1 l2 b)) as Hba.
    exists (baddr b + BLOCK_SIZE), s', (l1 ++ mid' ++ l2).
    split; [exact Hrun|]. split; [exact Hwf'|].
    split.
    { apply sizes_multiple_app in Hal. destruct Hal as (H1 & Hal).
      inversion Hal as [|? ? Hb H2]; subst.
      apply sizes_multiple_app. split; [exact H1|].
      apply sizes_multiple_app. split; [|exact H2].
      destruct Hcase as [(_ & ->)|(_ & ->)].
      - constructor; [exact Ham|]. constructor; [|constructor].
        cbn [bsize]. unfold ALIGNMENT, BLOCK_SIZE in *.
        apply Z.mod_divide in Hb; [|lia]. apply Z.mod_divide in Ham; [|lia].
        apply Z.mod_divide; [lia|].
        destruct Hb as (u & Hu). destruct Ham as (v & Hv).
        exists (u - v - 3). lia.
      - constructor; [exact Hb|constructor]. }
    rewrite Hbrk'. split; [exact Hbrk|].
    unfold ALIGNMENT, BLOCK_SIZE in *.
    apply Z.mod_divide in Hba; [|lia]. destruct Hba as (u & Hu).
    apply Z.mod_divide; [lia|]. exists (u + 3). lia.
Qed.

Lemma my_free_aligned l s p fuel :
  wf_with l s -> sizes_multiple l -> p = NULL \/ live s p ->
  (length l <= fuel)%nat ->
  exists s' l', my_free fuel p s = Some s' /\
    wf_with l' s' /\ sizes_multiple l' /\ brk s' = brk s.
Proof.
  intros Hwf Hal [->|Hlive] Hfuel.
  { exists s, l. split; [reflexivity|]. repeat (split; [assumption|]).
    reflexivity. }
  destruct (live_block _ _ _ Hwf Hlive) as (l1 & b & l2 & -> & Hba & Hbf).
  destruct (my_free_ok l1 b l2 s fuel Hwf Hfuel) as (m' & Hrun & Hwf' & _).
  replace (baddr b + BLOCK_SIZE) with p in Hrun by lia.
  eexists _, _. split; [exact Hrun|]. split; [exact Hwf'|].
  split; [|reflexivity].
  apply coal_list_sizes_multiple.
  apply sizes_multiple_app in Hal. destruct Hal as (H1 & Hal).
  inversion Hal as [|? ? Hb H2]; subst.
  apply sizes_multiple_app. split; [exact H1|].
  constructor; [exact Hb|exact H2].
Qed.

Lemma aligned_step fuel c s r s' :
  wf s -> aligned_heap s -> valid_call s c -> aligned_call c ->
  run fuel c s = Some (r, s') ->
  aligned_heap s' /\ r mod ALIGNMENT = 0.
Proof.
  intros (l & Hwf) (Hbrk & Hsa) Hv Hac Hrun.
  pose proof (aligned_sizes_multiple _ _ Hwf Hsa) as Hal.
  apply (run_mono fuel (max fuel (length l + 3))) in Hrun; [|lia].
  set (F := max fuel (length l + 3)) in *.
  assert (HF : (length l + 3 <= F)%nat) by lia. clearbody F.
  unfold aligned_heap.
  destruct c as [size|p|p size]; cbn [run valid_call aligned_call] in *.
  - destruct (my_malloc_aligned l s size F Hwf Hal Hbrk Hv ltac:(lia))
      as (r' & s1 & l' & Hrun' & Hwf' & Hal' & Hbrk' & Hr).
    rewrite Hrun' in Hrun. injection Hrun as <- <-.
    split; [split; [exact Hbrk'|exact (sizes_multiple_aligned _ _ Hwf' Hal')]|exact Hr].
  - destruct (my_free_aligned l s p F Hwf Hal Hv ltac:(lia))
      as (s1 & l' & Hrun' & Hwf' & Hal' & Hbrk').
    rewrite Hrun' in Hrun. injection Hrun as <- <-.
    split; [split; [rewrite Hbrk'; exact Hbrk
                   |exact (sizes_multiple_aligned _ _ Hwf' Hal')]|reflexivity].
  - destruct Hv as (Hp & Hsz).
    destruct Hp as [->|Hlive].
    { (* [my_realloc(NULL, size)] is [my_malloc(size)] *)
      destruct (my_malloc_aligned l s size F Hwf Hal Hbrk Hsz ltac:(lia))
        as (r' & s1 & l' & Hrun' & Hwf' & Hal' & Hbrk' & Hr).
      unfold my_realloc in Hrun. cbn [NULL Z.eqb] in Hrun.
      change (0 =? 0) with true in Hrun. cbn iota in Hrun.
      rewrite Hrun' in Hrun. injection Hrun as <- <-.
      split; [split; [exact Hbrk'|exact (sizes_multiple_aligned _ _ Hwf' Hal')]|exact Hr]. }
    destruct (live_block _ _ _ Hwf Hlive) as (l1 & b & l2 & Hl & Hba & Hbf).
    assert (Hb : In b l) by (rewrite Hl; apply in_middle).
    destruct (wf_addr_bounds _ _ _ Hwf Hb) as (Hbpos & Hbs & Hbend & Hbrk').
    pose proof Hwf as (_ & _ & _ & _ & _ & Hlay & _).
    destruct (layout_aligned _ _ _ Hlay Hal Hbrk) as (_ & Haddr).
    assert (Hpm : p mod ALIGNMENT = 0).
    { pose proof (Haddr b Hb) as Hbm. unfold ALIGNMENT, BLOCK_SIZE in *.
      apply Z.mod_divide in Hbm; [|lia]. destruct Hbm as (u & Hu).
      apply Z.mod_divide; [lia|]. exists (u + 3). lia. }
    destruct (Z.eq_dec size 0) as [->|Hnz].
    { (* [my_realloc(p, 0)] is [my_free(p)] *)
      destruct (my_free_aligned l s p F Hwf Hal (or_intror Hlive) ltac:(lia))
        as (s1 & l' & Hrun' & Hwf' & Hal' & Hbrk1).
      unfold my_realloc in Hrun.
      replace (p =? NULL) with false in Hrun
        by (symmetry; apply Z.eqb_neq; consts; lia).
      cbn [Z.eqb] in Hrun. rewrite Hrun' in Hrun. injection Hrun as <- <-.
      split; [split; [rewrite Hbrk1; exact Hbrk
                     |exact (sizes_multiple_aligned _ _ Hwf' Hal')]|reflexivity]. }
    replace p with (baddr b + BLOCK_SIZE) in * by lia.
    destruct (Z_le_gt_dec size (bsize b)) as [Hle|Hgt].
    + (* shrink in place *)
      rewrite Hl in Hwf.
      destruct (my_realloc_shrink_ok l1 b l2 s size Hwf ltac:(lia)) as (_ & Hrun' & _).
      rewrite my_realloc_fuel_irrelevant_shrink in Hrun.
      * rewrite Hrun' in Hrun. injection Hrun as <- <-.
        destruct (split_in_chain l1 b l2 s size Hwf ltac:(lia))
          as (mid' & Hwf' & _ & Hcase).
        rewrite Hl in Hal.
        pose proof (split_sizes_multiple l1 b l2 s size mid' Hal Hac Hcase) as Hal'.
        split; [split; [exact Hbrk
                       |exact (sizes_multiple_aligned _ _ Hwf' Hal')]|exact Hpm].
      * consts. lia.
      * exact Hnz.
      * unfold get_block_ptr.
        replace (baddr b + BLOCK_SIZE - BLOCK_SIZE) with (baddr b) by lia.
        rewrite wrap_small by (consts; lia).
        rewrite (wf_get_size _ _ _ Hwf (in_middle l1 l2 b)). lia.
    + (* grow: allocate, copy, release *)
      pose proof (wf_get_size _ _ _ Hwf Hb) as Hgs.
      unfold my_realloc, get_block_ptr in Hrun.
      replace (baddr b + BLOCK_SIZE =? NULL) with false in Hrun
        by (symmetry; apply Z.eqb_neq; consts; lia).
      replace (size =? 0) with false in Hrun by (symmetry; apply Z.eqb_neq; lia).
      replace (baddr b + BLOCK_SIZE - BLOCK_SIZE) with (baddr b) in Hrun by lia.
      rewrite wrap_small in Hrun by (consts; lia).
      rewrite Hgs in Hrun.
      replace (size <=? bsize b) with false in Hrun by (symmetry; apply Z.leb_gt; lia).
      destruct (my_malloc_aligned l s size F Hwf Hal Hbrk Hsz ltac:(lia))
        as (r1 & s1 & lA & HrunA & HwfA & HalA & HbrkA & Hr1).
      destruct (my_malloc_ok l s size F Hwf Hsz ltac:(lia))
        as (r2 & s2 & HrunB & Hres).
      rewrite HrunA in HrunB. injection HrunB as <- <-.
      rewrite HrunA in Hrun.
      destruct Hres as [(-> & ->)|(Hr & Hpost)].
      { cbn [NULL Z.eqb] in Hrun. injection Hrun as <- <-.
        split; [split; [exact Hbrk|exact Hsa]|reflexivity]. }
      replace (r1 =? NULL) with false in Hrun by (symmetry; apply Z.eqb_neq; exact Hr).
      destruct Hpost as (lB & nb & HwfB & Hnb & Hrnb & Hnbf & Hnbs & Hlen & Hused & _).
      rewrite Hl in Hused.
      destruct (Hused b (in_middle l1 l2 b) Hbf) as (Hb' & Hbnb).
      pose proof (aligned_sizes_multiple _ _ HwfB
                    (sizes_multiple_aligned _ _ HwfA HalA)) as HalB.
      rewrite (wf_get_size _ _ _ HwfB Hb') in Hrun.
      destruct (ALIGN_bounds size) as (Halb & _); [consts; lia|].
      subst r1.
      pose proof (memcpy_payload_wf lB s1 nb (baddr b + BLOCK_SIZE) (bsize b)
                    HwfB Hnb ltac:(lia)) as Hwf2.
      set (m2 := memcpy (mem_of s1) (baddr nb + BLOCK_SIZE)
                        (baddr b + BLOCK_SIZE) (bsize b)) in *.
      assert (Hlive2 : live (with_mem s1 m2) (baddr b + BLOCK_SIZE))
        by exact (block_live _ _ _ Hwf2 Hb' Hbf).
      rewrite Hl in Hlen. rewrite length_app in Hlen. cbn [length] in Hlen.
      rewrite Hl in HF. rewrite length_app in HF. cbn [length] in HF.
      destruct (my_free_aligned lB (with_mem s1 m2) (baddr b + BLOCK_SIZE) F
                  Hwf2 HalB (or_intror Hlive2) ltac:(lia))
        as (s3 & l3 & Hrun3 & Hwf3 & Hal3 & Hbrk3).
      rewrite Hrun3 in Hrun. injection Hrun as <- <-.
      split; [split; [rewrite Hbrk3; exact HbrkA
                     |exact (sizes_multiple_aligned _ _ Hwf3 Hal3)]|exact Hr1].
Qed.


(** X21: Alignment is kept by aligned use: on a well-formed heap whose
    break and size fields are multiples of 8, a call of [my_malloc] or
    [my_free] with a [NULL] or live pointer and a size of at most
    [MAX_REQUEST], or such a call of [my_realloc] whose size is a multiple
    of 8, returns, given enough fuel, leaves the break and every size
    field a multiple of 8, and returns a pointer that is a multiple of
    8. *)
Theorem aligned_use_stays_aligned s c :
  wf s -> aligned_heap s -> valid_call s c -> aligned_call c ->
  exists n, forall fuel, (n <= fuel)%nat ->
    exists r s', run fuel c s = Some (r, s') /\
      aligned_heap s' /\ r mod ALIGNMENT = 0.
Proof.
  intros Hwf Hah Hv Hac. pose proof Hwf as (l & Hl).
  exists (length l + 2)%nat. intros fuel Hfuel.
  destruct (run_ok l s c fuel Hl Hv Hfuel) as (r & s' & _ & Hrun & _).
  exists r, s'. split; [exact Hrun|].
  exact (aligned_step fuel c s r s' Hwf Hah Hv Hac Hrun).
Qed.

Lemma aligned_use_stays_aligned_witness :
  wf heap4 /\ aligned_heap heap4 /\ valid_call heap4 (Realloc 4120 8) /\
  aligned_call (Realloc 4120 8) /\
  exists n, forall fuel, (n <= fuel)%nat ->
    exists r s', run fuel (Realloc 4120 8) heap4 = Some (r, s') /\
      aligned_heap s' /\ r mod ALIGNMENT = 0.
Proof.
  assert (Hwf : wf heap4) by (apply (wf_check_sound 8); vm_compute; reflexivity).
  assert (Hah : aligned_heap heap4).
  { split; [vm_compute; reflexivity|].
    exists [4096; 4160; 4264].
    split; [apply (walk_chain 8); vm_compute; reflexivity|].
    repeat constructor. }
  assert (Hv : valid_call heap4 (Realloc 4120 8)).
  { split; [right; apply (live_check_sound 8); vm_compute; reflexivity|].
    vm_compute. split; congruence. }
  assert (Hac : aligned_call (Realloc 4120 8)) by (vm_compute; reflexivity).
  split; [exact Hwf|]. split; [exact Hah|]. split; [exact Hv|].
  split; [exact Hac|].
  exact (aligned_use_stays_aligned heap4 (Realloc 4120 8) Hwf Hah Hv Hac).
Defined.

(* ================================================================== *)
(** ** What [my_realloc] leaves alone *)

(** X22: [my_realloc] does not disturb other allocations: whichever path it
    takes (release for size 0, shrink in place, or allocate, copy and
    release), every live pointer other than [p] stays live with its size
    and payload bytes, and is not the pointer returned. *)
Theorem realloc_keeps_others s p size q :
  wf s -> live s p -> live s q -> q <> p -> 0 <= size <= MAX_REQUEST ->
  exists n, forall fuel, (n <= fuel)%nat ->
    exists r s', my_realloc fuel p size s = Some (r, s') /\
      r <> q /\ live s' q /\
      get_size (mem_of s') (q - BLOCK_SIZE) = get_size (mem_of s) (q - BLOCK_SIZE) /\
      forall i, 0 <= i < get_size (mem_of s) (q - BLOCK_SIZE) ->
                mem_of s' (q + i) = mem_of s (q + i).
Proof.
  intros (l & Hwf) Hp Hq Hqp Hsz. exists (length l + 2)%nat. intros fuel Hfuel.
  destruct (live_block _ _ _ Hwf Hp) as (l1 & b & l2 & Hl & Hba & Hbf).
  destruct (live_block _ _ _ Hwf Hq) as (j1 & c & j2 & Hj & Hca & Hcf).
  assert (Hb : In b l) by (rewrite Hl; apply in_middle).
  assert (Hc : In c l) by (rewrite Hj; apply in_middle).
  assert (Hne : baddr c <> baddr b) by lia.
  destruct (wf_addr_bounds _ _ _ Hwf Hb) as (Hbpos & Hbs & Hbend & Hbrk').
  destruct (wf_addr_bounds _ _ _ Hwf Hc) as (Hcpos & Hcs & Hcend & _).
  pose proof Hwf as (_ & _ & _ & _ & _ & Hlay & _).
  pose proof (wf_get_size _ _ _ Hwf Hb) as Hgb.
  pose proof (wf_get_size _ _ _ Hwf Hc) as Hgc.
  replace p with (baddr b + BLOCK_SIZE) in * by lia.
  replace q with (baddr c + BLOCK_SIZE) in * by lia.
  replace (baddr c + BLOCK_SIZE - BLOCK_SIZE) with (baddr c) in * by lia.
  rewrite Hgc.
  unfold my_realloc, get_block_ptr.
  replace (baddr b + BLOCK_SIZE =? NULL) with false
    by (symmetry; apply Z.eqb_neq; consts; lia).
  replace (baddr b + BLOCK_SIZE - BLOCK_SIZE) with (baddr b) by lia.
  rewrite wrap_small by (consts; lia). rewrite Hgb.
  subst l.
  destruct (Z.eq_dec size 0) as [->|Hnz].
  { (* release *)
    cbn [Z.eqb].
    destruct (my_free_ok l1 b l2 s fuel Hwf ltac:(lia)) as (m' & -> & Hwf' & Hfr).
    destruct (my_free_keeps_used l1 b l2 s m' c Hwf Hfr Hc Hcf Hne) as (Hc' & Hkeep).
    eexists _, _. split; [reflexivity|].
    split; [consts; lia|].
    split; [exact (block_live _ _ _ Hwf' Hc' Hcf)|].
    pose proof (wf_get_size _ _ _ Hwf' Hc') as Hg. split; [exact Hg|].
    intros i Hi. cbn [mem_of with_mem]. apply Hkeep. unfold BLOCK_SIZE. lia. }
  replace (size =? 0) with false by (symmetry; apply Z.eqb_neq; lia).
  destruct (size <=? bsize b) eqn:E.
  { (* shrink in place *)
    apply Z.leb_le in E.
    destruct (split_in_chain l1 b l2 s size Hwf ltac:(lia))
      as (mid' & Hwf' & Hsame & _).
    assert (Hc' : In c (l1 ++ mid' ++ l2)).
    { apply in_app_or in Hc. apply in_or_app.
      destruct Hc as [Hc|[->|Hc]]; [left; exact Hc|congruence|].
      right. apply in_or_app. right. exact Hc. }
    eexists _, _. split; [reflexivity|].
    split; [lia|].
    split; [exact (block_live _ _ _ Hwf' Hc' Hcf)|].
    pose proof (wf_get_size _ _ _ Hwf' Hc') as Hg. split; [exact Hg|].
    intros i Hi. cbn [mem_of with_mem]. apply Hsame.
    pose proof (layout_disjoint _ _ _ _ _ Hlay Hc Hb Hne).
    unfold BLOCK_SIZE in *. lia. }
  (* grow: allocate, copy, release *)
  apply Z.leb_gt in E.
  destruct (my_malloc_ok _ s size fuel Hwf ltac:(lia) ltac:(lia))
    as (r & s1 & -> & [(-> & ->)|(Hr & Hpost)]).
  { exists NULL, s. split; [reflexivity|].
    split; [consts; lia|]. split; [exact Hq|].
    split; [exact Hgc|]. intros i Hi. reflexivity. }
  replace (r =? NULL) with false by (symmetry; apply Z.eqb_neq; exact Hr).
  destruct Hpost as (l' & nb & Hwf1 & Hnb & Hrnb & Hnbf & Hnbs & Hlen & Hused & Hpay).
  destruct (Hused b Hb Hbf) as (Hb' & Hbnb).
  destruct (Hused c Hc Hcf) as (Hc' & Hcnb).
  rewrite (wf_get_size _ _ _ Hwf1 Hb').
  destruct (ALIGN_bounds size) as (Hal & _); [consts; lia|].
  subst r.
  pose proof (memcpy_payload_wf l' s1 nb (baddr b + BLOCK_SIZE) (bsize b)
                Hwf1 Hnb ltac:(lia)) as Hwf2.
  set (m2 := memcpy (mem_of s1) (baddr nb + BLOCK_SIZE) (baddr b + BLOCK_SIZE) (bsize b)) in *.
  pose proof Hwf1 as (_ & _ & _ & _ & _ & Hlay1 & _).
  destruct (in_split _ _ Hb') as (k1 & k2 & Hk). subst l'.
  destruct (my_free_ok k1 b k2 (with_mem s1 m2) fuel Hwf2 ltac:(lia))
    as (m3 & -> & Hwf3 & Hfr).
  destruct (my_free_keeps_used k1 b k2 (with_mem s1 m2) m3 c Hwf2 Hfr Hc' Hcf Hne)
    as (Hc3 & Hkeep).
  cbn [with_mem head brk brk_lo brk_hi mem_of] in *.
  eexists _, _. split; [reflexivity|].
  split; [lia|].
  split; [exact (block_live _ _ _ Hwf3 Hc3 Hcf)|].
  pose proof (wf_get_size _ _ _ Hwf3 Hc3) as Hg. split; [exact Hg|].
  intros i Hi. cbn [mem_of with_mem].
  rewrite Hkeep by (unfold BLOCK_SIZE in *; lia).
  subst m2.
  rewrite (same_out_memcpy (mem_of s1) (baddr nb + BLOCK_SIZE)
             (baddr b + BLOCK_SIZE) (bsize b)).
  - apply (Hpay c); [exact Hc|exact Hcf|unfold BLOCK_SIZE in *; lia].
  - pose proof (layout_disjoint _ _ _ _ _ Hlay1 Hc' Hnb Hcnb).
    unfold BLOCK_SIZE in *. lia.
Qed.

Lemma realloc_keeps_others_witness :
  wf heap3 /\ live heap3 4184 /\ live heap3 4120 /\ 4120 <> 4184 /\
  0 <= 200 <= MAX_REQUEST /\
  exists n, forall fuel, (n <= fuel)%nat ->
    exists r s', my_realloc fuel 4184 200 heap3 = Some (r, s') /\
      r <> 4120 /\ live s' 4120 /\
      get_size (mem_of s') (4120 - BLOCK_SIZE)
      = get_size (mem_of heap3) (4120 - BLOCK_SIZE) /\
      forall i, 0 <= i < get_size (mem_of heap3) (4120 - BLOCK_SIZE) ->
                mem_of s' (4120 + i) = mem_of heap3 (4120 + i).
Proof.
  assert (Hwf : wf heap3) by (apply (wf_check_sound 8); vm_compute; reflexivity).
  assert (Hp : live heap3 4184)
    by (apply (live_check_sound 8); vm_compute; reflexivity).
  assert (Hq : live heap3 4120)
    by (apply (live_check_sound 8); vm_compute; reflexivity).
  assert (Hne : 4120 <> 4184) by lia.
  assert (Hs : 0 <= 200 <= MAX_REQUEST) by (vm_compute; split; congruence).
  split; [exact Hwf|]. split; [exact Hp|]. split; [exact Hq|].
  split; [exact Hne|]. split; [exact Hs|].
  exact (realloc_keeps_others heap3 4184 200 4120 Hwf Hp Hq Hne Hs).
Defined.
